(** * ton-payment-network: the task queue, the store transaction and the
      channel state engine

    A shallow embedding of
    - [tonpayments/db/leveldb/db.go]  (module [leveldb]),
    - [tonpayments/db/task.go]        (module [db]: task queue, balances,
      known resolves),
    - [tonpayments/state.go]          (module [tonpayments]:
      [updateOurStateWithAction]),
    followed by the properties the specification states about them.

    Conventions of the embedding.
    - A Go byte slice or string is a [string] (a sequence of 8-bit
      characters); [bytes] abbreviates it.
    - A [*big.Int] is a [Z].  A [uint64]/[uint32] is a [Z] whose
      wrap-around is written with [Z.modulo].
    - A [time.Time] is the [Z] of its [UnixNano]; a unix-seconds
      [int64] is a [Z].  Every call of [time.Now] is an argument.
    - A Go function that can panic (slice index out of range, failed
      type assertion) returns an [outcome]: its values, its error, or
      [Panic].  One that cannot, and every call into a library, returns
      a [result] (values or error), or an [option error] when it
      returns only an error.  A function that mutates its receiver
      returns the receiver's new value next to that, also on the error
      paths.
    - Amounts are within the range of the coin encoding, byte fields
      of the cell structures have their declared lengths, and pointers
      are not nil: the panics of [MustFromNano], of the [MustStore]
      calls and of nil dereferences are outside the model.
    - The storage engine (goleveldb), [encoding/json] and the cell
      library (tonutils-go) are outside the repository.  The engine is
      modelled by a finite map with ordered prefix iteration, whose own
      reads and batch writes do not fail; JSON and the cell library are
      the methods of the classes [Json] and [TonLib]: the serializers
      of cells are total, the parsers and the JSON codec may fail. *)

From Stdlib Require Import ZArith Lia Ascii.
From stdpp Require Import base gmap strings list sorting fin_maps.

Local Open Scope Z_scope.

(** ** Go values shared by the three packages *)

Abbreviation bytes := string (only parsing).

(** Go's [error] values that the code distinguishes with [errors.Is],
    and [fmt.Errorf] with or without a wrapped cause. *)
Inductive error : Type :=
| ErrNotFound            (* db.ErrNotFound, payments.ErrNotFound *)
| ErrAlreadyExists       (* db.ErrAlreadyExists *)
| ErrChannelBusy         (* db.ErrChannelBusy *)
| ErrNewerStateIsKnown   (* db.ErrNewerStateIsKnown *)
| ErrNoSuchKeyInDict     (* cell.ErrNoSuchKeyInDict *)
| ErrExternal (msg : string)            (* an error of a library *)
| Errorf (msg : string)                 (* fmt.Errorf without a cause *)
| Wrapf (msg : string) (cause : error). (* fmt.Errorf with a wrapped cause *)

Fixpoint errors_Is (err target : error) : bool :=
  match err, target with
  | ErrNotFound, ErrNotFound => true
  | ErrAlreadyExists, ErrAlreadyExists => true
  | ErrChannelBusy, ErrChannelBusy => true
  | ErrNewerStateIsKnown, ErrNewerStateIsKnown => true
  | ErrNoSuchKeyInDict, ErrNoSuchKeyInDict => true
  | Wrapf _ cause, _ => errors_Is cause target
  | _, _ => false
  end.

Inductive outcome (A : Type) : Type :=
| Ok (a : A)
| Err (e : error)
| Panic (msg : string).
Arguments Ok {A} a.
Arguments Err {A} e.
Arguments Panic {A} msg.

(** What a call into a library returns: a value or an error. *)
Inductive result (A : Type) : Type :=
| Success (a : A)
| Failure (e : error).
Arguments Success {A} a.
Arguments Failure {A} e.

Definition is_Ok {A} (o : outcome A) : bool :=
  match o with Ok _ => true | _ => false end.
Definition is_Err {A} (o : outcome A) : bool :=
  match o with Err _ => true | _ => false end.

(** [b[n:]] and [len(b)] on byte strings. *)
Fixpoint drop_bytes (n : nat) (b : bytes) : bytes :=
  match n, b with
  | O, _ => b
  | S n', String _ b' => drop_bytes n' b'
  | S _, EmptyString => EmptyString
  end.

Definition byte_val (c : Ascii.ascii) : Z := Z.of_N (Ascii.N_of_ascii c).
Definition byte_of (z : Z) : Ascii.ascii := Ascii.ascii_of_N (Z.to_N (z mod 256)).

(** [binary.BigEndian.Uint64(b)]: the first eight bytes, most
    significant first; panics when [b] is shorter. *)
Fixpoint be_decode (n : nat) (acc : Z) (b : bytes) : option Z :=
  match n with
  | O => Some acc
  | S n' =>
      match b with
      | String c b' => be_decode n' (acc * 256 + byte_val c) b'
      | EmptyString => None
      end
  end.
Definition BigEndian_Uint64 (b : bytes) : option Z := be_decode 8 0 b.

(** [binary.BigEndian.PutUint64(at, v)] into eight fresh bytes. *)
Fixpoint be_encode (n : nat) (v : Z) : bytes :=
  match n with
  | O => EmptyString
  | S n' => String (byte_of (v / 256 ^ Z.of_nat n')) (be_encode n' v)
  end.
Definition BigEndian_PutUint64 (v : Z) : bytes := be_encode 8 v.

(** [binary.LittleEndian.Uint32(b)]: the first four bytes, least
    significant first; panics when [b] is shorter. *)
Definition LittleEndian_Uint32 (b : bytes) : option Z :=
  match b with
  | String b0 (String b1 (String b2 (String b3 _))) =>
      Some (Z.lor (byte_val b0)
             (Z.lor (Z.shiftl (byte_val b1) 8)
               (Z.lor (Z.shiftl (byte_val b2) 16)
                      (Z.shiftl (byte_val b3) 24))))
  | _ => None
  end.

(** [new(big.Int).SetBytes(b)]: big-endian, unsigned. *)
Fixpoint SetBytes_from (acc : Z) (b : bytes) : Z :=
  match b with
  | EmptyString => acc
  | String c b' => SetBytes_from (acc * 256 + byte_val c) b'
  end.
Definition SetBytes (b : bytes) : Z := SetBytes_from 0 b.

Definition uint64 (z : Z) : Z := z mod 2 ^ 64.

(** [time.Time] and [time.Duration] in nanoseconds. *)
Abbreviation Time := Z (only parsing).
Definition Minute : Z := 60 * 1000000000.
Definition After (t u : Time) : bool := u <? t.
Definition Before (t u : Time) : bool := t <? u.

(** ** Package leveldb: the store and its transaction *)
Module leveldb.

(** A [leveldb.Batch] records its operations in order. *)
Inductive Op : Type :=
| BatchPut (key value : bytes)
| BatchDelete (key : bytes).

(** [type Tx struct { *leveldb.Snapshot; batchWrap }] *)
Record Tx : Type := mkTx {
  Snapshot : gmap string string;
  batch : list Op
}.

(** [type LevelDB struct { path; _db; mx }]: the contents of [_db]. *)
Record LevelDB : Type := mkLevelDB {
  _db : gmap string string
}.

(** What a function that receives a [context.Context] can reach: the
    store, and the transaction stored under [txKey] in the context,
    if any.  The [*Tx] is shared by pointer, so writes to its batch
    are part of the threaded state. *)
Record World : Type := mkWorld {
  storage : LevelDB;
  ctxTx : option Tx      (* the Tx under txKey in the context *)
}.

Definition M (A : Type) : Type := World → outcome A * World.

Definition ret {A} (a : A) : M A := fun w => (Ok a, w).
Definition fail {A} (e : error) : M A := fun w => (Err e, w).
Definition panic {A} (msg : string) : M A := fun w => (Panic msg, w).
Definition bind {A B} (m : M A) (k : A → M B) : M B := fun w =>
  match m w with
  | (Ok a, w') => k a w'
  | (Err e, w') => (Err e, w')
  | (Panic msg, w') => (Panic msg, w')
  end.

(** The engine: [db.GetSnapshot], [db.Write(batch, sync)]. *)
Definition apply_op (m : gmap string string) (o : Op) : gmap string string :=
  match o with
  | BatchPut k v => <[k := v]> m
  | BatchDelete k => delete k m
  end.
Definition apply_batch (b : list Op) (m : gmap string string)
  : gmap string string := fold_left apply_op b m.

Definition GetSnapshot (d : LevelDB) : result (gmap string string) :=
  Success (_db d).
Definition Write (d : LevelDB) (b : list Op) : option error * LevelDB :=
  (None, mkLevelDB (apply_batch b (_db d))).

(** [util.BytesPrefix(p)] with the bytewise comparer: the entries
    whose key starts with [p], in ascending key order. *)
Definition has_prefix (p : bytes) (kv : string * string) : bool :=
  String.prefix p kv.1.
Definition key_le (a b : string * string) : Prop := String.le a.1 b.1.
Definition range_entries (p : bytes) (m : gmap string string)
  : list (string * string) :=
  merge_sort key_le (List.filter (has_prefix p) (map_to_list m)).

(** [func (d *LevelDB) Transaction(ctx, f) error] *)
Definition Transaction (f : M unit) : M unit := fun w =>
  match ctxTx w with
  | Some _ =>
      (* already inside tx *)
      f w
  | None =>
      match GetSnapshot (storage w) with
      | Failure e => (Err (Wrapf "failed to get db snapshot" e), w)
      | Success snap =>
          let tx := mkTx snap [] in
          match f (mkWorld (storage w) (Some tx)) with
          | (Err e, w1) => (Err e, mkWorld (storage w1) None)
          | (Panic msg, w1) => (Panic msg, mkWorld (storage w1) None)
          | (Ok _, w1) =>
              let b := match ctxTx w1 with
                       | Some tx1 => batch tx1
                       | None => []
                       end in
              match Write (storage w1) b with
              | (Some e, d') =>
                  (Err (Wrapf "failed to write batch to db" e),
                   mkWorld d' None)
              | (None, d') => (Ok tt, mkWorld d' None)
              end
          end
      end
  end.

(** [GetExecutor(ctx)]: the transaction of the context when there is
    one, the store itself otherwise.  Inside a transaction [Put] and
    [Delete] go to the batch ([batchWrap]) and [Get], [Has] and
    [NewIterator] to the snapshot. *)
Definition Put (key value : bytes) : M unit := fun w =>
  match ctxTx w with
  | Some tx =>
      (Ok tt, mkWorld (storage w)
                (Some (mkTx (Snapshot tx) (batch tx ++ [BatchPut key value]))))
  | None =>
      (Ok tt, mkWorld (mkLevelDB (<[key := value]> (_db (storage w)))) None)
  end.

Definition Delete (key : bytes) : M unit := fun w =>
  match ctxTx w with
  | Some tx =>
      (Ok tt, mkWorld (storage w)
                (Some (mkTx (Snapshot tx) (batch tx ++ [BatchDelete key]))))
  | None =>
      (Ok tt, mkWorld (mkLevelDB (delete key (_db (storage w)))) None)
  end.

Definition view (w : World) : gmap string string :=
  match ctxTx w with
  | Some tx => Snapshot tx
  | None => _db (storage w)
  end.

Definition Get (key : bytes) : M bytes := fun w =>
  match view w !! key with
  | Some v => (Ok v, w)
  | None => (Err ErrNotFound, w)
  end.

Definition Has (key : bytes) : M bool := fun w =>
  (Ok (bool_decide (is_Some (view w !! key))), w).

Definition NewIterator (p : bytes) (forward : bool)
  : M (list (string * string)) := fun w =>
  let l := range_entries p (view w) in
  (Ok (if forward then l else rev l), w).

End leveldb.

(** ** Package payments: the values the state engine works on

    The package itself (pkg/payments) is outside the three files
    embedded here; its types are declared as their code uses them. *)
Module payments.

(** A cell of the cell library, represented by its canonical bytes. *)
Record Cell : Type := mkCell { cell_repr : bytes }.

Global Instance Cell_eq_dec : EqDecision Cell.
Proof. solve_decision. Defined.

(** A [*cell.Dictionary] with 32-bit keys. *)
Abbreviation Dictionary := (gmap Z Cell) (only parsing).

(** A [*cell.ProofSkeleton]: the keys whose branches were recorded. *)
Abbreviation ProofSkeleton := (list Z) (only parsing).

(** Modelled from the spec: [VirtualChannel], the value of the
    conditionals dictionary: key (32 bytes, ed25519 public key),
    capacity, fee, prepay, deadline (unix seconds). *)
Record VirtualChannel : Type := mkVirtualChannel {
  Key : bytes;
  Capacity : Z;
  Fee : Z;
  Prepay : Z;
  Deadline : Z
}.

(** Modelled from the spec: [VirtualChannelState], the off-chain
    ticket: an amount and a signature by the virtual-channel key. *)
Record VirtualChannelState : Type := mkVirtualChannelState {
  Amount : Z;
  StateSignature : bytes
}.

(** [SemiChannelBody], [SemiChannel], [SignedSemiChannel] as
    [db.NewSide] builds them. *)
Record SemiChannelBody : Type := mkSemiChannelBody {
  Seqno : Z;                 (* uint64 *)
  Sent : Z;                  (* tlb.Coins, in nano *)
  ConditionalsHash : bytes
}.

Record SemiChannel : Type := mkSemiChannel {
  ChannelID : bytes;
  Data : SemiChannelBody;
  CounterpartyData : option SemiChannelBody
}.

Record SignedSemiChannel : Type := mkSignedSemiChannel {
  Signature : bytes;         (* payments.Signature{Value} *)
  State : SemiChannel
}.

(** The cell library, and the serializers, the parsers and the
    signature check of the package, which are declared outside the
    files embedded here: they are taken as parameters. *)
Class TonLib : Type := {
  cell_Hash : Cell → bytes;
  cell_Sign : Cell → bytes → bytes;          (* cl.Sign(privateKey) *)
  cell_ToBOC : Cell → bytes;
  cell_FromBOC : bytes → result Cell;
  dict_AsCell : gmap Z Cell → Cell;
  cell_CreateProof : Cell → list Z → Cell;
  VirtualChannel_Serialize : VirtualChannel → Cell;
  ParseVirtualChannelCond : Cell → result VirtualChannel;
  VirtualChannelState_ToCell : VirtualChannelState → Cell;
  VirtualChannelState_Load : Cell → result VirtualChannelState;
  VirtualChannelState_Verify : VirtualChannelState → bytes → bool;
  SemiChannel_ToCell : SemiChannel → Cell;
  SignedSemiChannel_ToCell : SignedSemiChannel → Cell
}.

(** [make([]byte, n)] *)
Fixpoint zero_bytes (n : nat) : bytes :=
  match n with
  | O => EmptyString
  | S n' => String Ascii.zero (zero_bytes n')
  end.

Section with_lib.
Context `{!TonLib}.

(** Modelled from the spec: [FindVirtualChannelWithProof] is declared
    in pkg/payments, outside the files embedded here.  The conditionals
    dictionary maps the 32-bit key prefix to the serialized condition,
    which carries the 32-byte key; the condition of a virtual-channel
    key is the one stored under the key's prefix that carries this key,
    and a key without one is absent ([ErrNotFound]).  The found branch
    is recorded in the proof skeleton. *)
Definition FindVirtualChannelWithProof (conditionals : gmap Z Cell)
    (key : bytes) (proofRoot : list Z)
  : outcome (Z * VirtualChannel) * list Z :=
  match LittleEndian_Uint32 key with
  | None => (Panic "index out of range", proofRoot)
  | Some idx =>
      match conditionals !! idx with
      | None => (Err ErrNotFound, proofRoot)
      | Some sl =>
          match ParseVirtualChannelCond sl with
          | Failure e => (Err e, proofRoot)
          | Success vch =>
              if String.eqb (Key vch) key
              then (Ok (idx, vch), proofRoot ++ [idx])
              else (Err ErrNotFound, proofRoot)
          end
      end
  end.

End with_lib.
End payments.

(** ** Package db, first file: the task queue *)
Module db.
Import leveldb.

Notation "x <- m ;; k" := (bind m (fun x => k))
  (at level 100, m at next level, right associativity, only parsing).

(** Modelled from the spec: the declaration of [Task] is not part of
    task.go; the fields are those the spec lists and the code reads
    and writes (the pool is an argument of the calls, not a field). *)
Record Task : Type := mkTask {
  ID : string;
  Type_ : string;
  Queue : string;
  Data : bytes;
  ExecuteAfter : Time;
  ExecuteTill : option Time;
  LockedTill : option Time;
  ReExecuteAfter : option Time;
  CompletedAt : option Time;
  LastError : string;
  CreatedAt : Time
}.

(** [encoding/json] on [*Task]. *)
Class Json : Type := {
  json_Marshal : Task → result bytes;
  json_Unmarshal : bytes → result Task
}.

(** The [data any] handed to [CreateTask]: a value with a JSON
    encoding, or a value of a type [json.Marshal] refuses (a channel,
    a func, a complex number). *)
Inductive GoValue : Type :=
| Encodable (json : bytes)
| Unsupported (type_name : string).

Definition json_Marshal_any (v : GoValue) : result bytes :=
  match v with
  | Encodable json => Success json
  | Unsupported type_name =>
      Failure (ErrExternal ("json: unsupported type: " +:+ type_name))
  end.

(** Modelled from the spec: [DB.Transaction] is not part of task.go;
    all multi-key mutations run inside a store transaction, so it
    hands the body to the store.  The result of type [A] stands for
    the variables of the caller that the closure assigns. *)
Definition Transaction {A} (f : M A) : M A := fun w =>
  match ctxTx w with
  | Some _ => f w
  | None =>
      match GetSnapshot (storage w) with
      | Failure e => (Err (Wrapf "failed to get db snapshot" e), w)
      | Success snap =>
          match f (mkWorld (storage w) (Some (mkTx snap []))) with
          | (Err e, w1) => (Err e, mkWorld (storage w1) None)
          | (Panic msg, w1) => (Panic msg, mkWorld (storage w1) None)
          | (Ok a, w1) =>
              let b := match ctxTx w1 with
                       | Some tx1 => batch tx1
                       | None => []
                       end in
              match Write (storage w1) b with
              | (Some e, d') =>
                  (Err (Wrapf "failed to write batch to db" e),
                   mkWorld d' None)
              | (None, d') => (Ok a, mkWorld d' None)
              end
          end
      end
  end.

Definition wrap {A} (msg : string) (m : M A) : M A := fun w =>
  match m w with
  | (Err e, w') => (Err (Wrapf msg e), w')
  | r => r
  end.

Definition lift {A} (msg : string) (o : result A) : M A := fun w =>
  match o with
  | Success a => (Ok a, w)
  | Failure e => (Err (Wrapf msg e), w)
  end.

Definition keyIndexOf (poolName : string) : bytes :=
  "ti:" +:+ poolName +:+ ":".

(** [func getTaskIndexKey(task *Task, poolName string) []byte] *)
Definition getTaskIndexKey (task : Task) (poolName : string) : bytes :=
  let at_ := BigEndian_PutUint64 (uint64 (ExecuteAfter task)) in
  (keyIndexOf poolName +:+ at_) +:+ Queue task.

Definition setLockedTill (t : Task) (v : option Time) : Task :=
  mkTask (ID t) (Type_ t) (Queue t) (Data t) (ExecuteAfter t)
         (ExecuteTill t) v (ReExecuteAfter t) (CompletedAt t)
         (LastError t) (CreatedAt t).

Definition in_skip (q : string) (toSkip : list string) : bool :=
  existsb (String.eqb q) toSkip.

Section with_json.
Context `{!Json}.

(** The [for iter.Next()] loop of [AcquireTask] over the entries of
    the iterator; [now] is the [time.Now()] read before the loop,
    [now2] the one read when a task is taken. *)
Fixpoint acquire_loop (keyIndex : bytes) (now now2 : Time)
    (entries : list (string * string)) (toSkip : list string)
  : M (option Task) :=
  match entries with
  | [] => ret None
  | (key, dataKey) :: rest =>
      match BigEndian_Uint64 (drop_bytes (String.length keyIndex) key) with
      | None => panic "slice bounds out of range"
      | Some at_ =>
          if uint64 now <? at_ then
            (* no tasks ready to execute *)
            ret None
          else
            let q := drop_bytes (String.length keyIndex + 8) key in
            if in_skip q toSkip then
              acquire_loop keyIndex now now2 rest toSkip
            else
              data <- wrap "failed to get task by index" (Get dataKey) ;;
              task <- lift "failed to decode json data" (json_Unmarshal data) ;;
              if bool_decide (is_Some (CompletedAt task)) then
                (* it should be removed from index when completed *)
                acquire_loop keyIndex now now2 rest toSkip
              else if match LockedTill task with
                      | Some l => After l now
                      | None => false
                      end then
                (* locked by someone else: skip the whole queue *)
                acquire_loop keyIndex now now2 rest (toSkip ++ [Queue task])
              else if match ReExecuteAfter task with
                      | Some r => After r now
                      | None => false
                      end then
                (* not yet ready to retry *)
                acquire_loop keyIndex now now2 rest (toSkip ++ [Queue task])
              else if match ExecuteTill task with
                      | Some e => Before e now
                      | None => false
                      end then
                (* task is expired, remove from index (queue) *)
                _ <- wrap "failed to delete index" (Delete key) ;;
                acquire_loop keyIndex now now2 rest toSkip
              else
                let till := now2 + 5 * Minute in
                let result := setLockedTill task (Some till) in
                data' <- lift "failed to encode json" (json_Marshal result) ;;
                _ <- wrap "failed to put index" (Put dataKey data') ;;
                ret (Some result)
      end
  end.

(** [func (d *DB) AcquireTask(ctx, poolName)], which returns the
    task (nil when there is none to run) and the error. *)
Definition AcquireTask (poolName : string) (now now2 : Time)
  : M (option Task) :=
  Transaction (
    let keyIndex := keyIndexOf poolName in
    entries <- NewIterator keyIndex true ;;
    acquire_loop keyIndex now now2 entries []).

(** [func (d *DB) createTask(ctx, task, poolName) error] *)
Definition createTask (task : Task) (poolName : string) : M unit :=
  let key := "tv:" +:+ ID task in
  (* we need an index to know processing order *)
  let keyOrderIndex := getTaskIndexKey task poolName in
  Transaction (
    has <- wrap "failed to check existance" (Has key) ;;
    if (has : bool) then fail ErrAlreadyExists
    else
      data <- lift "failed to encode json" (json_Marshal task) ;;
      _ <- wrap "failed to put data" (Put key data) ;;
      _ <- wrap "failed to put index" (Put keyOrderIndex key) ;;
      ret tt).

(** [func (d *DB) CreateTask(ctx, poolName, typ, queue, id, data,
    executeAfter, executeTill) error]; [now] and [now2] are its two
    readings of the clock. *)
Definition CreateTask (poolName typ queue id : string) (data : GoValue)
    (executeAfter executeTill : option Time) (now now2 : Time) : M unit :=
  match json_Marshal_any data with
  | Failure err => fail err
  | Success bts =>
      Transaction (fun w =>
        let after := match executeAfter with
                     | Some t => t
                     | None => now
                     end in
        match createTask
                (mkTask id typ queue bts after executeTill
                        None None None "" now2) poolName w with
        | (Err err, w') =>
            if errors_Is err ErrAlreadyExists then
              (* idempotency *)
              (Ok tt, w')
            else (Err (Wrapf "failed to create task" err), w')
        | r => r
        end)
  end.

(** [func (d *DB) CompleteTask(ctx, poolName, task) error]: the
    caller's task after the call, and the effect on the store. *)
Definition CompleteTask (poolName : string) (task : Task) (now : Time)
  : Task * M unit :=
  if bool_decide (is_Some (CompletedAt task)) then (task, ret tt)
  else
    let task' :=
      mkTask (ID task) (Type_ task) (Queue task) (Data task)
             (ExecuteAfter task) (ExecuteTill task) None
             (ReExecuteAfter task) (Some now) (LastError task)
             (CreatedAt task) in
    let key := "tv:" +:+ ID task' in
    let keyOrderIndex := getTaskIndexKey task' poolName in
    (task',
     Transaction (
       has <- wrap "failed to check existance" (Has key) ;;
       if (has : bool) then
         data <- lift "failed to encode json" (json_Marshal task') ;;
         _ <- wrap "failed to put" (Put key data) ;;
         _ <- wrap "failed to put index" (Delete keyOrderIndex) ;;
         ret tt
       else fail ErrNotFound)).

(** [func (d *DB) RetryTask(ctx, task, reason, retryAt) error]: the
    caller's task after the call, and the effect on the store. *)
Definition RetryTask (task : Task) (reason : string) (retryAt : Time)
  : Task * M unit :=
  if bool_decide (is_Some (CompletedAt task))
     || bool_decide (LockedTill task = None) then (task, ret tt)
  else
    let task' :=
      mkTask (ID task) (Type_ task) (Queue task) (Data task)
             (ExecuteAfter task) (ExecuteTill task) None
             (Some retryAt) (CompletedAt task) reason
             (CreatedAt task) in
    let key := "tv:" +:+ ID task' in
    (task',
     Transaction (
       has <- wrap "failed to check existance" (Has key) ;;
       if (has : bool) then
         data <- lift "failed to encode json" (json_Marshal task') ;;
         _ <- wrap "failed to put" (Put key data) ;;
         ret tt
       else fail ErrNotFound)).

End with_json.

(** *** Package db, second file: channels and virtual-channel meta *)
Import payments.

Inductive ChannelStatus : Type :=
| ChannelStateInactive | ChannelStateActive | ChannelStateClosing
| ChannelStateAny.

Inductive VirtualChannelStatus : Type :=
| VirtualChannelStateActive | VirtualChannelStateWantClose
| VirtualChannelStateClosed | VirtualChannelStateWantRemove
| VirtualChannelStateRemoved | VirtualChannelStatePending.

Record VirtualChannelMetaSide : Type := mkVirtualChannelMetaSide {
  ChannelAddress : string;
  SideCapacity : string;
  SideFee : string;
  UncooperativeDeadline : Time;
  SafeDeadline : Time;
  SenderKey : bytes
}.

Record VirtualChannelMeta : Type := mkVirtualChannelMeta {
  MetaKey : bytes;
  MetaStatus : VirtualChannelStatus;
  Incoming : option VirtualChannelMetaSide;
  Outgoing : option VirtualChannelMetaSide;
  LastKnownResolve : option bytes;      (* nil or the BOC of the state *)
  FinalDestination : bytes;
  MetaCreatedAt : Time;
  MetaUpdatedAt : Time
}.

Record OnchainState : Type := mkOnchainState {
  OnchainKey : bytes;
  CommittedSeqno : Z;
  WalletAddress : string;
  Deposited : Z;
  Withdrawn : Z;
  OnchainSent : Z
}.

(** [type Side struct { payments.SignedSemiChannel; Conditionals;
    PendingWithdraw }] *)
Record Side : Type := mkSide {
  Signed : SignedSemiChannel;
  Conditionals : gmap Z Cell;
  PendingWithdraw : Z
}.

Record Channel : Type := mkChannel {
  ChanID : bytes;
  Address : string;
  ExtraCurrencyID : Z;
  JettonAddress : string;
  Status : ChannelStatus;
  WeLeft : bool;
  OurOnchain : OnchainState;
  TheirOnchain : OnchainState;
  SafeOnchainClosePeriod : Z;
  AcceptingActions : bool;
  WebPeer : bool;
  Our : Side;
  Their : Side;
  InitAt : Time;
  ChanCreatedAt : Time;
  LastProcessedLT : Z;
  DBVersion : Z
}.

(** [func NewSide(channelId, seqno, counterpartySeqno) Side] *)
Definition NewSide (channelId : bytes) (seqno counterpartySeqno : Z) : Side :=
  mkSide
    (mkSignedSemiChannel (zero_bytes 64)
       (mkSemiChannel channelId
          (mkSemiChannelBody seqno 0 (zero_bytes 32))
          (Some (mkSemiChannelBody counterpartySeqno 0 (zero_bytes 32)))))
    ∅ 0.

(** [s.State.Data.Sent.Nano()] *)
Definition SentNano (s : Side) : Z := Sent (Data (State (Signed s))).

Section with_lib.
Context `{!TonLib}.

(** The [for _, kv := range all] loop of [CalcBalance]. *)
Fixpoint calc_loop (all : list (Z * Cell)) (balance locked : Z)
  : result (Z * Z) :=
  match all with
  | [] => Success (balance, locked)
  | (_, value) :: rest =>
      match ParseVirtualChannelCond value with
      | Failure e => Failure (Wrapf "failed to parse condition" e)
      | Success vch =>
          let balance := balance - Capacity vch in
          let balance := balance - Fee vch in
          let balance := balance + Prepay vch in
          let locked := locked + Capacity vch in
          let locked := locked + Fee vch in
          let locked := locked - Prepay vch in
          calc_loop rest balance locked
      end
  end.

(** [func (ch *Channel) CalcBalance(isTheir bool)], which returns the
    balance, the locked amount and the error. *)
Definition CalcBalance (ch : Channel) (isTheir : bool) : result (Z * Z) :=
  let '(s1, s1chain, s2, s2chain) :=
    if isTheir then (Their ch, TheirOnchain ch, Our ch, OurOnchain ch)
    else (Our ch, OurOnchain ch, Their ch, TheirOnchain ch) in
  let maxWithdraw :=
    if Withdrawn s1chain <? PendingWithdraw s1
    then PendingWithdraw s1 else Withdrawn s1chain in
  let balance := SentNano s2 + (Deposited s1chain - maxWithdraw) in
  let balance := balance - SentNano s1 in
  let locked :=
    if 0 <? PendingWithdraw s1
    then PendingWithdraw s1 - Withdrawn s1chain else 0 in
  if bool_decide (Conditionals s1 = ∅) then Success (balance, locked)
  else calc_loop (map_to_list (Conditionals s1)) balance locked.

(** [func (ch *VirtualChannelMeta) GetKnownResolve()] *)
Definition GetKnownResolve (ch : VirtualChannelMeta)
  : option VirtualChannelState :=
  match LastKnownResolve ch with
  | None => None
  | Some boc =>
      match cell_FromBOC boc with
      | Success cll =>
          match VirtualChannelState_Load cll with
          | Success st =>
              if VirtualChannelState_Verify st (MetaKey ch)
              then Some st else None
          | Failure _ => None
          end
      | Failure _ => None
      end
  end.

Definition setLastKnownResolve (ch : VirtualChannelMeta) (v : option bytes)
  : VirtualChannelMeta :=
  mkVirtualChannelMeta (MetaKey ch) (MetaStatus ch) (Incoming ch)
    (Outgoing ch) v (FinalDestination ch) (MetaCreatedAt ch)
    (MetaUpdatedAt ch).

(** [func (ch *VirtualChannelMeta) AddKnownResolve(state) error]:
    the meta after the call and the returned error. *)
Definition AddKnownResolve (ch : VirtualChannelMeta)
    (state : VirtualChannelState) : VirtualChannelMeta * option error :=
  if negb (VirtualChannelState_Verify state (MetaKey ch)) then
    (ch, Some (Errorf "incorrect signature"))
  else
    let store :=
      let cl := VirtualChannelState_ToCell state in
      (setLastKnownResolve ch (Some (cell_ToBOC cl)), None) in
    match LastKnownResolve ch with
    | Some boc =>
        match cell_FromBOC boc with
        | Failure err => (ch, Some err)
        | Success cl =>
            match VirtualChannelState_Load cl with
            | Failure err => (ch, Some (Wrapf "failed to parse old start" err))
            | Success oldState =>
                if Amount state <? Amount oldState
                then (ch, Some ErrNewerStateIsKnown)
                else store
            end
        end
    | None => store
    end.

End with_lib.
End db.


(** ** Package tonpayments: the state engine for our side *)
Module tonpayments.
Import db payments.

(** The [transport.Action] values the type switch tells apart; the
    last constructor is any other dynamic type (the [default] case).
    The condition of an [OpenVirtualAction] comes in the [details]
    argument. *)
Inductive Action : Type :=
| IncrementStatesAction
| OpenVirtualAction
| CommitVirtualAction (Key : bytes) (PrepayAmount : bytes)
| RemoveVirtualAction (Key : bytes)
| ConfirmCloseAction (Key : bytes) (State : Cell)
| OtherAction (type_name : string).

Record CoinConfig : Type := mkCoinConfig {
  Decimals : Z
}.

(** The parts of [Service] the function uses: the node's private key,
    and [ResolveCoinConfig], which is declared outside state.go and is
    taken as a field. *)
Record Service : Type := mkService {
  key : bytes;
  ResolveCoinConfig : string → Z → bool → result CoinConfig
}.

(** The [onSuccess] callbacks: each logs one message. *)
Inductive OnSuccess : Type :=
| NoCallback
| CommitConfirmed (vch : VirtualChannel)
| Removed (vch : VirtualChannel)
| CloseConfirmed (vch : VirtualChannel) (vState : VirtualChannelState).

(** How the type switch is left: by a [return] with an error, by a
    panic, or at its end (also by [break]) with the three locals the
    rest of the function reads. *)
Inductive Switch : Type :=
| Return (err : error)
| Panicked (msg : string)
| Break (idempotency : bool) (dictRoot : list Z) (onSuccess : OnSuccess).

Definition setConditionals (channel : Channel) (d : gmap Z Cell) : Channel :=
  mkChannel (ChanID channel) (Address channel) (ExtraCurrencyID channel)
    (JettonAddress channel) (Status channel) (WeLeft channel)
    (OurOnchain channel) (TheirOnchain channel)
    (SafeOnchainClosePeriod channel) (AcceptingActions channel)
    (WebPeer channel)
    (mkSide (Signed (Our channel)) d (PendingWithdraw (Our channel)))
    (Their channel) (InitAt channel) (ChanCreatedAt channel)
    (LastProcessedLT channel) (DBVersion channel).

Definition setSigned (channel : Channel) (sg : SignedSemiChannel) : Channel :=
  mkChannel (ChanID channel) (Address channel) (ExtraCurrencyID channel)
    (JettonAddress channel) (Status channel) (WeLeft channel)
    (OurOnchain channel) (TheirOnchain channel)
    (SafeOnchainClosePeriod channel) (AcceptingActions channel)
    (WebPeer channel)
    (mkSide sg (Conditionals (Our channel)) (PendingWithdraw (Our channel)))
    (Their channel) (InitAt channel) (ChanCreatedAt channel)
    (LastProcessedLT channel) (DBVersion channel).

Definition setBody (sg : SignedSemiChannel) (b : SemiChannelBody)
  : SignedSemiChannel :=
  mkSignedSemiChannel (Signature sg)
    (mkSemiChannel (ChannelID (State sg)) b (CounterpartyData (State sg))).

(** [tlb.MustFromNano(nano, decimals)]: the coins value, which is
    represented by its nano amount. *)
Definition MustFromNano (nano : Z) (decimals : Z) : Z := nano.

(** [channel.Our.State.Data.Sent = v] *)
Definition setSent (channel : Channel) (v : Z) : Channel :=
  let body := Data (State (Signed (Our channel))) in
  setSigned channel
    (setBody (Signed (Our channel))
       (mkSemiChannelBody (Seqno body) v (ConditionalsHash body))).

Section with_lib.
Context `{!TonLib}.

(** The [switch ch := action.(type)] of [updateOurStateWithAction]:
    the channel as the case leaves it, and how the switch is left. *)
Definition applyAction (cc : CoinConfig) (channel : Channel) (action : Action)
    (details : option VirtualChannel) (now : Z) (dictRoot : list Z)
  : Channel * Switch :=
  match action with
  | IncrementStatesAction => (channel, Break false dictRoot NoCallback)
  | OpenVirtualAction =>
      match details with
      | None => (channel, Panicked "interface conversion")
      | Some vch =>
          if Capacity vch <=? 0 then
            (channel, Return (Errorf "invalid capacity"))
          else if Fee vch <? 0 then
            (channel, Return (Errorf "invalid fee"))
          else if Prepay vch <? 0 then
            (channel, Return (Errorf "invalid prepay"))
          else if Deadline vch <? now then
            (channel, Return (Errorf "deadline expired"))
          else
            let val := VirtualChannel_Serialize vch in
            match LittleEndian_Uint32 (payments.Key vch) with
            | None => (channel, Panicked "index out of range")
            | Some key =>
                let dictRoot := dictRoot ++ [key] in
                match Conditionals (Our channel) !! key with
                | Some sl =>
                    if String.eqb (cell_Hash sl) (cell_Hash val) then
                      (* idempotency *)
                      (channel, Break true dictRoot NoCallback)
                    else
                      (channel,
                       Return (Errorf "virtual channel with the same key prefix and different content is already exists"))
                | None =>
                    let channel :=
                      setConditionals channel
                        (<[key := val]> (Conditionals (Our channel))) in
                    let dictRoot := dictRoot ++ [key] in
                    match CalcBalance channel false with
                    | Failure err =>
                        (channel,
                         Return (Wrapf "failed to calc our side balance with target" err))
                    | Success (ourTargetBalance, _) =>
                        if ourTargetBalance <? 0 then
                          (channel,
                           Return (Errorf "not enough available balance with target"))
                        else (channel, Break false dictRoot NoCallback)
                    end
                end
            end
      end
  | CommitVirtualAction chKey prepayAmount =>
      match FindVirtualChannelWithProof
              (Conditionals (Our channel)) chKey dictRoot with
      | (Err err, _) => (channel, Return err)
      | (Panic msg, _) => (channel, Panicked msg)
      | (Ok (_, vch), dictRoot) =>
          let prepay := SetBytes prepayAmount in
          let toSend := prepay - Prepay vch in
          if toSend <? 0 then
            (channel, Return (Errorf "prepay amount is less than before"))
          else if toSend =? 0 then
            (* same *)
            (channel, Break true dictRoot NoCallback)
          else
            match LittleEndian_Uint32 (payments.Key vch) with
            | None => (channel, Panicked "index out of range")
            | Some key =>
                let vch :=
                  mkVirtualChannel (payments.Key vch) (Capacity vch) (Fee vch)
                    prepay (Deadline vch) in
                let channel :=
                  setConditionals channel
                    (<[key := VirtualChannel_Serialize vch]>
                       (Conditionals (Our channel))) in
                let channel :=
                  setSent channel
                    (MustFromNano (SentNano (Our channel) + toSend)
                       (Decimals cc)) in
                (channel, Break false dictRoot (CommitConfirmed vch))
            end
      end
  | RemoveVirtualAction chKey =>
      match FindVirtualChannelWithProof
              (Conditionals (Our channel)) chKey dictRoot with
      | (Err err, dictRoot) =>
          if errors_Is err ErrNotFound then
            (* idempotency, if not found we consider it already closed *)
            (channel, Break true dictRoot NoCallback)
          else (channel, Return err)
      | (Panic msg, _) => (channel, Panicked msg)
      | (Ok (idx, vch), _) =>
          (* new skeleton to reset prev path *)
          let dictRoot := [] in
          let channel :=
            setConditionals channel (delete idx (Conditionals (Our channel))) in
          match LittleEndian_Uint32 (payments.Key vch) with
          | None => (channel, Panicked "index out of range")
          | Some key =>
              match Conditionals (Our channel) !! key with
              | Some _ =>
                  (channel,
                   Return (Errorf "deleted value is still exists for some reason"))
              | None =>
                  (channel, Break false (dictRoot ++ [key]) (Removed vch))
              end
          end
      end
  | ConfirmCloseAction chKey chState =>
      match VirtualChannelState_Load chState with
      | Failure err =>
          (channel,
           Return (Wrapf "failed to load virtual channel state cell" err))
      | Success vState =>
          if negb (VirtualChannelState_Verify vState chKey) then
            (channel, Return (Errorf "incorrect channel state signature"))
          else
            match FindVirtualChannelWithProof
                    (Conditionals (Our channel)) chKey dictRoot with
            | (Err err, dictRoot) =>
                if errors_Is err ErrNotFound then
                  (* idempotency, if not found we consider it already closed *)
                  (channel, Break true dictRoot NoCallback)
                else (channel, Return err)
            | (Panic msg, _) => (channel, Panicked msg)
            | (Ok (idx, vch), _) =>
                (* new skeleton to reset prev path *)
                let dictRoot := [] in
                if Deadline vch <? now then
                  (channel, Return (Errorf "virtual channel has expired"))
                else
                  let channel :=
                    setConditionals channel
                      (delete idx (Conditionals (Our channel))) in
                  match LittleEndian_Uint32 (payments.Key vch) with
                  | None => (channel, Panicked "index out of range")
                  | Some key =>
                      match Conditionals (Our channel) !! key with
                      | Some _ =>
                          (channel,
                           Return (Errorf "deleted value is still exists for some reason"))
                      | None =>
                          let dictRoot := dictRoot ++ [key] in
                          let toSend := Amount vState in
                          let toSend := toSend - Prepay vch in
                          let toSend := toSend + Fee vch in
                          let channel :=
                            if 0 <? toSend then
                              (* we cannot decrease sent, even when we
                                 prepaid more than actual *)
                              setSent channel
                                (MustFromNano
                                   (toSend + SentNano (Our channel))
                                   (Decimals cc))
                            else channel in
                          (channel,
                           Break false dictRoot (CloseConfirmed vch vState))
                      end
                  end
            end
      end
  | OtherAction type_name =>
      (channel, Return (Errorf ("unexpected action type: " +:+ type_name)))
  end.

(** The part of [updateOurStateWithAction] after the switch. *)
Definition finish (s : Service) (channel : Channel) (idempotency : bool)
    (dictRoot : list Z) (onSuccess : OnSuccess)
  : Channel * outcome (OnSuccess * Cell * option Cell) :=
  let cond :=
    if bool_decide (Conditionals (Our channel) = ∅) then None
    else Some (dict_AsCell (Conditionals (Our channel))) in
  let channel :=
    if negb idempotency then
      let body := Data (State (Signed (Our channel))) in
      let body :=
        mkSemiChannelBody (uint64 (Seqno body + 1)) (Sent body)
          (match cond with
           | Some c => cell_Hash c
           | None => zero_bytes 32
           end) in
      let sg := setBody (Signed (Our channel)) body in
      let cl := SemiChannel_ToCell (State sg) in
      setSigned channel (mkSignedSemiChannel (cell_Sign cl (key s)) (State sg))
    else channel in
  let res := SignedSemiChannel_ToCell (Signed (Our channel)) in
  match cond with
  | None =>
      (* empty conditionals *)
      (channel, Ok (onSuccess, res, None))
  | Some c =>
      let updateProof := cell_CreateProof c dictRoot in
      (channel, Ok (onSuccess, res, Some updateProof))
  end.

(** [func (s *Service) updateOurStateWithAction(channel, action,
    details)]: the channel after the call (it is mutated in place, also
    when an error is returned) and the returned callback, signed state
    cell, proof cell (nil for empty conditionals) and error.  [now] is
    [time.Now().UTC().Unix()]. *)
Definition updateOurStateWithAction (s : Service) (channel : Channel)
    (action : Action) (details : option VirtualChannel) (now : Z)
  : Channel * outcome (OnSuccess * Cell * option Cell) :=
  match ResolveCoinConfig s (JettonAddress channel)
          (ExtraCurrencyID channel) false with
  | Failure err => (channel, Err (Wrapf "failed to resolve coin config" err))
  | Success cc =>
      match applyAction cc channel action details now [] with
      | (channel, Return err) => (channel, Err err)
      | (channel, Panicked msg) => (channel, Panic msg)
      | (channel, Break idempotency dictRoot onSuccess) =>
          finish s channel idempotency dictRoot onSuccess
      end
  end.

End with_lib.
End tonpayments.


(** ** Sample instances of the library classes, for the examples *)
Module samples.
Import leveldb payments db.

(** A JSON codec for examples: a task is encoded by its ID.  The body
    ["retried"] decodes to a task of queue ["q"] whose retry time 5 was
    set by an earlier [RetryTask], ["locked"] to one locked till 1000,
    ["expired"] to one that expired at 4; any other body decodes to the
    task of that ID in queue ["q"], scheduled at 5, with no lock, retry
    time, completion or expiry. *)
Definition sample_decode (b : bytes) : Task :=
  if String.eqb b "retried" then
    mkTask b "" "q" "" 5 None None (Some 5) None "timeout" 0
  else if String.eqb b "locked" then
    mkTask b "" "q" "" 1 None (Some 1000) None None "" 0
  else if String.eqb b "expired" then
    mkTask b "" "q" "" 2 (Some 4) None None None "" 0
  else mkTask b "" "q" "" 5 None None None None "" 0.

#[export] Instance sample_json : Json := {|
  json_Marshal t := Success (ID t);
  json_Unmarshal b := Success (sample_decode b)
|}.

(** A cell library for examples.  Integers are written bit by bit
    and end with a dot, so that a value can be read back from the front
    of a string; a condition is its four numbers followed by its key,
    a state its amount followed by its signature.  The hash of a cell
    is its bytes, a signature by a key is the key followed by the signed
    bytes, and a state verifies against a key when its signature is
    that key. *)
Fixpoint encode_pos (p : positive) : string :=
  match p with
  | xH => "."
  | xO p' => String "0"%char (encode_pos p')
  | xI p' => String "1"%char (encode_pos p')
  end.

Definition encode_Z (z : Z) : string :=
  match z with
  | Z0 => "z"
  | Zpos p => String "p"%char (encode_pos p)
  | Zneg p => String "n"%char (encode_pos p)
  end.

Fixpoint decode_pos (s : string) : option (positive * string) :=
  match s with
  | EmptyString => None
  | String c r =>
      if Ascii.eqb c "."%char then Some (xH, r)
      else if Ascii.eqb c "0"%char then
        match decode_pos r with
        | Some (p, r') => Some (xO p, r')
        | None => None
        end
      else if Ascii.eqb c "1"%char then
        match decode_pos r with
        | Some (p, r') => Some (xI p, r')
        | None => None
        end
      else None
  end.

Definition decode_Z (s : string) : option (Z * string) :=
  match s with
  | EmptyString => None
  | String c r =>
      if Ascii.eqb c "z"%char then Some (0, r)
      else if Ascii.eqb c "p"%char then
        match decode_pos r with
        | Some (p, r') => Some (Zpos p, r')
        | None => None
        end
      else if Ascii.eqb c "n"%char then
        match decode_pos r with
        | Some (p, r') => Some (Zneg p, r')
        | None => None
        end
      else None
  end.

Definition encode_cond (v : VirtualChannel) : string :=
  encode_Z (Capacity v) +:+ encode_Z (Fee v) +:+ encode_Z (Prepay v)
  +:+ encode_Z (Deadline v) +:+ payments.Key v.

Definition decode_cond (s : string) : result VirtualChannel :=
  match decode_Z s with
  | Some (capacity, s1) =>
      match decode_Z s1 with
      | Some (fee, s2) =>
          match decode_Z s2 with
          | Some (prepay, s3) =>
              match decode_Z s3 with
              | Some (deadline, k) =>
                  Success (mkVirtualChannel k capacity fee prepay deadline)
              | None => Failure (ErrExternal "not a condition")
              end
          | None => Failure (ErrExternal "not a condition")
          end
      | None => Failure (ErrExternal "not a condition")
      end
  | None => Failure (ErrExternal "not a condition")
  end.

Definition decode_state (s : string) : result VirtualChannelState :=
  match decode_Z s with
  | Some (amount, sig) => Success (mkVirtualChannelState amount sig)
  | None => Failure (ErrExternal "not a state")
  end.

Definition encode_body (b : SemiChannelBody) : string :=
  encode_Z (Seqno b) +:+ encode_Z (Sent b) +:+ ConditionalsHash b.

#[export] Instance sample_lib : TonLib := {|
  cell_Hash c := cell_repr c;
  cell_Sign c k := k +:+ cell_repr c;
  cell_ToBOC c := cell_repr c;
  cell_FromBOC b := Success (mkCell b);
  dict_AsCell d :=
    mkCell (foldr (λ kv acc, encode_Z kv.1 +:+ cell_repr kv.2 +:+ acc) ""
              (map_to_list d));
  cell_CreateProof c root := c;
  VirtualChannel_Serialize v := mkCell (encode_cond v);
  ParseVirtualChannelCond c := decode_cond (cell_repr c);
  VirtualChannelState_ToCell st :=
    mkCell (encode_Z (Amount st) +:+ StateSignature st);
  VirtualChannelState_Load c := decode_state (cell_repr c);
  VirtualChannelState_Verify st k := String.eqb (StateSignature st) k;
  SemiChannel_ToCell sc := mkCell (ChannelID sc +:+ encode_body (payments.Data sc));
  SignedSemiChannel_ToCell sg :=
    mkCell (Signature sg +:+ ChannelID (State sg)
            +:+ encode_body (payments.Data (State sg)))
|}.

(** A store with the one task ["a"] of pool ["p"], ready at 5. *)
Definition sample_store : LevelDB :=
  mkLevelDB (<["tv:a" := "a"]>
              (<[getTaskIndexKey (sample_decode "a") "p" := "tv:a"]> ∅)).



End samples.


(** * Properties *)

(** ** The store transaction *)
Section transaction.
Import leveldb.

Lemma apply_batch_app b1 b2 m :
  apply_batch (b1 ++ b2) m = apply_batch b2 (apply_batch b1 m).
Proof. unfold apply_batch. apply fold_left_app. Qed.

Lemma Get_in_tx d snap b k :
  Get k (mkWorld d (Some (mkTx snap b))) =
  (match snap !! k with
   | Some v => Ok v
   | None => Err ErrNotFound
   end, mkWorld d (Some (mkTx snap b))).
Proof. unfold Get, view; simpl. destruct (snap !! k); reflexivity. Qed.

Lemma Has_in_tx d snap b k :
  Has k (mkWorld d (Some (mkTx snap b))) =
  (Ok (bool_decide (is_Some (snap !! k))), mkWorld d (Some (mkTx snap b))).
Proof. reflexivity. Qed.

Lemma Put_in_tx d snap b k v :
  Put k v (mkWorld d (Some (mkTx snap b))) =
  (Ok tt, mkWorld d (Some (mkTx snap (b ++ [BatchPut k v])))).
Proof. reflexivity. Qed.

Lemma Delete_in_tx d snap b k :
  Delete k (mkWorld d (Some (mkTx snap b))) =
  (Ok tt, mkWorld d (Some (mkTx snap (b ++ [BatchDelete k])))).
Proof. reflexivity. Qed.

(** The key an operation of a batch writes to. *)
Definition op_key (o : Op) : bytes :=
  match o with
  | BatchPut k _ => k
  | BatchDelete k => k
  end.

(** A batch leaves alone the keys it has no operation on. *)
Lemma apply_batch_other b (m : gmap string string) k :
  (∀ o, o ∈ b → op_key o ≠ k) → apply_batch b m !! k = m !! k.
Proof.
  revert m. induction b as [|o b IH]; intros m Hb; [reflexivity|].
  change (apply_batch (o :: b) m) with (apply_batch b (apply_op m o)).
  rewrite IH by (intros o' Ho'; apply Hb; right; exact Ho').
  assert (Ho : op_key o ≠ k) by (apply Hb; left).
  destruct o as [k0 v0|k0]; simpl in *.
  - apply lookup_insert_ne, Ho.
  - apply lookup_delete_ne, Ho.
Qed.

(** The last operation of a batch on a key decides what the key holds. *)
Lemma apply_batch_last_put b1 b2 (m : gmap string string) k v :
  (∀ o, o ∈ b2 → op_key o ≠ k) →
  apply_batch (b1 ++ BatchPut k v :: b2) m !! k = Some v.
Proof.
  intros Hb2. rewrite apply_batch_app.
  change (apply_batch (BatchPut k v :: b2) ?x)
    with (apply_batch b2 (<[k := v]> x)).
  rewrite apply_batch_other by exact Hb2. apply lookup_insert_eq.
Qed.

Lemma apply_batch_last_delete b1 b2 (m : gmap string string) k :
  (∀ o, o ∈ b2 → op_key o ≠ k) →
  apply_batch (b1 ++ BatchDelete k :: b2) m !! k = None.
Proof.
  intros Hb2. rewrite apply_batch_app.
  change (apply_batch (BatchDelete k :: b2) ?x)
    with (apply_batch b2 (delete k x)).
  rewrite apply_batch_other by exact Hb2. apply lookup_delete_eq.
Qed.

(** C8.  [Transaction f], called outside a transaction with a body [f]
    that works through the transaction of its context (it leaves the
    store itself alone: from the fresh transaction, whose snapshot is
    the store at the start and whose batch is empty, it ends in
    transaction state [tx1] with outcome [r]).  Afterwards no
    transaction is open, and:
    - when [f] returns nil, [Transaction] returns nil and the store
      holds the writes of [f]: a key that [f] wrote no operation for
      holds what it held at the start, a key whose last operation is a
      put of [v] holds [v], and a key whose last operation is a delete
      is absent;
    - when [f] returns an error (or panics), that same error is returned
      and the store is the store of the start: no write reached it;
    - called with a context that already carries a transaction, it is
      [f] itself on that transaction (no nesting);
    - inside a transaction a [Put] and a [Delete] leave the store alone
      and are recorded at the end of the batch, and [Get] and [Has]
      answer from the snapshot, whatever the batch and the store hold;
    - so a transaction that puts [v] under [k] leaves [v] under [k] and
      every other key as it was; one that deletes [k] leaves [k] absent
      and every other key as it was; one that puts and then fails with
      [e] returns [e] and leaves the store as it was; and a [Get] of
      [k] that follows a [Put] to [k] in the same transaction still
      answers what the store held at the start. *)
Theorem Transaction_atomic (f : M unit) (d : LevelDB) (r : outcome unit)
    (tx1 : Tx) :
  f (mkWorld d (Some (mkTx (_db d) []))) = (r, mkWorld d (Some tx1)) →
  let res := Transaction f (mkWorld d None) in
  let store' := _db (storage res.2) in
  ctxTx res.2 = None
  ∧ (r = Ok tt →
       res.1 = Ok tt
       ∧ (∀ k, (∀ o, o ∈ batch tx1 → op_key o ≠ k) →
               store' !! k = _db d !! k)
       ∧ (∀ k v b1 b2,
            batch tx1 = b1 ++ BatchPut k v :: b2 →
            (∀ o, o ∈ b2 → op_key o ≠ k) →
            store' !! k = Some v)
       ∧ (∀ k b1 b2,
            batch tx1 = b1 ++ BatchDelete k :: b2 →
            (∀ o, o ∈ b2 → op_key o ≠ k) →
            store' !! k = None))
  ∧ (∀ e, r = Err e → res = (Err e, mkWorld d None))
  ∧ (∀ msg, r = Panic msg → res = (Panic msg, mkWorld d None))
  ∧ (∀ w tx, ctxTx w = Some tx → Transaction f w = f w)
  ∧ (∀ d' snap b k v,
       Put k v (mkWorld d' (Some (mkTx snap b)))
       = (Ok tt, mkWorld d' (Some (mkTx snap (b ++ [BatchPut k v]))))
       ∧ Delete k (mkWorld d' (Some (mkTx snap b)))
         = (Ok tt, mkWorld d' (Some (mkTx snap (b ++ [BatchDelete k]))))
       ∧ Get k (mkWorld d' (Some (mkTx snap b)))
         = (match snap !! k with
            | Some v0 => Ok v0
            | None => Err ErrNotFound
            end, mkWorld d' (Some (mkTx snap b)))
       ∧ Has k (mkWorld d' (Some (mkTx snap b)))
         = (Ok (bool_decide (is_Some (snap !! k))),
            mkWorld d' (Some (mkTx snap b))))
  ∧ (∀ k v,
       let w := (Transaction (Put k v) (mkWorld d None)).2 in
       _db (storage w) !! k = Some v
       ∧ ∀ k', k' ≠ k → _db (storage w) !! k' = _db d !! k')
  ∧ (∀ k,
       let w := (Transaction (Delete k) (mkWorld d None)).2 in
       _db (storage w) !! k = None
       ∧ ∀ k', k' ≠ k → _db (storage w) !! k' = _db d !! k')
  ∧ (∀ k v e,
       Transaction (bind (Put k v) (λ _, fail e)) (mkWorld d None)
       = (Err e, mkWorld d None))
  ∧ (∀ k v,
       (Transaction (bind (Put k v) (λ _, bind (Get k) (λ _, ret tt)))
          (mkWorld d None)).1
       = match _db d !! k with
         | Some _ => Ok tt
         | None => Err ErrNotFound
         end).
Proof.
  intros Hf res store'.
  assert (Hres : res =
    match r with
    | Ok _ => (Ok tt, mkWorld (mkLevelDB (apply_batch (batch tx1) (_db d))) None)
    | Err e => (Err e, mkWorld d None)
    | Panic msg => (Panic msg, mkWorld d None)
    end).
  { unfold res, Transaction; simpl. rewrite Hf.
    destruct r as [[]| |]; reflexivity. }
  split; [rewrite Hres; destruct r; reflexivity|].
  split.
  { intros ->. unfold store'. rewrite Hres. simpl.
    split; [reflexivity|]. split; [|split].
    - intros k Hk. apply apply_batch_other, Hk.
    - intros k v b1 b2 -> Hb2. apply apply_batch_last_put, Hb2.
    - intros k b1 b2 -> Hb2. apply apply_batch_last_delete, Hb2. }
  split; [intros e ->; exact Hres|].
  split; [intros msg ->; exact Hres|].
  split.
  { intros w tx Hw. unfold Transaction. rewrite Hw. reflexivity. }
  split.
  { intros d' snap b k v. split; [reflexivity|]. split; [reflexivity|].
    split; [apply Get_in_tx | reflexivity]. }
  split.
  { intros k v. simpl. split; [apply lookup_insert_eq|].
    intros k' Hk'. apply lookup_insert_ne. congruence. }
  split.
  { intros k. simpl. split; [apply lookup_delete_eq|].
    intros k' Hk'. apply lookup_delete_ne. congruence. }
  split; [reflexivity|].
  intros k v. unfold Transaction, bind. simpl.
  rewrite Get_in_tx. destruct (_db d !! k); reflexivity.
Qed.

Lemma Transaction_atomic_witness :
  let d := mkLevelDB (<["old" := "x"]> (<["kept" := "y"]> ∅)) in
  let f := bind (Put "k" "v") (λ _, Delete "old") in
  let w := (Transaction f (mkWorld d None)).2 in
  (Transaction f (mkWorld d None)).1 = Ok tt
  ∧ _db (storage w) !! "k" = Some "v"
  ∧ _db (storage w) !! "old" = None
  ∧ _db (storage w) !! "kept" = Some "y".
Proof.
  intros d f w.
  destruct (Transaction_atomic f d (Ok tt)
              (mkTx (_db d) [BatchPut "k" "v"; BatchDelete "old"]) eq_refl)
    as (_ & Hok & _).
  destruct (Hok eq_refl) as (Hr & Hother & Hput & Hdel).
  split; [exact Hr|]. split; [|split].
  - apply (Hput "k" "v" [] [BatchDelete "old"] eq_refl).
    intros o Ho. apply list_elem_of_singleton in Ho as ->. discriminate.
  - apply (Hdel "old" [BatchPut "k" "v"] [] eq_refl).
    intros o Ho. inversion Ho.
  - etrans; [apply (Hother "kept")|vm_compute; reflexivity].
    intros o Ho. apply elem_of_cons in Ho as [->|Ho]; [discriminate|].
    apply list_elem_of_singleton in Ho as ->. discriminate.
Defined.

End transaction.

(** ** The task queue: creation and retry *)
Section tasks.
Import leveldb db.
Context `{!Json}.

Lemma db_Transaction_top {A} (f : M A) (d : LevelDB) r tx1 :
  f (mkWorld d (Some (mkTx (_db d) []))) = (r, mkWorld d (Some tx1)) →
  db.Transaction f (mkWorld d None) =
    match r with
    | Ok a => (Ok a, mkWorld (mkLevelDB (apply_batch (batch tx1) (_db d))) None)
    | Err e => (Err e, mkWorld d None)
    | Panic msg => (Panic msg, mkWorld d None)
    end.
Proof.
  intros Hf. unfold db.Transaction; simpl. rewrite Hf.
  destruct r; reflexivity.
Qed.

Lemma db_Transaction_nested {A} (f : M A) d tx :
  db.Transaction f (mkWorld d (Some tx)) = f (mkWorld d (Some tx)).
Proof. reflexivity. Qed.

(** Inside a transaction whose snapshot holds a body under the task's
    [tv:] key, [createTask] reports [ErrAlreadyExists] and adds nothing
    to the batch. *)
Lemma createTask_exists task poolName d snap b v :
  snap !! ("tv:" +:+ ID task) = Some v →
  createTask task poolName (mkWorld d (Some (mkTx snap b))) =
  (Err ErrAlreadyExists, mkWorld d (Some (mkTx snap b))).
Proof.
  intros Hv. unfold createTask. rewrite db_Transaction_nested.
  unfold bind, wrap. rewrite Has_in_tx, Hv.
  rewrite bool_decide_eq_true_2 by eauto. reflexivity.
Qed.

(** The store written by an empty batch is the store. *)
Lemma LevelDB_eta d : mkLevelDB (_db d) = d.
Proof. destruct d; reflexivity. Qed.

(** C9 (as amended).  When a task body is stored under [tv:<id>] and
    the payload of the call has a JSON encoding, [CreateTask] returns
    nil and leaves the whole store (so the stored body and every [ti:]
    index entry) as it was, whatever the pool, type, queue, payload and
    schedule of the call. *)
Theorem CreateTask_existing_id (poolName typ queue id : string)
    (data : GoValue) (executeAfter executeTill : option Time)
    (now now2 : Time) (d : LevelDB) (v bts : bytes) :
  _db d !! ("tv:" +:+ id) = Some v →
  json_Marshal_any data = Success bts →
  CreateTask poolName typ queue id data executeAfter executeTill now now2
    (mkWorld d None) = (Ok tt, mkWorld d None).
Proof.
  intros Hv Hm. unfold CreateTask. rewrite Hm.
  erewrite db_Transaction_top.
  2:{ rewrite createTask_exists with (v := v) by exact Hv.
      simpl. reflexivity. }
  simpl. rewrite LevelDB_eta. reflexivity.
Qed.

(** A payload that [json.Marshal] refuses makes [CreateTask] return the
    marshalling error before the store is looked at. *)
Lemma CreateTask_unsupported poolName typ queue id ty ea et now now2 w :
  CreateTask poolName typ queue id (Unsupported ty) ea et now now2 w =
  (Err (ErrExternal ("json: unsupported type: " +:+ ty)), w).
Proof. reflexivity. Qed.

(** The task that [RetryTask] leaves to its caller and writes. *)
Definition retried (task : Task) (reason : string) (retryAt : Time) : Task :=
  mkTask (ID task) (Type_ task) (Queue task) (Data task) (ExecuteAfter task)
         (ExecuteTill task) None (Some retryAt) (CompletedAt task) reason
         (CreatedAt task).

(** C10.  [RetryTask] on a task that is completed or not locked returns
    nil, leaves the caller's task and the store as they are.
    Otherwise the caller's task has its [LockedTill] cleared and its
    [LastError] and [ReExecuteAfter] set, and in the store
    - every key other than [tv:<id>] keeps its value, in particular
      every [ti:] index entry, so the place in the queue is unchanged;
    - when the body is stored and the task encodes, the body is
      replaced by the encoding of that task and nil is returned;
    - when no body is stored, [ErrNotFound] is returned and the store
      is unchanged. *)
Theorem RetryTask_frame (task : Task) (reason : string) (retryAt : Time)
    (d : LevelDB) :
  let key := "tv:" +:+ ID task in
  let r := (RetryTask task reason retryAt).2 (mkWorld d None) in
  ((is_Some (CompletedAt task) ∨ LockedTill task = None) →
     (RetryTask task reason retryAt).1 = task ∧ r = (Ok tt, mkWorld d None))
  ∧ (CompletedAt task = None → is_Some (LockedTill task) →
     (RetryTask task reason retryAt).1 = retried task reason retryAt
     ∧ ctxTx r.2 = None
     ∧ (∀ k, k ≠ key → _db (storage r.2) !! k = _db d !! k)
     ∧ (∀ k, String.prefix "ti:" k = true →
             _db (storage r.2) !! k = _db d !! k)
     ∧ (∀ data, is_Some (_db d !! key) →
          json_Marshal (retried task reason retryAt) = Success data →
          r = (Ok tt, mkWorld (mkLevelDB (<[key := data]> (_db d))) None))
     ∧ (_db d !! key = None → r = (Err ErrNotFound, mkWorld d None))).
Proof.
  intros key r. split.
  - intros Hskip. subst r. unfold RetryTask.
    assert (bool_decide (is_Some (CompletedAt task))
            || bool_decide (LockedTill task = None) = true) as ->.
    { destruct Hskip as [Hc | Hl].
      - rewrite (bool_decide_eq_true_2 _ Hc). reflexivity.
      - rewrite (bool_decide_eq_true_2 _ Hl). apply orb_true_r. }
    split; reflexivity.
  - intros Hc [l Hl]. subst r. unfold RetryTask.
    assert (bool_decide (is_Some (CompletedAt task))
            || bool_decide (LockedTill task = None) = false) as ->.
    { rewrite bool_decide_eq_false_2.
      - rewrite bool_decide_eq_false_2; [reflexivity | congruence].
      - rewrite Hc. intros [? ?]; discriminate. }
    cbn [fst snd]. fold (retried task reason retryAt).
    change (ID (retried task reason retryAt)) with (ID task). fold key.
    set (body := bind _ _).
    assert (Hbody :
      body (mkWorld d (Some (mkTx (_db d) []))) =
      match _db d !! key with
      | None => (Err ErrNotFound, mkWorld d (Some (mkTx (_db d) [])))
      | Some _ =>
          match json_Marshal (retried task reason retryAt) with
          | Success data =>
              (Ok tt, mkWorld d (Some (mkTx (_db d) [BatchPut key data])))
          | Failure e =>
              (Err (Wrapf "failed to encode json" e),
               mkWorld d (Some (mkTx (_db d) [])))
          end
      end).
    { subst body. unfold bind, wrap. rewrite Has_in_tx.
      destruct (_db d !! key) as [v|] eqn:Hk.
      - rewrite bool_decide_eq_true_2 by eauto.
        unfold lift. destruct (json_Marshal _); reflexivity.
      - rewrite bool_decide_eq_false_2; [reflexivity|].
        intros [? ?]; discriminate. }
    destruct (_db d !! key) as [v|] eqn:Hk.
    + destruct (json_Marshal (retried task reason retryAt)) as [data|e] eqn:Hm.
      * rewrite (db_Transaction_top body d (Ok tt) _ Hbody). simpl.
        repeat split; try reflexivity.
        -- intros k Hne. apply lookup_insert_ne. congruence.
        -- intros k Hp. apply lookup_insert_ne. intros <-.
           subst key. simpl in Hp. discriminate.
        -- intros data' _ [= <-]. reflexivity.
        -- intros; discriminate.
      * rewrite (db_Transaction_top body d (Err _) _ Hbody). simpl.
        repeat split; try reflexivity.
        -- intros data' _ ?; discriminate.
        -- intros; discriminate.
    + rewrite (db_Transaction_top body d (Err ErrNotFound) _ Hbody). simpl.
      repeat split; try reflexivity.
      intros data' [? ?]; discriminate.
Qed.

End tasks.

Section tasks_examples.
Import leveldb db samples.

Lemma CreateTask_existing_id_witness :
  CreateTask "p" "webhook" "other-queue" "a" (Encodable "{}") (Some 77) None
    1 2 (mkWorld sample_store None) = (Ok tt, mkWorld sample_store None).
Proof.
  apply (CreateTask_existing_id "p" "webhook" "other-queue" "a"
           (Encodable "{}") (Some 77) None 1 2 sample_store "a" "{}").
  - vm_compute. reflexivity.
  - reflexivity.
Defined.

(** C9, the claim as stated fails: with the body of task ["a"] stored,
    a call for the same id whose payload is a channel value returns the
    marshalling error, not nil. *)
Lemma CreateTask_existing_id_counterexample :
  _db sample_store !! ("tv:" +:+ "a") = Some "a"
  ∧ (CreateTask "p" "webhook" "q" "a" (Unsupported "chan int") None None
       1 2 (mkWorld sample_store None)).1
    = Err (ErrExternal "json: unsupported type: chan int")
  ∧ (CreateTask "p" "webhook" "q" "a" (Unsupported "chan int") None None
       1 2 (mkWorld sample_store None)).1 ≠ Ok tt.
Proof.
  split; [vm_compute; reflexivity|]. split; [reflexivity|].
  intros H. discriminate H.
Qed.

Definition locked_task : Task :=
  mkTask "a" "" "q" "" 5 None (Some 400) None None "" 0.

Lemma RetryTask_frame_witness :
  (RetryTask locked_task "timeout" 900).1 = retried locked_task "timeout" 900
  ∧ (RetryTask locked_task "timeout" 900).2 (mkWorld sample_store None)
    = (Ok tt, mkWorld (mkLevelDB (<["tv:a" := "a"]> (_db sample_store))) None).
Proof.
  pose proof (RetryTask_frame locked_task "timeout" 900 sample_store) as H.
  cbv zeta in H. destruct H as [_ H].
  destruct (H eq_refl (ex_intro _ 400 eq_refl)) as (H1 & _ & _ & _ & H5 & _).
  split; [exact H1|].
  apply (H5 "a").
  - vm_compute. eauto.
  - reflexivity.
Defined.

End tasks_examples.

(** ** Balances *)
Section balance.
Import payments db.
Context `{!TonLib}.

(** The amount one condition takes from the balance and locks. *)
Definition cond_amount (vch : VirtualChannel) : Z :=
  Capacity vch + Fee vch - Prepay vch.

Fixpoint parse_all (all : list (Z * Cell)) : option (list VirtualChannel) :=
  match all with
  | [] => Some []
  | (_, value) :: rest =>
      match ParseVirtualChannelCond value, parse_all rest with
      | Success vch, Some vs => Some (vch :: vs)
      | _, _ => None
      end
  end.

Definition conds_total (vs : list VirtualChannel) : Z :=
  foldr (λ vch acc, cond_amount vch + acc) 0 vs.

Lemma calc_loop_total all vs balance locked :
  parse_all all = Some vs →
  calc_loop all balance locked =
  Success (balance - conds_total vs, locked + conds_total vs).
Proof.
  revert vs balance locked.
  induction all as [|[k value] rest IH]; intros vs balance locked Hp.
  - injection Hp as <-. simpl. f_equal. f_equal; lia.
  - simpl in Hp. simpl.
    destruct (ParseVirtualChannelCond value) as [vch|e]; [|discriminate].
    destruct (parse_all rest) as [vs'|] eqn:Hrest; [|discriminate].
    injection Hp as <-. rewrite (IH vs') by reflexivity.
    simpl. unfold cond_amount. f_equal. f_equal; lia.
Qed.

(** The pair of the specification for side [s1] with on-chain state
    [s1chain] against the counterparty [s2], over the parsed
    conditions [vs] of [s1]. *)
Definition spec_balance (s1 : Side) (s1chain : OnchainState) (s2 : Side)
    (vs : list VirtualChannel) : Z :=
  SentNano s2 + Deposited s1chain
  - Z.max (Withdrawn s1chain) (PendingWithdraw s1) - SentNano s1 - conds_total vs.

Definition spec_locked (s1 : Side) (s1chain : OnchainState)
    (vs : list VirtualChannel) : Z :=
  Z.max 0 (PendingWithdraw s1 - Withdrawn s1chain) + conds_total vs.

(** What the code computes as locked before the conditions. *)
Definition code_locked (s1 : Side) (s1chain : OnchainState)
    (vs : list VirtualChannel) : Z :=
  (if 0 <? PendingWithdraw s1
   then PendingWithdraw s1 - Withdrawn s1chain else 0) + conds_total vs.

Definition sides (ch : Channel) (isTheir : bool)
  : Side * OnchainState * Side :=
  if isTheir then (Their ch, TheirOnchain ch, Our ch)
  else (Our ch, OurOnchain ch, Their ch).

(** [CalcBalance] on a channel whose conditions parse: the balance is
    the one of the specification; the locked amount is the pending
    withdraw minus the withdrawn amount whenever the pending withdraw
    is positive, plus the conditions. *)
Lemma CalcBalance_value ch isTheir vs :
  let '(s1, s1chain, s2) := sides ch isTheir in
  parse_all (map_to_list (Conditionals s1)) = Some vs →
  CalcBalance ch isTheir =
  Success (spec_balance s1 s1chain s2 vs, code_locked s1 s1chain vs).
Proof.
  unfold sides, CalcBalance, spec_balance, code_locked.
  destruct isTheir; intros Hp.
  all: case_bool_decide as Hempty.
  all: try (rewrite Hempty, map_to_list_empty in Hp; injection Hp as <-; simpl).
  all: try (rewrite (calc_loop_total _ vs) by exact Hp).
  all: f_equal; f_equal.
  all: repeat match goal with
       | |- context [?a <? ?b] => destruct (Z.ltb_spec a b)
       end; lia.
Qed.

(** Where the locked amount of the code is the one of the
    specification: with a non-negative withdrawn amount, no pending
    withdraw, or one that is not below the withdrawn amount. *)
Lemma code_locked_spec s1 s1chain vs :
  0 <= Withdrawn s1chain →
  PendingWithdraw s1 <= 0 ∨ Withdrawn s1chain <= PendingWithdraw s1 →
  code_locked s1 s1chain vs = spec_locked s1 s1chain vs.
Proof.
  unfold code_locked, spec_locked. intros Hw Hc.
  destruct (Z.ltb_spec 0 (PendingWithdraw s1)); lia.
Qed.

End balance.

Section balance_examples.
Import payments db samples.

(** A channel with nothing sent and no conditions, where our side has
    a pending withdraw of 5 and 10 already withdrawn on chain. *)
Definition stale_withdraw_channel : Channel :=
  mkChannel "" "addr" 0 "" ChannelStateActive true
    (mkOnchainState "" 0 "" 100 10 0) (mkOnchainState "" 0 "" 100 0 0)
    0 true false
    (mkSide (Signed (NewSide "" 0 0)) ∅ 5) (NewSide "" 0 0)
    0 0 0 0.

(** C2, on the code: for that channel [CalcBalance] returns the balance
    of the specification, 90, and the locked amount -5, where the
    specification gives [max(0, 5 - 10) = 0]. *)
Theorem CalcBalance_locked_negative :
  CalcBalance stale_withdraw_channel false = Success (90, -5)
  ∧ spec_balance (Our stale_withdraw_channel)
      (OurOnchain stale_withdraw_channel) (Their stale_withdraw_channel) [] = 90
  ∧ spec_locked (Our stale_withdraw_channel)
      (OurOnchain stale_withdraw_channel) [] = 0.
Proof. repeat split. Qed.

End balance_examples.

(** ** Known resolves *)
Section resolves.
Import payments db.
Context `{!TonLib}.

(** Reading back a stored state gives the state. *)
Definition state_roundtrip : Prop :=
  ∀ st, ∃ cl,
    cell_FromBOC (cell_ToBOC (VirtualChannelState_ToCell st)) = Success cl
    ∧ VirtualChannelState_Load cl = Success st.

(** The stored bytes, parsed as [AddKnownResolve] parses them. *)
Definition stored_resolve (ch : VirtualChannelMeta)
  : option VirtualChannelState :=
  match LastKnownResolve ch with
  | None => None
  | Some boc =>
      match cell_FromBOC boc with
      | Success cl =>
          match VirtualChannelState_Load cl with
          | Success st => Some st
          | Failure _ => None
          end
      | Failure _ => None
      end
  end.

Definition stores (ch : VirtualChannelMeta) (state : VirtualChannelState)
  : VirtualChannelMeta :=
  setLastKnownResolve ch
    (Some (cell_ToBOC (VirtualChannelState_ToCell state))).

Lemma stored_resolve_stores ch state :
  state_roundtrip → stored_resolve (stores ch state) = Some state.
Proof.
  intros Hrt. destruct (Hrt state) as (cl & Hboc & Hload).
  unfold stored_resolve, stores; simpl. rewrite Hboc, Hload. reflexivity.
Qed.

(** C5 (as amended).  [AddKnownResolve]
    - returns an error and keeps the meta when the signature of the new
      state does not verify against the key of the meta;
    - returns [ErrNewerStateIsKnown] and keeps the meta when the stored
      state has a greater amount than the new one;
    - stores the new state and returns nil when the signature verifies
      and nothing is stored, or the stored state has an amount that is
      not greater;
    - whatever it returns, the amount of the stored state never
      decreases (given that a stored state reads back).
    The capacity of the condition plays no part. *)
Theorem AddKnownResolve_monotone (ch : VirtualChannelMeta)
    (state : VirtualChannelState) :
  (VirtualChannelState_Verify state (MetaKey ch) = false →
     ∃ err, AddKnownResolve ch state = (ch, Some err))
  ∧ (∀ old, VirtualChannelState_Verify state (MetaKey ch) = true →
       stored_resolve ch = Some old → Amount state < Amount old →
       AddKnownResolve ch state = (ch, Some ErrNewerStateIsKnown))
  ∧ (VirtualChannelState_Verify state (MetaKey ch) = true →
       (LastKnownResolve ch = None
        ∨ ∃ old, stored_resolve ch = Some old ∧ Amount old <= Amount state) →
       AddKnownResolve ch state = (stores ch state, None))
  ∧ (state_roundtrip →
       ∀ old, stored_resolve ch = Some old →
       ∃ new, stored_resolve (AddKnownResolve ch state).1 = Some new
              ∧ Amount old <= Amount new).
Proof.
  unfold AddKnownResolve, stored_resolve. fold (stores ch state).
  repeat split.
  - intros ->. simpl. eauto.
  - intros old -> Hold Hlt. simpl.
    destruct (LastKnownResolve ch) as [boc|]; [|discriminate].
    destruct (cell_FromBOC boc) as [cl|]; [|discriminate].
    destruct (VirtualChannelState_Load cl) as [st|]; [|discriminate].
    injection Hold as ->.
    destruct (Z.ltb_spec (Amount state) (Amount old)); [reflexivity|lia].
  - intros -> Hcase. simpl.
    destruct Hcase as [-> | (old & Hold & Hle)]; [reflexivity|].
    destruct (LastKnownResolve ch) as [boc|]; [|discriminate].
    destruct (cell_FromBOC boc) as [cl|]; [|discriminate].
    destruct (VirtualChannelState_Load cl) as [st|]; [|discriminate].
    injection Hold as ->.
    destruct (Z.ltb_spec (Amount state) (Amount old)); [lia|reflexivity].
  - intros Hrt old Hold.
    destruct (VirtualChannelState_Verify state (MetaKey ch)); simpl.
    2:{ exists old. split; [exact Hold | lia]. }
    destruct (LastKnownResolve ch) as [boc|] eqn:Hboc; [|discriminate].
    destruct (cell_FromBOC boc) as [cl|] eqn:Hcl; [|discriminate].
    destruct (VirtualChannelState_Load cl) as [st|] eqn:Hst; [|discriminate].
    injection Hold as ->.
    destruct (Z.ltb_spec (Amount state) (Amount old)); simpl.
    + exists old. rewrite Hboc, Hcl, Hst. split; [reflexivity | lia].
    + exists state. split; [|lia].
      apply (stored_resolve_stores ch state Hrt).
Qed.

End resolves.

Section resolves_examples.
Import payments db samples.

Lemma decode_pos_encode p r :
  decode_pos (encode_pos p +:+ r) = Some (p, r).
Proof.
  induction p as [p IH|p IH|]; simpl; [rewrite IH..|]; reflexivity.
Qed.

Lemma decode_Z_encode z r : decode_Z (encode_Z z +:+ r) = Some (z, r).
Proof.
  destruct z as [|p|p]; simpl; [|rewrite decode_pos_encode..]; reflexivity.
Qed.

Lemma sample_state_roundtrip : state_roundtrip.
Proof.
  intros [amount sig]. eexists. split; [reflexivity|].
  simpl. unfold decode_state. rewrite decode_Z_encode. reflexivity.
Qed.

(** A meta of the virtual channel with key ["K"], capacity 50 on both
    sides, holding the resolve of amount 10. *)
Definition meta_side : VirtualChannelMetaSide :=
  mkVirtualChannelMetaSide "addr" "50" "0" 0 0 "".

Definition meta10 : VirtualChannelMeta :=
  mkVirtualChannelMeta "K" VirtualChannelStateActive (Some meta_side)
    (Some meta_side)
    (Some (cell_ToBOC
             (VirtualChannelState_ToCell (mkVirtualChannelState 10 "K"))))
    "" 0 0.

Lemma AddKnownResolve_monotone_witness :
  AddKnownResolve meta10 (mkVirtualChannelState 8 "K")
  = (meta10, Some ErrNewerStateIsKnown)
  ∧ AddKnownResolve meta10 (mkVirtualChannelState 15 "K")
    = (stores meta10 (mkVirtualChannelState 15 "K"), None)
  ∧ ∃ new, stored_resolve
             (AddKnownResolve meta10 (mkVirtualChannelState 15 "K")).1
           = Some new ∧ 10 <= Amount new.
Proof.
  split; [|split].
  - apply (AddKnownResolve_monotone meta10 (mkVirtualChannelState 8 "K"))
      with (old := mkVirtualChannelState 10 "K").
    + reflexivity.
    + reflexivity.
    + simpl. lia.
  - apply (AddKnownResolve_monotone meta10 (mkVirtualChannelState 15 "K")).
    + reflexivity.
    + right. exists (mkVirtualChannelState 10 "K").
      split; [reflexivity | simpl; lia].
  - apply (AddKnownResolve_monotone meta10 (mkVirtualChannelState 15 "K")
             ) with (old := mkVirtualChannelState 10 "K").
    + exact sample_state_roundtrip.
    + reflexivity.
Defined.

(** C5, the claim as stated fails: the condition of key ["K"] has
    capacity 50 (and so have both sides of the meta), yet the validly
    signed resolve of amount 100 is stored. *)
Lemma AddKnownResolve_capacity_counterexample :
  let cond := mkVirtualChannel "K" 50 0 0 1000 in
  let state := mkVirtualChannelState 100 "K" in
  payments.Key cond = MetaKey meta10
  ∧ VirtualChannelState_Verify state (MetaKey meta10) = true
  ∧ (AddKnownResolve meta10 state).2 = None
  ∧ stored_resolve (AddKnownResolve meta10 state).1 = Some state
  ∧ GetKnownResolve (AddKnownResolve meta10 state).1 = Some state
  ∧ ¬ (Amount state <= Capacity cond).
Proof.
  cbv zeta. repeat split. simpl. lia.
Qed.

End resolves_examples.

(** ** The state engine *)
Section state_engine.
Import db payments tonpayments.
Context `{!TonLib}.

Definition ourBody (ch : Channel) : SemiChannelBody :=
  payments.Data (State (Signed (Our ch))).

(** The idempotent actions in the words of the specification, by the
    content of our conditionals: an [OpenVirtual] whose content (by its
    cell hash) is already stored under its key prefix, a
    [CommitVirtual] whose prepay is the stored one, a [RemoveVirtual]
    or [ConfirmClose] of a key whose lookup reports that it is not
    found. *)
Definition spec_idempotent (ch : Channel) (action : Action)
    (details : option VirtualChannel) : Prop :=
  match action with
  | OpenVirtualAction =>
      ∃ vch idx sl,
        details = Some vch
        ∧ LittleEndian_Uint32 (payments.Key vch) = Some idx
        ∧ Conditionals (Our ch) !! idx = Some sl
        ∧ cell_Hash sl = cell_Hash (VirtualChannel_Serialize vch)
  | CommitVirtualAction chKey prepayAmount =>
      ∃ idx vch root,
        FindVirtualChannelWithProof (Conditionals (Our ch)) chKey []
          = (Ok (idx, vch), root)
        ∧ SetBytes prepayAmount = Prepay vch
  | RemoveVirtualAction chKey | ConfirmCloseAction chKey _ =>
      ∃ e root,
        FindVirtualChannelWithProof (Conditionals (Our ch)) chKey []
          = (Err e, root)
        ∧ errors_Is e ErrNotFound = true
  | IncrementStatesAction | OtherAction _ => False
  end.

(** The increase of [sent] in the words of the specification. *)
Definition delta_sent (ch : Channel) (action : Action) : Z :=
  match action with
  | ConfirmCloseAction chKey chState =>
      match VirtualChannelState_Load chState,
            FindVirtualChannelWithProof (Conditionals (Our ch)) chKey [] with
      | Success resolve, (Ok (_, vch), _) =>
          Z.max 0 (Amount resolve - Prepay vch + Fee vch)
      | _, _ => 0
      end
  | CommitVirtualAction chKey prepayAmount =>
      match FindVirtualChannelWithProof (Conditionals (Our ch)) chKey [] with
      | (Ok (_, vch), _) => SetBytes prepayAmount - Prepay vch
      | _ => 0
      end
  | _ => 0
  end.

(** The hash the function stores for a conditionals dictionary. *)
Definition dict_hash (d : gmap Z Cell) : bytes :=
  if bool_decide (d = ∅) then zero_bytes 32 else cell_Hash (dict_AsCell d).

Lemma finish_idempotent s ch dictRoot onSuccess :
  ∃ r, finish s ch true dictRoot onSuccess = (ch, Ok r).
Proof.
  unfold finish. simpl. case_bool_decide; eauto.
Qed.

Lemma finish_signed s ch dictRoot onSuccess :
  ∃ r ch',
    finish s ch false dictRoot onSuccess = (ch', Ok r)
    ∧ Conditionals (Our ch') = Conditionals (Our ch)
    ∧ Seqno (ourBody ch') = uint64 (Seqno (ourBody ch) + 1)
    ∧ Sent (ourBody ch') = Sent (ourBody ch)
    ∧ ConditionalsHash (ourBody ch') = dict_hash (Conditionals (Our ch))
    ∧ Signature (Signed (Our ch')) =
        cell_Sign (SemiChannel_ToCell (State (Signed (Our ch')))) (key s).
Proof.
  unfold finish, dict_hash, ourBody. simpl.
  case_bool_decide; eexists _, _; (split; [reflexivity|]); simpl; tauto.
Qed.

Lemma ourBody_setConditionals ch d :
  ourBody (setConditionals ch d) = ourBody ch.
Proof. reflexivity. Qed.

(** The effect of a switch that is left without the flag on [sent]. *)
Lemma applyAction_sent cc ch action details now ch1 root cb :
  applyAction cc ch action details now [] = (ch1, Break false root cb) →
  Sent (ourBody ch1) = Sent (ourBody ch) + delta_sent ch action.
Proof.
  unfold applyAction, delta_sent. intros Happ.
  destruct action as [| |chKey prepayAmount|chKey|chKey chState|ty]; simpl in *.
  - injection Happ as <- _ _. lia.
  - repeat case_match; simplify_eq/=; try lia.
    rewrite ourBody_setConditionals. lia.
  - destruct (FindVirtualChannelWithProof _ _ _) as [[[idx vch]| |] root'].
    + repeat case_match; simplify_eq/=.
      unfold SentNano, ourBody, MustFromNano. simpl. lia.
    + discriminate.
    + discriminate.
  - destruct (FindVirtualChannelWithProof _ _ _) as [[[idx vch]| |] root'].
    + repeat case_match; simplify_eq/=. rewrite ourBody_setConditionals. lia.
    + case_match; discriminate.
    + discriminate.
  - destruct (VirtualChannelState_Load chState) as [vState|]; [|discriminate].
    destruct (negb _); [discriminate|].
    destruct (FindVirtualChannelWithProof _ _ _) as [[[idx vch]| |] root'].
    + destruct (Deadline vch <? now); [discriminate|].
      destruct (LittleEndian_Uint32 _); [|discriminate].
      destruct (_ !! _); [discriminate|].
      injection Happ as <- _ _.
      destruct (Z.ltb_spec 0 (Amount vState - Prepay vch + Fee vch)).
      * unfold ourBody, SentNano, MustFromNano. simpl. lia.
      * rewrite ourBody_setConditionals. lia.
    + case_match; discriminate.
    + discriminate.
  - discriminate.
Qed.

(** A switch that is left with the [idempotency] flag set was given an
    action that is idempotent in the words of the specification. *)
Lemma applyAction_flag cc ch action details now ch1 root cb :
  applyAction cc ch action details now [] = (ch1, Break true root cb) →
  spec_idempotent ch action details.
Proof.
  unfold applyAction, spec_idempotent. intros Happ.
  destruct action as [| |chKey prepayAmount|chKey|chKey chState|ty].
  - discriminate.
  - destruct details as [vch|]; [|discriminate].
    destruct (Capacity vch <=? 0); [discriminate|].
    destruct (Fee vch <? 0); [discriminate|].
    destruct (Prepay vch <? 0); [discriminate|].
    destruct (Deadline vch <? now); [discriminate|].
    destruct (LittleEndian_Uint32 (payments.Key vch)) as [idx|] eqn:Hidx;
      [|discriminate].
    destruct (Conditionals (Our ch) !! idx) as [sl|] eqn:Hsl.
    + destruct (String.eqb (cell_Hash sl) _) eqn:Hh; [|discriminate].
      apply String.eqb_eq in Hh. exists vch, idx, sl. auto.
    + destruct (CalcBalance _ false) as [[b l]|]; [|discriminate].
      destruct (b <? 0); discriminate.
  - destruct (FindVirtualChannelWithProof _ _ _) as [[[idx vch]| |] root0]
      eqn:Hfind; [|discriminate..].
    destruct (SetBytes prepayAmount - Prepay vch <? 0); [discriminate|].
    destruct (Z.eqb_spec (SetBytes prepayAmount - Prepay vch) 0) as [Hz|Hz].
    + exists idx, vch, root0. split; [reflexivity | lia].
    + destruct (LittleEndian_Uint32 _); discriminate.
  - destruct (FindVirtualChannelWithProof _ _ _) as [[[idx vch]|e|] root0]
      eqn:Hfind; [| |discriminate].
    + destruct (LittleEndian_Uint32 _); [|discriminate].
      destruct (_ !! _); discriminate.
    + destruct (errors_Is e ErrNotFound) eqn:He; [|discriminate].
      exists e, root0. auto.
  - destruct (VirtualChannelState_Load chState) as [vState|]; [|discriminate].
    destruct (negb _); [discriminate|].
    destruct (FindVirtualChannelWithProof _ _ _) as [[[idx vch]|e|] root0]
      eqn:Hfind; [| |discriminate].
    + destruct (Deadline vch <? now); [discriminate|].
      destruct (LittleEndian_Uint32 _); [|discriminate].
      destruct (_ !! _); discriminate.
    + destruct (errors_Is e ErrNotFound) eqn:He; [|discriminate].
      exists e, root0. auto.
  - discriminate.
Qed.

(** C1.  After a successful application of an action that is not
    idempotent in the words of the specification (no [OpenVirtual] of
    content already stored, no [CommitVirtual] of the stored prepay, no
    [RemoveVirtual] or [ConfirmClose] of a key that is not found): our
    seqno is the old one plus one (in [uint64]; exactly one more below
    the last [uint64]), our conditionals hash is the hash of the cell
    of the conditionals dictionary, and the 32 bytes of value zero when
    the dictionary is empty, the signature is the node key's signature
    of the new semi-channel state, and [sent] has grown by
    [max(0, amount - prepay + fee)] for [ConfirmClose], by
    [new prepay - old prepay] for [CommitVirtual], and by 0 for every
    other action. *)
Theorem updateOurState_post_state (s : Service) (ch : Channel)
    (action : Action) (details : option VirtualChannel) (now : Z)
    (ch' : Channel) (r : OnSuccess * Cell * option Cell) :
  updateOurStateWithAction s ch action details now = (ch', Ok r) →
  ¬ spec_idempotent ch action details →
  Seqno (ourBody ch') = uint64 (Seqno (ourBody ch) + 1)
  ∧ (0 <= Seqno (ourBody ch) < 2 ^ 64 - 1 →
     Seqno (ourBody ch') = Seqno (ourBody ch) + 1)
  ∧ (Conditionals (Our ch') ≠ ∅ →
     ConditionalsHash (ourBody ch')
     = cell_Hash (dict_AsCell (Conditionals (Our ch'))))
  ∧ (Conditionals (Our ch') = ∅ →
     String.list_ascii_of_string (ConditionalsHash (ourBody ch'))
     = replicate 32 Ascii.zero)
  ∧ Signature (Signed (Our ch')) =
      cell_Sign (SemiChannel_ToCell (State (Signed (Our ch')))) (key s)
  ∧ Sent (ourBody ch') = Sent (ourBody ch) + delta_sent ch action.
Proof.
  unfold updateOurStateWithAction. intros Hupd Hnot.
  destruct (ResolveCoinConfig s _ _ _) as [cc|]; [|discriminate].
  destruct (applyAction cc ch action details now [])
    as [ch1 [err|msg|idem root cb]] eqn:Happ; try discriminate.
  destruct idem.
  { exfalso. apply Hnot. exact (applyAction_flag _ _ _ _ _ _ _ _ Happ). }
  destruct (finish_signed s ch1 root cb)
    as (r' & ch2 & Hfin & Hcond & Hseq & Hsent & Hhash & Hsig).
  rewrite Hfin in Hupd. injection Hupd as <- <-.
  pose proof (applyAction_sent _ _ _ _ _ _ _ _ Happ) as Hdelta.
  assert (Seqno (ourBody ch1) = Seqno (ourBody ch)) as Hseq1.
  { clear -Happ. unfold applyAction in Happ.
    destruct action; repeat case_match; simplify_eq/=; reflexivity. }
  rewrite Hseq1 in Hseq.
  repeat split.
  - exact Hseq.
  - intros Hrange. rewrite Hseq. unfold uint64.
    apply Z.mod_small. lia.
  - intros Hne. rewrite Hhash, <- Hcond. unfold dict_hash.
    rewrite bool_decide_eq_false_2 by exact Hne. reflexivity.
  - intros Hempty. rewrite Hhash, <- Hcond, Hempty. reflexivity.
  - exact Hsig.
  - rewrite Hsent. exact Hdelta.
Qed.


Lemma Find_key conditionals chKey root idx vch root' :
  FindVirtualChannelWithProof conditionals chKey root = (Ok (idx, vch), root') →
  payments.Key vch = chKey
  ∧ LittleEndian_Uint32 chKey = Some idx
  ∧ (∃ sl, conditionals !! idx = Some sl
           ∧ ParseVirtualChannelCond sl = Success vch).
Proof.
  unfold FindVirtualChannelWithProof. intros Hfind.
  destruct (LittleEndian_Uint32 chKey) as [i|]; [|discriminate].
  destruct (conditionals !! i) as [sl|] eqn:Hsl; [|discriminate].
  destruct (ParseVirtualChannelCond sl) as [v|] eqn:Hv; [|discriminate].
  destruct (String.eqb (payments.Key v) chKey) eqn:Hk; [|discriminate].
  injection Hfind as <- <- _. apply String.eqb_eq in Hk.
  repeat split; eauto.
Qed.

(** C6.  For a [ConfirmClose] of a key whose condition is present on
    our side:
    - when the deadline of the condition has passed, an error is
      returned and the channel is as before (the condition is not
      deleted and nothing is credited);
    - when the state of the action does not load or its signature does
      not verify against the key of the condition, an error is
      returned and the channel is as before;
    - so the action succeeds only while [now <= deadline]. *)
Theorem ConfirmClose_deadline (s : Service) (ch : Channel) (chKey : bytes)
    (chState : Cell) (now idx : Z) (vch : VirtualChannel) (root : list Z) :
  FindVirtualChannelWithProof (Conditionals (Our ch)) chKey [] =
    (Ok (idx, vch), root) →
  let res :=
    updateOurStateWithAction s ch (ConfirmCloseAction chKey chState) None now in
  (Deadline vch < now → is_Err res.2 = true ∧ res.1 = ch)
  ∧ ((∀ vState, VirtualChannelState_Load chState = Success vState →
        VirtualChannelState_Verify vState (payments.Key vch) = false) →
     is_Err res.2 = true ∧ res.1 = ch)
  ∧ (is_Ok res.2 = true → now <= Deadline vch).
Proof.
  intros Hfind res. subst res.
  destruct (Find_key _ _ _ _ _ _ Hfind) as (Hkey & _ & _).
  unfold updateOurStateWithAction.
  destruct (ResolveCoinConfig s _ _ _) as [cc|].
  2:{ simpl. repeat split; intros; discriminate. }
  unfold applyAction.
  destruct (VirtualChannelState_Load chState) as [vState|] eqn:Hload.
  2:{ simpl. repeat split; intros; discriminate. }
  rewrite Hkey.
  destruct (VirtualChannelState_Verify vState chKey) eqn:Hver; simpl.
  2:{ repeat split; intros; discriminate. }
  rewrite Hfind.
  destruct (Z.ltb_spec (Deadline vch) now) as [Hexp|Hlive]; simpl.
  { repeat split; intros; discriminate. }
  split; [intros; lia|]. split; [|intros; lia].
  intros Hbad. specialize (Hbad vState eq_refl). congruence.
Qed.

(** The balance check of [OpenVirtual] on the channel with the
    condition inserted. *)
Definition target_balance_fails (ch : Channel) (idx : Z)
    (vch : VirtualChannel) : Prop :=
  match CalcBalance
          (setConditionals ch
             (<[idx := VirtualChannel_Serialize vch]> (Conditionals (Our ch))))
          false with
  | Success (ourTargetBalance, _) => ourTargetBalance < 0
  | Failure _ => True
  end.

(** C4 (as amended).  For a condition whose key has its 32-bit prefix
    [idx], [OpenVirtual] is rejected with an error exactly when: the
    coin config of the channel does not resolve, capacity <= 0,
    fee < 0, prepay < 0, the deadline is before now (a deadline equal
    to now is accepted), a condition of another content hash is stored
    under [idx], or none is stored under [idx] and the balance of our
    side with the condition inserted cannot be computed or is
    negative.  It succeeds otherwise. *)
Theorem OpenVirtual_rejected_iff (s : Service) (ch : Channel)
    (vch : VirtualChannel) (now idx : Z) :
  LittleEndian_Uint32 (payments.Key vch) = Some idx →
  let res := updateOurStateWithAction s ch OpenVirtualAction (Some vch) now in
  (is_Err res.2 = true ↔
     (∃ e, ResolveCoinConfig s (JettonAddress ch) (ExtraCurrencyID ch) false
           = Failure e)
     ∨ Capacity vch <= 0 ∨ Fee vch < 0 ∨ Prepay vch < 0
     ∨ Deadline vch < now
     ∨ (∃ sl, Conditionals (Our ch) !! idx = Some sl
              ∧ cell_Hash sl ≠ cell_Hash (VirtualChannel_Serialize vch))
     ∨ (Conditionals (Our ch) !! idx = None
        ∧ target_balance_fails ch idx vch))
  ∧ (is_Err res.2 = false → is_Ok res.2 = true).
Proof.
  intros Hidx res. subst res.
  unfold updateOurStateWithAction, target_balance_fails.
  destruct (ResolveCoinConfig s _ _ _) as [cc|e] eqn:Hcc.
  2:{ simpl. split; [|discriminate]. split; eauto. }
  unfold applyAction. rewrite Hidx.
  destruct (Z.leb_spec (Capacity vch) 0) as [Hc|Hc]; simpl.
  { split; [|discriminate]. split; eauto. }
  destruct (Z.ltb_spec (Fee vch) 0) as [Hf|Hf]; simpl.
  { split; [|discriminate]. split; eauto. }
  destruct (Z.ltb_spec (Prepay vch) 0) as [Hp|Hp]; simpl.
  { split; [|discriminate]. split; eauto 6. }
  destruct (Z.ltb_spec (Deadline vch) now) as [Hd|Hd]; simpl.
  { split; [|discriminate]. split; eauto 7. }
  destruct (Conditionals (Our ch) !! idx) as [sl|] eqn:Hsl.
  - destruct (String.eqb (cell_Hash sl) (cell_Hash (VirtualChannel_Serialize vch)))
      eqn:Hh.
    + apply String.eqb_eq in Hh.
      destruct (finish_idempotent s ch [idx] NoCallback) as [r ->]. simpl.
      split; [|reflexivity]. split; [discriminate|].
      intros [[e He]|[?|[?|[?|[?|[(sl' & Hsl' & Hne)|[Hnone _]]]]]]];
        try lia; try discriminate.
      injection Hsl' as <-. contradiction.
    + apply String.eqb_neq in Hh. simpl.
      split; [|discriminate]. split; [|reflexivity].
      intros _. do 5 right. left. eauto.
  - destruct (CalcBalance _ false) as [[b l]|e] eqn:Hbal.
    + destruct (Z.ltb_spec b 0) as [Hb|Hb]; simpl.
      * split; [|discriminate]. split; [|reflexivity].
        intros _. do 6 right. split; [reflexivity | exact Hb].
      * match goal with
        | |- context [finish s ?c false ?r ?cb] =>
            destruct (finish_signed s c r cb) as (r' & ch2 & -> & _)
        end. simpl.
        split; [|reflexivity]. split; [discriminate|].
        intros [[e He]|[?|[?|[?|[?|[(sl' & Hsl' & Hne)|[_ Hneg]]]]]]];
          try lia; try discriminate.
    + simpl. split; [|discriminate]. split; [|reflexivity].
      intros _. do 6 right. split; [reflexivity | exact I].
Qed.


(** *** Idempotent applications *)

(** A condition reads back from its serialization. *)
Definition cond_roundtrip : Prop :=
  ∀ vch, ParseVirtualChannelCond (VirtualChannel_Serialize vch) = Success vch.

(** No condition of this key is stored. *)
Definition absent (d : gmap Z Cell) (chKey : bytes) : Prop :=
  ∃ root, FindVirtualChannelWithProof d chKey [] = (Err ErrNotFound, root).

Lemma absent_lookup d chKey idx :
  LittleEndian_Uint32 chKey = Some idx → d !! idx = None → absent d chKey.
Proof.
  intros Hidx Hnone. exists []. unfold FindVirtualChannelWithProof.
  rewrite Hidx, Hnone. reflexivity.
Qed.

Definition valid_condition (vch : VirtualChannel) (now : Z) : Prop :=
  0 < Capacity vch ∧ 0 <= Fee vch ∧ 0 <= Prepay vch ∧ now <= Deadline vch.

Lemma applyAction_open_same cc ch vch now idx sl :
  valid_condition vch now →
  LittleEndian_Uint32 (payments.Key vch) = Some idx →
  Conditionals (Our ch) !! idx = Some sl →
  cell_Hash sl = cell_Hash (VirtualChannel_Serialize vch) →
  applyAction cc ch OpenVirtualAction (Some vch) now [] =
  (ch, Break true [idx] NoCallback).
Proof.
  intros (Hc & Hf & Hp & Hd) Hidx Hsl Hh. unfold applyAction.
  destruct (Z.leb_spec (Capacity vch) 0); [lia|].
  destruct (Z.ltb_spec (Fee vch) 0); [lia|].
  destruct (Z.ltb_spec (Prepay vch) 0); [lia|].
  destruct (Z.ltb_spec (Deadline vch) now); [lia|].
  rewrite Hidx, Hsl, Hh, String.eqb_refl. reflexivity.
Qed.

Lemma applyAction_commit_same cc ch chKey prepayAmount details now idx vch
    root :
  FindVirtualChannelWithProof (Conditionals (Our ch)) chKey [] =
    (Ok (idx, vch), root) →
  SetBytes prepayAmount = Prepay vch →
  applyAction cc ch (CommitVirtualAction chKey prepayAmount) details now [] =
  (ch, Break true root NoCallback).
Proof.
  intros Hfind Heq. unfold applyAction. rewrite Hfind, Heq, Z.sub_diag.
  reflexivity.
Qed.

Lemma applyAction_remove_absent cc ch chKey details now :
  absent (Conditionals (Our ch)) chKey →
  ∃ root, applyAction cc ch (RemoveVirtualAction chKey) details now [] =
          (ch, Break true root NoCallback).
Proof.
  intros [root Hfind]. exists root. unfold applyAction. rewrite Hfind.
  reflexivity.
Qed.

Lemma applyAction_close_absent cc ch chKey chState vState details now :
  VirtualChannelState_Load chState = Success vState →
  VirtualChannelState_Verify vState chKey = true →
  absent (Conditionals (Our ch)) chKey →
  ∃ root, applyAction cc ch (ConfirmCloseAction chKey chState) details now [] =
          (ch, Break true root NoCallback).
Proof.
  intros Hload Hver [root Hfind]. exists root. unfold applyAction.
  rewrite Hload, Hver, Hfind. reflexivity.
Qed.

Lemma update_idempotent s ch action details now cc root cb :
  ResolveCoinConfig s (JettonAddress ch) (ExtraCurrencyID ch) false
    = Success cc →
  applyAction cc ch action details now [] = (ch, Break true root cb) →
  ∃ r, updateOurStateWithAction s ch action details now = (ch, Ok r).
Proof.
  intros Hcc Happ. unfold updateOurStateWithAction. rewrite Hcc, Happ.
  apply finish_idempotent.
Qed.

Lemma finish_shape s ch root cb :
  ∃ sg r, finish s ch false root cb = (setSigned ch sg, Ok r).
Proof.
  unfold finish. simpl. case_bool_decide; eauto.
Qed.

(** The conditions stored on our side of a channel read back from
    their serialization. *)
Definition reads_back (ch : Channel) : Prop :=
  ∀ idx vch,
    Conditionals (Our ch) !! idx = Some (VirtualChannel_Serialize vch) →
    ParseVirtualChannelCond (VirtualChannel_Serialize vch) = Success vch.

Lemma cond_roundtrip_reads_back ch : cond_roundtrip → reads_back ch.
Proof. intros Hrt idx vch _. apply Hrt. Qed.

(** The deadline of the condition of an [OpenVirtual] has not passed
    at [now']. *)
Definition in_time (action : Action) (details : option VirtualChannel)
    (now' : Z) : Prop :=
  ∀ vch, action = OpenVirtualAction → details = Some vch →
         now' <= Deadline vch.

(** An idempotent application stays one at another time, for an
    [OpenVirtual] while its deadline has not passed. *)
Lemma applyAction_idempotent_later cc ch action details now now' ch1 root cb :
  in_time action details now' →
  applyAction cc ch action details now [] = (ch1, Break true root cb) →
  applyAction cc ch action details now' [] = (ch1, Break true root cb).
Proof.
  unfold applyAction. intros Htime Happ.
  destruct action as [| |chKey prepayAmount|chKey|chKey chState|ty].
  - exact Happ.
  - destruct details as [vch|]; [|discriminate].
    specialize (Htime vch eq_refl eq_refl).
    destruct (Capacity vch <=? 0); [discriminate|].
    destruct (Fee vch <? 0); [discriminate|].
    destruct (Prepay vch <? 0); [discriminate|].
    destruct (Deadline vch <? now); [discriminate|].
    destruct (Z.ltb_spec (Deadline vch) now'); [lia|].
    exact Happ.
  - exact Happ.
  - exact Happ.
  - destruct (VirtualChannelState_Load chState) as [vState|]; [|discriminate].
    destruct (negb _); [discriminate|].
    destruct (FindVirtualChannelWithProof _ _ _) as [[[idx vch]|e|] root0];
      [|exact Happ|discriminate].
    destruct (Deadline vch <? now); [discriminate|].
    destruct (LittleEndian_Uint32 _); [|discriminate].
    destruct (_ !! _); discriminate.
  - discriminate.
Qed.

(** The second application of an action other than [IncrementStates]
    to the channel its first application left, at another time. *)
Lemma applyAction_twice cc ch action details now now' ch1 root cb sg :
  reads_back ch1 →
  action ≠ IncrementStatesAction →
  in_time action details now' →
  applyAction cc ch action details now [] = (ch1, Break false root cb) →
  ∃ root', applyAction cc (setSigned ch1 sg) action details now' [] =
           (setSigned ch1 sg, Break true root' NoCallback).
Proof.
  intros Hrt Hne Htime Happ.
  destruct action as [| |chKey prepayAmount|chKey|chKey chState|ty];
    [contradiction| | | | |discriminate].
  - (* OpenVirtual: the condition is now stored with this content *)
    unfold applyAction in Happ.
    destruct details as [vch|]; [|discriminate].
    destruct (Z.leb_spec (Capacity vch) 0); [discriminate|].
    destruct (Z.ltb_spec (Fee vch) 0); [discriminate|].
    destruct (Z.ltb_spec (Prepay vch) 0); [discriminate|].
    destruct (Z.ltb_spec (Deadline vch) now); [discriminate|].
    destruct (LittleEndian_Uint32 (payments.Key vch)) as [idx|] eqn:Hidx;
      [|discriminate].
    destruct (Conditionals (Our ch) !! idx) as [sl|] eqn:Hsl.
    { destruct (String.eqb _ _); discriminate. }
    destruct (CalcBalance _ false) as [[b l]|]; [|discriminate].
    destruct (b <? 0); [discriminate|].
    injection Happ as <- _ _.
    exists [idx].
    specialize (Htime vch eq_refl eq_refl).
    apply applyAction_open_same with (sl := VirtualChannel_Serialize vch).
    + unfold valid_condition. lia.
    + exact Hidx.
    + simpl. apply lookup_insert_eq.
    + reflexivity.
  - (* CommitVirtual: the stored prepay is now the new one *)
    unfold applyAction in Happ.
    destruct (FindVirtualChannelWithProof _ _ _) as [[[idx vch]| |] root0]
      eqn:Hfind; [|discriminate..].
    destruct (Find_key _ _ _ _ _ _ Hfind) as (Hkey & Hidx & _).
    destruct (SetBytes prepayAmount - Prepay vch <? 0); [discriminate|].
    destruct (SetBytes prepayAmount - Prepay vch =? 0); [discriminate|].
    rewrite Hkey, Hidx in Happ. injection Happ as <- _ _.
    eexists.
    apply applyAction_commit_same with (idx := idx)
      (vch := mkVirtualChannel chKey (Capacity vch) (Fee vch)
                (SetBytes prepayAmount) (Deadline vch)).
    + unfold FindVirtualChannelWithProof. rewrite Hidx. simpl.
      rewrite lookup_insert_eq.
      rewrite (Hrt idx) by (simpl; apply lookup_insert_eq).
      simpl. rewrite String.eqb_refl. reflexivity.
    + reflexivity.
  - (* RemoveVirtual: the key is now absent *)
    unfold applyAction in Happ.
    destruct (FindVirtualChannelWithProof _ _ _) as [[[idx vch]| |] root0]
      eqn:Hfind; [|destruct (errors_Is _ _); discriminate|discriminate].
    destruct (Find_key _ _ _ _ _ _ Hfind) as (Hkey & Hidx & _).
    rewrite Hkey, Hidx in Happ. simpl in Happ.
    rewrite lookup_delete_eq in Happ. injection Happ as <- _ _.
    apply applyAction_remove_absent.
    apply absent_lookup with (idx := idx); [exact Hidx|].
    simpl. apply lookup_delete_eq.
  - (* ConfirmClose: the key is now absent *)
    unfold applyAction in Happ.
    destruct (VirtualChannelState_Load chState) as [vState|] eqn:Hload;
      [|discriminate].
    destruct (VirtualChannelState_Verify vState chKey) eqn:Hver;
      [|discriminate].
    simpl in Happ.
    destruct (FindVirtualChannelWithProof _ _ _) as [[[idx vch]| |] root0]
      eqn:Hfind; [|destruct (errors_Is _ _); discriminate|discriminate].
    destruct (Find_key _ _ _ _ _ _ Hfind) as (Hkey & Hidx & _).
    destruct (Deadline vch <? now); [discriminate|].
    rewrite Hkey, Hidx in Happ. simpl in Happ.
    rewrite lookup_delete_eq in Happ.
    apply applyAction_close_absent with (vState := vState);
      [exact Hload | exact Hver |].
    apply absent_lookup with (idx := idx); [exact Hidx|].
    injection Happ as <- _ _.
    destruct (0 <? _); simpl; apply lookup_delete_eq.
Qed.

(** C3 (as amended).  On a channel whose coin config resolves:
    - an [OpenVirtual] that passes its validation (capacity > 0,
      fee >= 0, prepay >= 0, deadline not before now) and whose content
      hash is the one stored under its key prefix,
    - a [CommitVirtual] whose prepay is the stored one,
    - a [RemoveVirtual] of an absent key,
    - a [ConfirmClose] of an absent key whose state loads and verifies
      against the key of the action,
    each return without error and leave the channel exactly as it was:
    no seqno increment, no new signature.  And applying an action
    other than [IncrementStates] a second time, at any later or
    earlier time [now'], to the channel that its successful first
    application left returns without error and leaves that channel
    exactly as it was, when the conditions stored in that channel read
    back from their serialization and, for an [OpenVirtual], the
    deadline of the condition has not passed at [now']; a second
    [OpenVirtual] after the deadline returns the error
    "deadline expired" and leaves that channel as it was. *)
Theorem idempotent_application (s : Service) (ch : Channel) (now : Z)
    (cc : CoinConfig) :
  ResolveCoinConfig s (JettonAddress ch) (ExtraCurrencyID ch) false
    = Success cc →
  (∀ vch idx sl,
     valid_condition vch now →
     LittleEndian_Uint32 (payments.Key vch) = Some idx →
     Conditionals (Our ch) !! idx = Some sl →
     cell_Hash sl = cell_Hash (VirtualChannel_Serialize vch) →
     ∃ r, updateOurStateWithAction s ch OpenVirtualAction (Some vch) now
          = (ch, Ok r))
  ∧ (∀ chKey prepayAmount details idx vch root,
       FindVirtualChannelWithProof (Conditionals (Our ch)) chKey [] =
         (Ok (idx, vch), root) →
       SetBytes prepayAmount = Prepay vch →
       ∃ r, updateOurStateWithAction s ch
              (CommitVirtualAction chKey prepayAmount) details now
            = (ch, Ok r))
  ∧ (∀ chKey details,
       absent (Conditionals (Our ch)) chKey →
       ∃ r, updateOurStateWithAction s ch (RemoveVirtualAction chKey)
              details now = (ch, Ok r))
  ∧ (∀ chKey chState vState details,
       VirtualChannelState_Load chState = Success vState →
       VirtualChannelState_Verify vState chKey = true →
       absent (Conditionals (Our ch)) chKey →
       ∃ r, updateOurStateWithAction s ch (ConfirmCloseAction chKey chState)
              details now = (ch, Ok r))
  ∧ (∀ action details ch1 r1 now',
       action ≠ IncrementStatesAction →
       updateOurStateWithAction s ch action details now = (ch1, Ok r1) →
       reads_back ch1 →
       in_time action details now' →
       ∃ r2, updateOurStateWithAction s ch1 action details now'
             = (ch1, Ok r2))
  ∧ (∀ vch ch1 r1 now',
       updateOurStateWithAction s ch OpenVirtualAction (Some vch) now
         = (ch1, Ok r1) →
       Deadline vch < now' →
       updateOurStateWithAction s ch1 OpenVirtualAction (Some vch) now'
       = (ch1, Err (Errorf "deadline expired"))).
Proof.
  intros Hcc.
  assert (Hcc1 : ∀ action details ch1 r1,
            updateOurStateWithAction s ch action details now = (ch1, Ok r1) →
            ResolveCoinConfig s (JettonAddress ch1) (ExtraCurrencyID ch1) false
            = Success cc).
  { intros action details ch1 r1 Hupd.
    assert (JettonAddress ch1 = JettonAddress ch
            ∧ ExtraCurrencyID ch1 = ExtraCurrencyID ch) as [-> ->];
      [|exact Hcc].
    unfold updateOurStateWithAction in Hupd. rewrite Hcc in Hupd.
    destruct (applyAction cc ch action details now [])
      as [ch0 [err|msg|idem root cb]] eqn:Happ; try discriminate.
    assert (JettonAddress ch0 = JettonAddress ch
            ∧ ExtraCurrencyID ch0 = ExtraCurrencyID ch) as [<- <-].
    { clear -Happ. unfold applyAction in Happ.
      destruct action; repeat case_match; simplify_eq/=; split; reflexivity. }
    destruct idem.
    - destruct (finish_idempotent s ch0 root cb) as [r Hfin].
      rewrite Hfin in Hupd. injection Hupd as <- _. auto.
    - destruct (finish_shape s ch0 root cb) as (sg & r & Hfin).
      rewrite Hfin in Hupd. injection Hupd as <- _. auto. }
  split; [|split; [|split; [|split; [|split]]]].
  - intros vch idx sl Hv Hidx Hsl Hh.
    eapply update_idempotent; [exact Hcc|].
    eapply applyAction_open_same; eassumption.
  - intros chKey prepayAmount details idx vch root Hfind Heq.
    eapply update_idempotent; [exact Hcc|].
    eapply applyAction_commit_same; eassumption.
  - intros chKey details Habs.
    destruct (applyAction_remove_absent cc ch chKey details now Habs)
      as [root Happ].
    eapply update_idempotent; eassumption.
  - intros chKey chState vState details Hload Hver Habs.
    destruct (applyAction_close_absent cc ch chKey chState vState details now
                Hload Hver Habs) as [root Happ].
    eapply update_idempotent; eassumption.
  - intros action details ch1 r1 now' Hne Hupd Hrt Htime.
    pose proof (Hcc1 _ _ _ _ Hupd) as Hcc'.
    unfold updateOurStateWithAction in Hupd. rewrite Hcc in Hupd.
    destruct (applyAction cc ch action details now [])
      as [ch0 [err|msg|idem root cb]] eqn:Happ; try discriminate.
    destruct idem.
    + (* the first application was idempotent already *)
      destruct (finish_idempotent s ch0 root cb) as [r Hfin].
      rewrite Hfin in Hupd. injection Hupd as <- <-.
      assert (ch0 = ch) as ->.
      { clear -Happ. unfold applyAction in Happ.
        destruct action; repeat case_match; simplify_eq/=; reflexivity. }
      eapply update_idempotent; [exact Hcc|].
      eapply applyAction_idempotent_later; eassumption.
    + destruct (finish_shape s ch0 root cb) as (sg & r & Hfin).
      rewrite Hfin in Hupd. injection Hupd as <- <-.
      destruct (applyAction_twice cc ch action details now now' ch0 root cb sg
                  Hrt Hne Htime Happ) as [root' Happ2].
      eapply update_idempotent; [exact Hcc'|exact Happ2].
  - intros vch ch1 r1 now' Hupd Hlate.
    pose proof (Hcc1 _ _ _ _ Hupd) as Hcc'.
    assert (Hvalid : 0 < Capacity vch ∧ 0 <= Fee vch ∧ 0 <= Prepay vch).
    { unfold updateOurStateWithAction in Hupd. rewrite Hcc in Hupd.
      unfold applyAction in Hupd.
      destruct (Z.leb_spec (Capacity vch) 0); [discriminate|].
      destruct (Z.ltb_spec (Fee vch) 0); [discriminate|].
      destruct (Z.ltb_spec (Prepay vch) 0); [discriminate|]. lia. }
    unfold updateOurStateWithAction. rewrite Hcc'. unfold applyAction.
    destruct (Z.leb_spec (Capacity vch) 0); [lia|].
    destruct (Z.ltb_spec (Fee vch) 0); [lia|].
    destruct (Z.ltb_spec (Prepay vch) 0); [lia|].
    destruct (Z.ltb_spec (Deadline vch) now'); [reflexivity|lia].
Qed.

End state_engine.

Section state_engine_examples.
Import db payments tonpayments samples.

Definition sample_service : Service :=
  mkService "node-key" (λ _ _ _, Success (mkCoinConfig 9)).

(** The virtual-channel key of the examples, 32 bytes, and the
    condition of capacity 100 with deadline 300 for it. *)
Definition K : bytes := "KKKKKKKKKKKKKKKKKKKKKKKKKKKKKKKK".
Definition idxK : Z := 1263225675.
Definition cond100 : VirtualChannel := mkVirtualChannel K 100 0 0 300.

(** An active channel with 1000000000 deposited by each party and no
    conditions, and the same channel with [cond100] on our side. *)
Definition open_channel : Channel :=
  mkChannel "id" "addr" 0 "" ChannelStateActive true
    (mkOnchainState "" 0 "" 1000000000 0 0)
    (mkOnchainState "" 0 "" 1000000000 0 0)
    0 true false (NewSide "id" 1 1) (NewSide "id" 1 1) 0 0 0 0.

Definition channel_with_cond : Channel :=
  setConditionals open_channel {[ idxK := VirtualChannel_Serialize cond100 ]}.

(** The resolve of amount 80 signed for [K], as a cell. *)
Definition resolve80 : Cell :=
  VirtualChannelState_ToCell (mkVirtualChannelState 80 K).

Lemma sample_cond_roundtrip : cond_roundtrip.
Proof.
  intros [k c f p d]. simpl. unfold decode_cond, encode_cond. simpl.
  rewrite !decode_Z_encode. reflexivity.
Qed.

(** What the examples read off a channel after an application. *)
Definition post_state (ch ch' : Channel) (sent : Z) : Prop :=
  Seqno (ourBody ch') = Seqno (ourBody ch) + 1
  ∧ Sent (ourBody ch') = sent
  ∧ Signature (Signed (Our ch')) =
      cell_Sign (SemiChannel_ToCell (State (Signed (Our ch'))))
        (key sample_service)
  ∧ (Conditionals (Our ch') ≠ ∅ →
     ConditionalsHash (ourBody ch')
     = cell_Hash (dict_AsCell (Conditionals (Our ch'))))
  ∧ (Conditionals (Our ch') = ∅ →
     String.list_ascii_of_string (ConditionalsHash (ourBody ch'))
     = replicate 32 Ascii.zero).

Lemma updateOurState_post_state_witness :
  (∃ ch' r,
     updateOurStateWithAction sample_service open_channel
       IncrementStatesAction None 100 = (ch', Ok r)
     ∧ post_state open_channel ch' 0)
  ∧ (∃ ch' r,
       updateOurStateWithAction sample_service open_channel
         OpenVirtualAction (Some cond100) 100 = (ch', Ok r)
       ∧ post_state open_channel ch' 0)
  ∧ (∃ ch' r,
       updateOurStateWithAction sample_service channel_with_cond
         (CommitVirtualAction K (String (Ascii.ascii_of_nat 30) EmptyString))
         None 100 = (ch', Ok r)
       ∧ post_state channel_with_cond ch' (0 + (30 - 0)))
  ∧ (∃ ch' r,
       updateOurStateWithAction sample_service channel_with_cond
         (RemoveVirtualAction K) None 100 = (ch', Ok r)
       ∧ post_state channel_with_cond ch' 0)
  ∧ (∃ ch' r,
       updateOurStateWithAction sample_service channel_with_cond
         (ConfirmCloseAction K resolve80) None 100 = (ch', Ok r)
       ∧ post_state channel_with_cond ch' (0 + Z.max 0 (80 - 0 + 0))).
Proof.
  assert (Hfind :
    FindVirtualChannelWithProof (Conditionals (Our channel_with_cond)) K []
    = (Ok (idxK, cond100), [idxK])) by (vm_compute; reflexivity).
  assert (Hpost : ∀ ch action details sent,
    is_Ok (updateOurStateWithAction sample_service ch action details 100).2
      = true →
    ¬ spec_idempotent ch action details →
    0 <= Seqno (ourBody ch) < 2 ^ 64 - 1 →
    Sent (ourBody ch) + delta_sent ch action = sent →
    ∃ ch' r,
      updateOurStateWithAction sample_service ch action details 100
        = (ch', Ok r)
      ∧ post_state ch ch' sent).
  { intros ch action details sent Hok Hnot Hrange Hsent.
    destruct (updateOurStateWithAction sample_service ch action details 100)
      as [ch' [r|e|msg]] eqn:Hupd; [|discriminate..].
    destruct (updateOurState_post_state sample_service ch action details 100
                ch' r Hupd Hnot) as (_ & Hseq & Hhash & Hzero & Hsig & Hs).
    exists ch', r. split; [reflexivity|]. unfold post_state.
    rewrite Hs, Hsent. auto. }
  split; [|split; [|split; [|split]]].
  - apply Hpost; [vm_compute; reflexivity| |vm_compute; split; congruence
                 |reflexivity].
    intros [].
  - apply Hpost; [vm_compute; reflexivity| |vm_compute; split; congruence
                 |reflexivity].
    intros (vch & idx & sl & [= <-] & [= <-] & Hsl & _). discriminate.
  - apply Hpost; [vm_compute; reflexivity| |vm_compute; split; congruence|].
    + intros (idx & vch & root & Hf & Hp). rewrite Hfind in Hf.
      injection Hf as _ <- _. vm_compute in Hp. discriminate.
    + unfold delta_sent. rewrite Hfind. reflexivity.
  - apply Hpost; [vm_compute; reflexivity| |vm_compute; split; congruence
                 |reflexivity].
    intros (e & root & Hf & _). rewrite Hfind in Hf.
    discriminate.
  - apply Hpost; [vm_compute; reflexivity| |vm_compute; split; congruence|].
    + intros (e & root & Hf & _). rewrite Hfind in Hf.
      discriminate.
    + unfold delta_sent. rewrite Hfind. reflexivity.
Defined.

Lemma ConfirmClose_deadline_witness :
  is_Err (updateOurStateWithAction sample_service channel_with_cond
            (ConfirmCloseAction K resolve80) None 301).2 = true
  ∧ (updateOurStateWithAction sample_service channel_with_cond
       (ConfirmCloseAction K resolve80) None 301).1 = channel_with_cond.
Proof.
  assert (Hfind :
    FindVirtualChannelWithProof (Conditionals (Our channel_with_cond)) K []
    = (Ok (idxK, cond100), [idxK])) by (vm_compute; reflexivity).
  destruct (ConfirmClose_deadline sample_service channel_with_cond K resolve80
              301 idxK cond100 [idxK] Hfind) as [Hexpired _].
  apply Hexpired. simpl. lia.
Defined.

Lemma OpenVirtual_rejected_iff_witness :
  is_Err (updateOurStateWithAction sample_service open_channel
            OpenVirtualAction (Some cond100) 100).2 = false
  ∧ is_Ok (updateOurStateWithAction sample_service open_channel
             OpenVirtualAction (Some cond100) 100).2 = true.
Proof.
  pose proof (OpenVirtual_rejected_iff sample_service open_channel cond100
                100 idxK eq_refl) as [_ Hok].
  split; [vm_compute; reflexivity|].
  apply Hok. vm_compute. reflexivity.
Defined.

(** C4, the claim as stated fails: a condition whose deadline is now,
    so not strictly greater than now, is accepted. *)
Lemma OpenVirtual_deadline_counterexample :
  ¬ (300 < Deadline cond100)
  ∧ is_Ok (updateOurStateWithAction sample_service open_channel
             OpenVirtualAction (Some cond100) 300).2 = true
  ∧ is_Err (updateOurStateWithAction sample_service open_channel
              OpenVirtualAction (Some cond100) 300).2 = false.
Proof.
  split; [simpl; lia|]. split; vm_compute; reflexivity.
Qed.

Lemma idempotent_application_witness :
  (∃ r, updateOurStateWithAction sample_service channel_with_cond
          OpenVirtualAction (Some cond100) 100 = (channel_with_cond, Ok r))
  ∧ (∃ ch1 r1 r2,
       updateOurStateWithAction sample_service open_channel
         OpenVirtualAction (Some cond100) 100 = (ch1, Ok r1)
       ∧ updateOurStateWithAction sample_service ch1
           OpenVirtualAction (Some cond100) 300 = (ch1, Ok r2)
       ∧ updateOurStateWithAction sample_service ch1
           OpenVirtualAction (Some cond100) 301
         = (ch1, Err (Errorf "deadline expired")))
  ∧ (∃ ch1 r1 r2,
       updateOurStateWithAction sample_service channel_with_cond
         (ConfirmCloseAction K resolve80) None 100 = (ch1, Ok r1)
       ∧ updateOurStateWithAction sample_service ch1
           (ConfirmCloseAction K resolve80) None 500 = (ch1, Ok r2)).
Proof.
  split; [|split].
  - apply (idempotent_application sample_service channel_with_cond 100
             (mkCoinConfig 9) eq_refl)
      with (idx := idxK) (sl := VirtualChannel_Serialize cond100).
    + unfold valid_condition. simpl. lia.
    + reflexivity.
    + vm_compute. reflexivity.
    + reflexivity.
  - destruct (idempotent_application sample_service open_channel 100
                (mkCoinConfig 9) eq_refl) as (_ & _ & _ & _ & Htwice & Hlate).
    destruct (updateOurStateWithAction sample_service open_channel
                OpenVirtualAction (Some cond100) 100)
      as [ch1 [r1|e|msg]] eqn:Hupd; [|vm_compute in Hupd; discriminate..].
    destruct (Htwice OpenVirtualAction (Some cond100) ch1 r1 300) as [r2 H2].
    + discriminate.
    + exact Hupd.
    + apply cond_roundtrip_reads_back, sample_cond_roundtrip.
    + intros vch _ [= <-]. simpl. lia.
    + exists ch1, r1, r2. split; [reflexivity|]. split; [exact H2|].
      apply (Hlate cond100 ch1 r1 301 Hupd). simpl. lia.
  - destruct (idempotent_application sample_service channel_with_cond 100
                (mkCoinConfig 9) eq_refl) as (_ & _ & _ & _ & Htwice & _).
    destruct (updateOurStateWithAction sample_service channel_with_cond
                (ConfirmCloseAction K resolve80) None 100)
      as [ch1 [r1|e|msg]] eqn:Hupd; [|vm_compute in Hupd; discriminate..].
    destruct (Htwice (ConfirmCloseAction K resolve80) None ch1 r1 500)
      as [r2 H2].
    + discriminate.
    + exact Hupd.
    + apply cond_roundtrip_reads_back, sample_cond_roundtrip.
    + intros vch [=].
    + exists ch1, r1, r2. split; [reflexivity | exact H2].
Defined.

(** C3, the claim as stated fails: an [OpenVirtual] whose identical
    condition is stored returns an error once the deadline has passed,
    and a [ConfirmClose] of an absent key returns an error when its
    state is not signed by the key. *)
Lemma idempotent_application_counterexample :
  Conditionals (Our channel_with_cond) !! idxK
    = Some (VirtualChannel_Serialize cond100)
  ∧ LittleEndian_Uint32 (payments.Key cond100) = Some idxK
  ∧ (updateOurStateWithAction sample_service channel_with_cond
       OpenVirtualAction (Some cond100) 301).2
    = Err (Errorf "deadline expired")
  ∧ absent (Conditionals (Our open_channel)) K
  ∧ (updateOurStateWithAction sample_service open_channel
       (ConfirmCloseAction K
          (VirtualChannelState_ToCell (mkVirtualChannelState 80 "forged")))
       None 100).2
    = Err (Errorf "incorrect channel state signature").
Proof.
  split; [vm_compute; reflexivity|]. split; [reflexivity|].
  split; [vm_compute; reflexivity|].
  split; [|vm_compute; reflexivity].
  exists []. vm_compute. reflexivity.
Qed.

(** The first scenario of the specification: opening the condition of
    capacity 100 leaves our balance at 999999900 with 100 locked;
    closing it with the resolve of 80 adds 80 to our sent, empties the
    dictionary and leaves our balance at 999999920. *)
Example open_then_close :
  ∃ ch1 r1 ch2 r2,
    updateOurStateWithAction sample_service open_channel OpenVirtualAction
      (Some cond100) 100 = (ch1, Ok r1)
    ∧ CalcBalance ch1 false = Success (999999900, 100)
    ∧ updateOurStateWithAction sample_service ch1
        (ConfirmCloseAction K resolve80) None 100 = (ch2, Ok r2)
    ∧ Sent (ourBody ch2) = 80
    ∧ Seqno (ourBody ch2) = 3
    ∧ Conditionals (Our ch2) = ∅
    ∧ CalcBalance ch2 false = Success (999999920, 0).
Proof.
  eexists _, _, _, _.
  split; [vm_compute; reflexivity|]. split; [vm_compute; reflexivity|].
  split; [vm_compute; reflexivity|]. repeat split; vm_compute; reflexivity.
Qed.

End state_engine_examples.

(** ** The task queue: acquiring a task *)

(** *** The order of the index *)
Section index_order.

Lemma byte_val_range c : 0 <= byte_val c < 256.
Proof.
  unfold byte_val. pose proof (Ascii.N_ascii_bounded c) as Hb. lia.
Qed.

Lemma byte_val_inj c1 c2 : byte_val c1 = byte_val c2 → c1 = c2.
Proof.
  unfold byte_val. intros Heq. apply N2Z.inj in Heq.
  rewrite <- (Ascii.ascii_N_embedding c1), <- (Ascii.ascii_N_embedding c2).
  congruence.
Qed.

Lemma be_decode_acc n acc b :
  be_decode n acc b =
  (λ v, acc * 256 ^ Z.of_nat n + v) <$> be_decode n 0 b.
Proof.
  revert acc b. induction n as [|n IH]; intros acc b.
  - simpl. f_equal. lia.
  - destruct b as [|c b]; [reflexivity|].
    cbn [be_decode]. rewrite (IH (acc * 256 + byte_val c)).
    rewrite (IH (0 * 256 + byte_val c)).
    destruct (be_decode n 0 b) as [v|]; [|reflexivity].
    simpl. f_equal. rewrite Nat2Z.inj_succ, Z.pow_succ_r by lia. lia.
Qed.

Lemma be_decode_range n b v :
  be_decode n 0 b = Some v → 0 <= v < 256 ^ Z.of_nat n.
Proof.
  revert b v. induction n as [|n IH]; intros b v Hd.
  - injection Hd as <-. simpl. lia.
  - destruct b as [|c b]; [discriminate|].
    cbn [be_decode] in Hd. rewrite be_decode_acc in Hd.
    destruct (be_decode n 0 b) as [v'|] eqn:Hv'; [|discriminate].
    injection Hd as <-. specialize (IH b v' Hv').
    pose proof (byte_val_range c).
    rewrite Nat2Z.inj_succ, Z.pow_succ_r by lia. nia.
Qed.

(** Big-endian numbers of the same width compare as their bytes. *)
Lemma be_decode_lt n b1 b2 v1 v2 :
  be_decode n 0 b1 = Some v1 → be_decode n 0 b2 = Some v2 → v1 < v2 →
  String.compare b1 b2 = Lt.
Proof.
  revert b1 b2 v1 v2. induction n as [|n IH]; intros b1 b2 v1 v2 H1 H2 Hlt.
  - simpl in *. simplify_eq. lia.
  - destruct b1 as [|c1 b1]; [discriminate|].
    destruct b2 as [|c2 b2]; [discriminate|].
    cbn [be_decode] in H1, H2. rewrite be_decode_acc in H1, H2.
    destruct (be_decode n 0 b1) as [w1|] eqn:Hw1; [|discriminate].
    destruct (be_decode n 0 b2) as [w2|] eqn:Hw2; [|discriminate].
    injection H1 as <-. injection H2 as <-.
    pose proof (be_decode_range _ _ _ Hw1).
    pose proof (be_decode_range _ _ _ Hw2).
    pose proof (byte_val_range c1). pose proof (byte_val_range c2).
    simpl. unfold Ascii.compare.
    destruct (N.compare_spec (Ascii.N_of_ascii c1) (Ascii.N_of_ascii c2))
      as [Heq|Hl|Hg].
    + assert (c1 = c2) as -> by (apply byte_val_inj; unfold byte_val; lia).
      apply (IH b1 b2 w1 w2 Hw1 Hw2). lia.
    + reflexivity.
    + exfalso. unfold byte_val in *. nia.
Qed.

Lemma compare_app_same p s1 s2 :
  String.compare (p +:+ s1) (p +:+ s2) = String.compare s1 s2.
Proof.
  induction p as [|c p IH]; [reflexivity|].
  change (String.compare (String c (p +:+ s1)) (String c (p +:+ s2))
          = String.compare s1 s2).
  simpl. unfold Ascii.compare. rewrite N.compare_refl. exact IH.
Qed.

Lemma prefix_drop p k :
  String.prefix p k = true → k = p +:+ drop_bytes (String.length p) k.
Proof.
  revert k. induction p as [|c p IH]; intros k Hp; [reflexivity|].
  destruct k as [|c' k]; [discriminate|].
  simpl in Hp. destruct (Ascii.ascii_dec c c') as [<-|]; [|discriminate].
  change (String c k = String c (p +:+ drop_bytes (String.length p) k)).
  f_equal. apply IH, Hp.
Qed.


(** Strictly before, in the bytewise order of the keys. *)
Definition precedes (k1 k2 : string) : Prop := String.compare k1 k2 = Lt.

Lemma precedes_le k1 k2 : precedes k1 k2 → String.le k1 k2 ∧ k1 ≠ k2.
Proof.
  unfold precedes, String.le, String.leb. intros Hlt. rewrite Hlt.
  split; [exact I|]. intros ->.
  pose proof (String.compare_antisym k2 k2) as Hanti.
  rewrite Hlt in Hanti. discriminate.
Qed.

Lemma not_precedes_le k1 k2 : String.le k2 k1 → ¬ precedes k1 k2.
Proof.
  intros Hle Hlt. apply precedes_le in Hlt as [Hle' Hne].
  apply Hne. apply (anti_symm String.le); assumption.
Qed.

End index_order.

(** *** The loop of [AcquireTask] *)
Section acquire.
Import leveldb db.
Context `{!Json}.
Variables (keyIndex : bytes) (now now2 : Time).

(** The ready-at time and the queue that an index key carries. *)
Definition at_of (key : string) : option Z :=
  BigEndian_Uint64 (drop_bytes (String.length keyIndex) key).
Definition queue_of (key : string) : string :=
  drop_bytes (String.length keyIndex + 8) key.

(** The task body an index entry points to, decoded. *)
Definition task_at (snap : gmap string string) (dataKey : string)
  : option Task :=
  match snap !! dataKey with
  | Some data =>
      match json_Unmarshal data with
      | Success t => Some t
      | Failure _ => None
      end
  | None => None
  end.

Definition locked (t : Task) : bool :=
  match LockedTill t with Some l => After l now | None => false end.
Definition waiting (t : Task) : bool :=
  match ReExecuteAfter t with Some r => After r now | None => false end.
Definition expired (t : Task) : bool :=
  match ExecuteTill t with Some e => Before e now | None => false end.

(** A task that can be taken now. *)
Definition runnable (t : Task) : Prop :=
  CompletedAt t = None ∧ locked t = false ∧ waiting t = false
  ∧ expired t = false.

(** A task that holds its queue back: not completed, and locked or
    waiting for its retry time. *)
Definition holds_back (t : Task) : Prop :=
  CompletedAt t = None ∧ (locked t = true ∨ waiting t = true).

(** The entries the loop passes without taking a task: the skip list
    before and after, and the index keys it deletes. *)
Inductive scan (snap : gmap string string)
  : list (string * string) → list string → list string → list Op → Prop :=
| scan_nil sk : scan snap [] sk sk []
| scan_skipped key dataKey rest sk sk' dels a :
    at_of key = Some a → a <= uint64 now →
    in_skip (queue_of key) sk = true →
    scan snap rest sk sk' dels →
    scan snap ((key, dataKey) :: rest) sk sk' dels
| scan_completed key dataKey rest sk sk' dels a t :
    at_of key = Some a → a <= uint64 now →
    in_skip (queue_of key) sk = false →
    task_at snap dataKey = Some t → is_Some (CompletedAt t) →
    scan snap rest sk sk' dels →
    scan snap ((key, dataKey) :: rest) sk sk' dels
| scan_held key dataKey rest sk sk' dels a t :
    at_of key = Some a → a <= uint64 now →
    in_skip (queue_of key) sk = false →
    task_at snap dataKey = Some t → holds_back t →
    scan snap rest (sk ++ [Queue t]) sk' dels →
    scan snap ((key, dataKey) :: rest) sk sk' dels
| scan_expired key dataKey rest sk sk' dels a t :
    at_of key = Some a → a <= uint64 now →
    in_skip (queue_of key) sk = false →
    task_at snap dataKey = Some t →
    CompletedAt t = None → locked t = false → waiting t = false →
    expired t = true →
    scan snap rest sk sk' dels →
    scan snap ((key, dataKey) :: rest) sk sk' (BatchDelete key :: dels).

(** How the loop ends on the entries [rest] it has not passed. *)
Definition stopped (snap : gmap string string) (d : LevelDB) (b dels : list Op)
    (sk' : list string) (rest : list (string * string))
    (res : option Task) (w' : World) : Prop :=
  match res with
  | None =>
      w' = mkWorld d (Some (mkTx snap (b ++ dels)))
      ∧ (rest = []
         ∨ ∃ key dataKey rest' a,
             rest = (key, dataKey) :: rest' ∧ at_of key = Some a
             ∧ uint64 now < a)
  | Some t =>
      ∃ key dataKey rest' a t0 data',
        rest = (key, dataKey) :: rest'
        ∧ at_of key = Some a ∧ a <= uint64 now
        ∧ in_skip (queue_of key) sk' = false
        ∧ task_at snap dataKey = Some t0 ∧ runnable t0
        ∧ t = setLockedTill t0 (Some (now2 + 5 * Minute))
        ∧ json_Marshal t = Success data'
        ∧ w' = mkWorld d
                 (Some (mkTx snap (b ++ dels ++ [BatchPut dataKey data'])))
  end.

Lemma acquire_loop_run entries :
  ∀ sk d snap b res w',
    acquire_loop keyIndex now now2 entries sk
      (mkWorld d (Some (mkTx snap b))) = (Ok res, w') →
    ∃ pre rest sk' dels,
      entries = pre ++ rest ∧ scan snap pre sk sk' dels
      ∧ stopped snap d b dels sk' rest res w'.
Proof.
  induction entries as [|[key dataKey] entries IH]; intros sk d snap b res w' Hrun.
  - injection Hrun as <- <-. exists [], [], sk, []. split; [reflexivity|].
    split; [constructor|]. simpl. rewrite app_nil_r. auto.
  - cbn [acquire_loop] in Hrun. fold (at_of key) in Hrun.
    fold (queue_of key) in Hrun.
    destruct (at_of key) as [a|] eqn:Hat; [|discriminate].
    destruct (Z.ltb_spec (uint64 now) a) as [Hlate|Hready].
    { injection Hrun as <- <-. exists [], ((key, dataKey) :: entries), sk, [].
      split; [reflexivity|]. split; [constructor|]. simpl.
      rewrite app_nil_r. split; [reflexivity|]. right. eauto 10. }
    destruct (in_skip (queue_of key) sk) eqn:Hskip.
    { destruct (IH _ _ _ _ _ _ Hrun) as (pre & rest & sk' & dels & -> & Hscan & Hstop).
      exists ((key, dataKey) :: pre), rest, sk', dels.
      split; [reflexivity|]. split; [|exact Hstop].
      eapply scan_skipped; eassumption. }
    unfold bind in Hrun at 1. unfold wrap in Hrun at 1.
    rewrite Get_in_tx in Hrun.
    destruct (snap !! dataKey) as [data|] eqn:Hdata; [|discriminate].
    unfold bind in Hrun at 1. unfold lift in Hrun at 1.
    destruct (json_Unmarshal data) as [task|] eqn:Hjson; [|discriminate].
    assert (Htask : task_at snap dataKey = Some task).
    { unfold task_at. rewrite Hdata, Hjson. reflexivity. }
    case_bool_decide as Hdone.
    { destruct (IH _ _ _ _ _ _ Hrun) as (pre & rest & sk' & dels & -> & Hscan & Hstop).
      exists ((key, dataKey) :: pre), rest, sk', dels.
      split; [reflexivity|]. split; [|exact Hstop].
      eapply scan_completed; eassumption. }
    assert (Hnot : CompletedAt task = None).
    { destruct (CompletedAt task); [exfalso; eauto | reflexivity]. }
    fold (locked task) in Hrun. fold (waiting task) in Hrun.
    fold (expired task) in Hrun.
    destruct (locked task) eqn:Hl.
    { destruct (IH _ _ _ _ _ _ Hrun) as (pre & rest & sk' & dels & -> & Hscan & Hstop).
      exists ((key, dataKey) :: pre), rest, sk', dels.
      split; [reflexivity|]. split; [|exact Hstop].
      eapply scan_held; try eassumption. split; auto. }
    destruct (waiting task) eqn:Hw.
    { destruct (IH _ _ _ _ _ _ Hrun) as (pre & rest & sk' & dels & -> & Hscan & Hstop).
      exists ((key, dataKey) :: pre), rest, sk', dels.
      split; [reflexivity|]. split; [|exact Hstop].
      eapply scan_held; try eassumption. split; auto. }
    destruct (expired task) eqn:He.
    { unfold bind in Hrun at 1. unfold wrap in Hrun at 1.
      rewrite Delete_in_tx in Hrun.
      destruct (IH _ _ _ _ _ _ Hrun) as (pre & rest & sk' & dels & -> & Hscan & Hstop).
      exists ((key, dataKey) :: pre), rest, sk', (BatchDelete key :: dels).
      split; [reflexivity|]. split.
      - eapply scan_expired; eassumption.
      - unfold stopped in *. destruct res as [t|].
        + destruct Hstop as (k & dk & rest' & a' & t0 & data' & ? & ? & ? & ?
                             & ? & ? & ? & ? & ->).
          exists k, dk, rest', a', t0, data'.
          repeat (split; [assumption|]).
          rewrite <- app_assoc. reflexivity.
        + destruct Hstop as [-> Hrest]. split; [|exact Hrest].
          rewrite <- app_assoc. reflexivity. }
    unfold bind in Hrun at 1. unfold lift in Hrun at 1.
    destruct (json_Marshal _) as [data'|] eqn:Hm; [|discriminate].
    unfold bind in Hrun at 1. unfold wrap in Hrun at 1.
    rewrite Put_in_tx in Hrun. injection Hrun as <- <-.
    exists [], ((key, dataKey) :: entries), sk, [].
    split; [reflexivity|]. split; [constructor|].
    exists key, dataKey, entries, a, task, data'.
    repeat (split; [first [assumption | reflexivity]|]).
    split; [repeat split; assumption|].
    split; [reflexivity|]. split; [exact Hm | reflexivity].
Qed.


Lemma in_skip_app q sk x :
  in_skip q (sk ++ [x]) = in_skip q sk || String.eqb q x.
Proof.
  unfold in_skip. rewrite existsb_app. simpl. rewrite orb_false_r. reflexivity.
Qed.

Lemma holds_back_not_runnable t : holds_back t → ¬ runnable t.
Proof.
  intros [_ [Hl|Hw]] (_ & Hl' & Hw' & _); congruence.
Qed.


(** A queue on the skip list was put there by a task that holds it
    back. *)
Lemma scan_skip_origin snap pre sk sk' dels q :
  scan snap pre sk sk' dels → in_skip q sk' = true →
  in_skip q sk = true
  ∨ ∃ key dataKey t, (key, dataKey) ∈ pre ∧ task_at snap dataKey = Some t
                     ∧ holds_back t ∧ Queue t = q.
Proof.
  induction 1 as [sk|key dataKey rest sk sk' dels a Hat Hr Hs Hscan IH
                 |key dataKey rest sk sk' dels a t Hat Hr Hs Ht Hc Hscan IH
                 |key dataKey rest sk sk' dels a t Hat Hr Hs Ht Hh Hscan IH
                 |key dataKey rest sk sk' dels a t Hat Hr Hs Ht Hc Hl Hw He Hscan IH];
    intros Hq; auto.
  - destruct (IH Hq) as [?|(k & dk & t & Hin & ?)]; [auto|].
    right. exists k, dk, t. split; [apply elem_of_cons; auto | assumption].
  - destruct (IH Hq) as [?|(k & dk & t' & Hin & ?)]; [auto|].
    right. exists k, dk, t'. split; [apply elem_of_cons; auto | assumption].
  - destruct (IH Hq) as [Hin|(k & dk & t' & Hin & ?)].
    + rewrite in_skip_app in Hin. apply orb_true_iff in Hin as [?|Heq]; [auto|].
      apply String.eqb_eq in Heq. right. exists key, dataKey, t.
      split; [apply elem_of_cons; auto|]. auto.
    + right. exists k, dk, t'. split; [apply elem_of_cons; auto | assumption].
  - destruct (IH Hq) as [?|(k & dk & t' & Hin & ?)]; [auto|].
    right. exists k, dk, t'. split; [apply elem_of_cons; auto | assumption].
Qed.




Lemma scan_cons_inv snap key dataKey rest sk sk' dels :
  scan snap ((key, dataKey) :: rest) sk sk' dels →
  ∃ a, at_of key = Some a ∧ a <= uint64 now
    ∧ ((in_skip (queue_of key) sk = true ∧ scan snap rest sk sk' dels)
       ∨ (in_skip (queue_of key) sk = false
          ∧ ∃ t, task_at snap dataKey = Some t
              ∧ ((is_Some (CompletedAt t) ∧ scan snap rest sk sk' dels)
                 ∨ (holds_back t ∧ scan snap rest (sk ++ [Queue t]) sk' dels)
                 ∨ (CompletedAt t = None ∧ locked t = false
                    ∧ waiting t = false ∧ expired t = true
                    ∧ ∃ dels', dels = BatchDelete key :: dels'
                               ∧ scan snap rest sk sk' dels')))).
Proof.
  intros Hscan. inversion Hscan; subst; eexists; (split; [eassumption|]);
    (split; [assumption|]).
  - left. auto.
  - right. split; [assumption|]. eexists. split; [eassumption|]. left. auto.
  - right. split; [assumption|]. eexists. split; [eassumption|].
    right. left. auto.
  - right. split; [assumption|]. eexists. split; [eassumption|].
    right. right. repeat (split; [assumption|]). eauto.
Qed.

Lemma scan_app_inv snap l1 l2 sk sk' dels :
  scan snap (l1 ++ l2) sk sk' dels →
  ∃ skm d1 d2, scan snap l1 sk skm d1 ∧ scan snap l2 skm sk' d2
               ∧ dels = d1 ++ d2.
Proof.
  revert sk dels. induction l1 as [|[k dk] l1 IH]; intros sk dels Hscan.
  - exists sk, [], dels. split; [constructor|]. auto.
  - simpl in Hscan.
    destruct (scan_cons_inv _ _ _ _ _ _ _ Hscan)
      as (a & Hat & Hr & [[Hs Hrest]|[Hs (t & Ht & Hcase)]]).
    + destruct (IH _ _ Hrest) as (skm & d1 & d2 & ? & ? & ->).
      exists skm, d1, d2. split; [eapply scan_skipped; eassumption|]. auto.
    + destruct Hcase
        as [[Hc Hrest]|[[Hh Hrest]|(Hc & Hl & Hw & He & dels' & -> & Hrest)]].
      * destruct (IH _ _ Hrest) as (skm & d1 & d2 & ? & ? & ->).
        exists skm, d1, d2.
        split; [eapply scan_completed; eassumption|]. auto.
      * destruct (IH _ _ Hrest) as (skm & d1 & d2 & ? & ? & ->).
        exists skm, d1, d2. split; [eapply scan_held; eassumption|]. auto.
      * destruct (IH _ _ Hrest) as (skm & d1 & d2 & ? & ? & ->).
        exists skm, (BatchDelete k :: d1), d2.
        split; [eapply scan_expired; eassumption|]. auto.
Qed.

Lemma scan_deletes snap pre sk sk' dels :
  scan snap pre sk sk' dels → Forall (λ o, ∃ k, o = BatchDelete k) dels.
Proof. induction 1; eauto. Qed.


(** The store after the batch of the loop: the deleted index keys are
    gone, the body of the taken task is the one written last. *)
Lemma apply_batch_put dels m dataKey data :
  apply_batch (dels ++ [BatchPut dataKey data]) m !! dataKey = Some data.
Proof.
  rewrite apply_batch_app. simpl. apply lookup_insert_eq.
Qed.





End acquire.

(** *** The iterator and the index keys *)
Section iteration.
Import leveldb db.

#[local] Instance key_le_transitive : Transitive key_le.
Proof. intros x y z. unfold key_le. apply (transitivity (R := String.le)). Qed.

#[local] Instance key_le_total : Total key_le.
Proof. intros x y. unfold key_le. apply (total String.le). Qed.

Lemma range_entries_sorted p m : StronglySorted key_le (range_entries p m).
Proof. unfold range_entries. apply StronglySorted_merge_sort; apply _. Qed.

Lemma elem_of_range_entries p m k v :
  (k, v) ∈ range_entries p m ↔ m !! k = Some v ∧ String.prefix p k = true.
Proof.
  unfold range_entries. rewrite merge_sort_Permutation.
  rewrite list_elem_of_In, filter_In, <- list_elem_of_In, elem_of_map_to_list.
  unfold has_prefix. simpl. reflexivity.
Qed.



(** In the order of the iterator, an entry whose key is strictly before
    the key of an entry lies before that entry. *)
Lemma sorted_before pre key v post k1 v1 :
  StronglySorted key_le (pre ++ (key, v) :: post) →
  (k1, v1) ∈ pre ++ (key, v) :: post → precedes k1 key → (k1, v1) ∈ pre.
Proof.
  intros Hsorted Hin Hlt.
  apply elem_of_app in Hin as [Hin|Hin]; [exact Hin|]. exfalso.
  apply StronglySorted_app in Hsorted as (_ & _ & Hs).
  apply StronglySorted_cons in Hs as [Hall _].
  apply elem_of_cons in Hin as [[= -> ->]|Hin].
  - apply precedes_le in Hlt as [_ Hne]. congruence.
  - rewrite Forall_forall in Hall. specialize (Hall _ Hin).
    exact (not_precedes_le _ _ Hall Hlt).
Qed.

Lemma sorted_le pre key v post k1 v1 :
  StronglySorted key_le (pre ++ (key, v) :: post) →
  (k1, v1) ∈ pre → String.le k1 key.
Proof.
  intros Hsorted Hin.
  apply (StronglySorted_app_1_elem_of key_le _ _ (k1, v1) (key, v) Hsorted Hin).
  apply elem_of_cons. auto.
Qed.

Lemma le_ne_precedes k1 k2 : String.le k1 k2 → k1 ≠ k2 → precedes k1 k2.
Proof.
  unfold String.le, String.leb, precedes. intros Hle Hne.
  destruct (String.compare k1 k2) eqn:Hc; [|reflexivity|contradiction].
  apply String.compare_eq_iff in Hc. contradiction.
Qed.

(** The index is ordered by the ready-at time of its keys. *)
Lemma index_order p k1 k2 a1 a2 :
  String.prefix p k1 = true → String.prefix p k2 = true →
  at_of p k1 = Some a1 → at_of p k2 = Some a2 → a1 < a2 →
  precedes k1 k2.
Proof.
  unfold at_of, BigEndian_Uint64, precedes. intros Hp1 Hp2 H1 H2 Hlt.
  rewrite (prefix_drop p k1 Hp1), (prefix_drop p k2 Hp2), compare_app_same.
  exact (be_decode_lt 8 _ _ a1 a2 H1 H2 Hlt).
Qed.

Lemma byte_val_of z : byte_val (byte_of z) = z mod 256.
Proof.
  unfold byte_val, byte_of.
  assert (0 <= z mod 256 < 256) as Hr by (apply Z.mod_pos_bound; lia).
  rewrite Ascii.N_ascii_embedding by lia. lia.
Qed.

Lemma be_decode_encode n acc v q :
  be_decode n acc (be_encode n v +:+ q) =
  Some (acc * 256 ^ Z.of_nat n + v mod 256 ^ Z.of_nat n).
Proof.
  revert acc. induction n as [|n IH]; intros acc.
  - simpl. rewrite Z.mod_1_r. f_equal. lia.
  - change (be_encode (S n) v +:+ q)
      with (String (byte_of (v / 256 ^ Z.of_nat n)) (be_encode n v +:+ q)).
    cbn [be_decode]. rewrite IH, byte_val_of. f_equal.
    rewrite Nat2Z.inj_succ, Z.pow_succ_r by lia.
    rewrite (Z.mul_comm 256), Z.rem_mul_r by lia. lia.
Qed.

Lemma drop_bytes_app p s : drop_bytes (String.length p) (p +:+ s) = s.
Proof. induction p as [|c p IH]; [reflexivity | exact IH]. Qed.


Lemma append_assoc (a b c : string) : (a +:+ b) +:+ c = a +:+ (b +:+ c).
Proof.
  induction a as [|x a IH]; [reflexivity|].
  change (String x ((a +:+ b) +:+ c) = String x (a +:+ (b +:+ c))).
  f_equal. exact IH.
Qed.

(** The index key that [createTask] writes for a task carries the
    ready-at time and the queue of the task. *)
Lemma at_of_getTaskIndexKey task poolName :
  at_of (keyIndexOf poolName) (getTaskIndexKey task poolName)
  = Some (uint64 (ExecuteAfter task)).
Proof.
  unfold at_of, getTaskIndexKey, BigEndian_Uint64, BigEndian_PutUint64.
  rewrite append_assoc, drop_bytes_app, be_decode_encode.
  f_equal. unfold uint64. change (256 ^ Z.of_nat 8) with (2 ^ 64).
  rewrite Z.mod_mod by lia. lia.
Qed.


Lemma prefix_getTaskIndexKey task poolName :
  String.prefix (keyIndexOf poolName) (getTaskIndexKey task poolName) = true.
Proof.
  unfold getTaskIndexKey. rewrite append_assoc.
  generalize (BigEndian_PutUint64 (uint64 (ExecuteAfter task)) +:+ Queue task).
  generalize (keyIndexOf poolName) as p. intros p s.
  induction p as [|c p IH]; [destruct s; reflexivity|].
  change (String.prefix (String c p) (String c (p +:+ s)) = true).
  simpl. destruct (Ascii.ascii_dec c c); [exact IH | contradiction].
Qed.

End iteration.

(** *** [AcquireTask] *)
Section acquire_task.
Import leveldb db.
Context `{!Json}.
Variables (poolName : string) (now now2 : Time) (d : LevelDB).

#[local] Abbreviation P := (keyIndexOf poolName).
#[local] Abbreviation m := (_db d).

(** An entry of the [ti:] index of the pool. *)
Definition index (key dataKey : string) : Prop :=
  m !! key = Some dataKey ∧ String.prefix P key = true.


(** The queue of index key [k1] is held back by an entry before it. *)
Definition held (k1 : string) : Prop :=
  ∃ kb dkb tb,
    index kb dkb ∧ precedes kb k1 ∧ task_at m dkb = Some tb
    ∧ holds_back now tb ∧ Queue tb = queue_of P k1.



Lemma AcquireTask_run res w' :
  AcquireTask poolName now now2 (mkWorld d None) = (Ok res, w') →
  ∃ pre rest sk' dels b,
    range_entries P m = pre ++ rest
    ∧ scan P now m pre [] sk' dels
    ∧ stopped P now now2 m d [] dels sk' rest res
        (mkWorld d (Some (mkTx m b)))
    ∧ w' = mkWorld (mkLevelDB (apply_batch b m)) None.
Proof.
  unfold AcquireTask, db.Transaction. simpl.
  unfold bind at 1. unfold NewIterator at 1, view. simpl.
  destruct (acquire_loop P now now2 (range_entries P m) []
              (mkWorld d (Some (mkTx m [])))) as [[r|e|msg] w1] eqn:Hloop;
    [|intros; discriminate..].
  destruct (acquire_loop_run P now now2 _ _ _ _ _ _ _ Hloop)
    as (pre & rest & sk' & dels & Hentries & Hscan & Hstop).
  intros Hres.
  assert (∃ b, w1 = mkWorld d (Some (mkTx m b))) as [b ->].
  { unfold stopped in Hstop. destruct r as [t|].
    - destruct Hstop as (? & ? & ? & ? & ? & ? & _ & _ & _ & _ & _ & _ & _ & _
                         & ->). eauto.
    - destruct Hstop as [-> _]. eauto. }
  simpl in Hres. injection Hres as <- <-.
  exists pre, rest, sk', dels, b. auto.
Qed.


End acquire_task.

Section acquire_task_examples.
Import leveldb db samples.




End acquire_task_examples.

(** * Further properties of the embedded code *)

(** ** Balances: errors and conservation *)
Section balance_accounting.
Import payments db.
Context `{!TonLib}.

Lemma parse_all_None all :
  parse_all all = None ↔
  ∃ k c e, (k, c) ∈ all ∧ ParseVirtualChannelCond c = Failure e.
Proof.
  induction all as [|[k c] rest IH]; simpl.
  - split; [discriminate|]. intros (k & c & e & Hin & _).
    apply elem_of_nil in Hin as [].
  - destruct (ParseVirtualChannelCond c) as [vch|e] eqn:Hc.
    + destruct (parse_all rest) as [vs|].
      * split; [discriminate|]. intros (k' & c' & e' & Hin & He').
        apply elem_of_cons in Hin as [[= -> ->]|Hin]; [congruence|].
        assert (Some vs = None) as Hn by (apply IH; eauto).
        discriminate.
      * split; [|reflexivity]. intros _.
        destruct (proj1 IH eq_refl) as (k' & c' & e' & Hin & He').
        exists k', c', e'. split; [apply elem_of_cons; auto | exact He'].
    + split; [|reflexivity]. intros _. exists k, c, e.
      split; [apply elem_of_cons; auto | exact Hc].
Qed.

Lemma calc_loop_failure all balance locked :
  parse_all all = None → ∃ e, calc_loop all balance locked = Failure e.
Proof.
  revert balance locked.
  induction all as [|[k c] rest IH]; intros balance locked; simpl.
  - discriminate.
  - destruct (ParseVirtualChannelCond c) as [vch|e]; [|eauto].
    destruct (parse_all rest) as [vs|]; [discriminate|].
    intros _. apply IH. reflexivity.
Qed.

(** The side whose balance [CalcBalance] computes. *)
Definition balance_side (ch : Channel) (isTheir : bool) : Side :=
  if isTheir then Their ch else Our ch.

(** What [CalcBalance] returned, read back: the conditions of the side
    parse, and the pair is the one computed from them. *)
Lemma CalcBalance_inv ch isTheir b l :
  CalcBalance ch isTheir = Success (b, l) →
  ∃ vs, parse_all (map_to_list (Conditionals (balance_side ch isTheir)))
        = Some vs
        ∧ let '(s1, s1chain, s2) := sides ch isTheir in
          b = spec_balance s1 s1chain s2 vs ∧ l = code_locked s1 s1chain vs.
Proof.
  intros Hbal.
  destruct (parse_all (map_to_list (Conditionals (balance_side ch isTheir))))
    as [vs|] eqn:Hp.
  - exists vs. split; [reflexivity|].
    pose proof (CalcBalance_value ch isTheir vs) as Hv.
    unfold sides, balance_side in *. destruct isTheir.
    + rewrite (Hv Hp) in Hbal. injection Hbal as <- <-. auto.
    + rewrite (Hv Hp) in Hbal. injection Hbal as <- <-. auto.
  - exfalso. unfold CalcBalance, balance_side in *.
    destruct isTheir; case_bool_decide as Hempty.
    all: try (rewrite Hempty, map_to_list_empty in Hp; discriminate).
    all: match type of Hbal with
         | calc_loop ?all ?b0 ?l0 = _ =>
             destruct (calc_loop_failure all b0 l0 Hp) as [e He]
         end; congruence.
Qed.

(** X1.  [CalcBalance] returns an error exactly when one of the conditions
    stored on the side it is asked about does not parse; an empty
    dictionary never fails. *)
Theorem CalcBalance_fails_iff (ch : Channel) (isTheir : bool) :
  (∃ e, CalcBalance ch isTheir = Failure e) ↔
  (∃ k c e, Conditionals (balance_side ch isTheir) !! k = Some c
            ∧ ParseVirtualChannelCond c = Failure e).
Proof.
  split.
  - intros [e He].
    destruct (parse_all (map_to_list (Conditionals (balance_side ch isTheir))))
      as [vs|] eqn:Hp.
    + exfalso. pose proof (CalcBalance_value ch isTheir vs) as Hv.
      unfold sides, balance_side in *.
      destruct isTheir; rewrite (Hv Hp) in He; discriminate.
    + apply parse_all_None in Hp as (k & c & e' & Hin & Hc).
      apply elem_of_map_to_list in Hin. eauto.
  - intros (k & c & e & Hk & Hc).
    assert (parse_all (map_to_list (Conditionals (balance_side ch isTheir)))
            = None) as Hp.
    { apply parse_all_None. exists k, c, e.
      split; [apply elem_of_map_to_list; exact Hk | exact Hc]. }
    unfold CalcBalance, balance_side in *.
    destruct isTheir; case_bool_decide as Hempty.
    all: try (rewrite Hempty, lookup_empty in Hk; discriminate).
    all: apply calc_loop_failure; exact Hp.
Qed.

(** X2.  The funds of a channel are conserved: with non-negative withdrawn
    amounts and, on each side, no pending withdraw or one that is not
    below the withdrawn amount, the balances and the locked amounts of
    the two sides add up to what was deposited minus what was
    withdrawn, whatever was sent in either direction and whatever
    conditions are open. *)
Theorem CalcBalance_conservation (ch : Channel) (bo lo bt lt : Z) :
  0 <= Withdrawn (OurOnchain ch) → 0 <= Withdrawn (TheirOnchain ch) →
  PendingWithdraw (Our ch) = 0
    ∨ Withdrawn (OurOnchain ch) <= PendingWithdraw (Our ch) →
  PendingWithdraw (Their ch) = 0
    ∨ Withdrawn (TheirOnchain ch) <= PendingWithdraw (Their ch) →
  CalcBalance ch false = Success (bo, lo) →
  CalcBalance ch true = Success (bt, lt) →
  (bo + lo) + (bt + lt) =
  (Deposited (OurOnchain ch) - Withdrawn (OurOnchain ch))
  + (Deposited (TheirOnchain ch) - Withdrawn (TheirOnchain ch)).
Proof.
  intros Hwo Hwt Hpo Hpt Ho Ht.
  apply CalcBalance_inv in Ho as (vso & _ & -> & ->).
  apply CalcBalance_inv in Ht as (vst & _ & -> & ->).
  unfold spec_balance, code_locked.
  repeat match goal with
         | |- context [?a <? ?b] => destruct (Z.ltb_spec a b)
         end; lia.
Qed.

End balance_accounting.

Section balance_accounting_examples.
Import payments db tonpayments samples.

Lemma CalcBalance_conservation_witness :
  CalcBalance channel_with_cond false = Success (999999900, 100)
  ∧ CalcBalance channel_with_cond true = Success (1000000000, 0)
  ∧ (999999900 + 100) + (1000000000 + 0)
    = (1000000000 - 0) + (1000000000 - 0).
Proof.
  assert (Ho : CalcBalance channel_with_cond false = Success (999999900, 100))
    by (vm_compute; reflexivity).
  assert (Ht : CalcBalance channel_with_cond true = Success (1000000000, 0))
    by (vm_compute; reflexivity).
  split; [exact Ho|]. split; [exact Ht|].
  apply (CalcBalance_conservation channel_with_cond 999999900 100 1000000000 0).
  - simpl. lia.
  - simpl. lia.
  - left. reflexivity.
  - left. reflexivity.
  - exact Ho.
  - exact Ht.
Defined.

End balance_accounting_examples.

(** ** The state engine: what an application leaves alone *)
Section state_frame.
Import db payments tonpayments.
Context `{!TonLib}.

(** [channel.Our = side] *)
Definition setOur (channel : Channel) (side : Side) : Channel :=
  mkChannel (ChanID channel) (Address channel) (ExtraCurrencyID channel)
    (JettonAddress channel) (Status channel) (WeLeft channel)
    (OurOnchain channel) (TheirOnchain channel)
    (SafeOnchainClosePeriod channel) (AcceptingActions channel)
    (WebPeer channel) side (Their channel) (InitAt channel)
    (ChanCreatedAt channel) (LastProcessedLT channel) (DBVersion channel).

(** Channel [ch'] is channel [ch] except for the body and the
    signature of our signed state and for our conditions. *)
Definition only_our_state (ch ch' : Channel) : Prop :=
  ch' = setOur ch (Our ch')
  ∧ PendingWithdraw (Our ch') = PendingWithdraw (Our ch)
  ∧ ChannelID (State (Signed (Our ch'))) = ChannelID (State (Signed (Our ch)))
  ∧ CounterpartyData (State (Signed (Our ch')))
    = CounterpartyData (State (Signed (Our ch))).

Lemma only_our_state_refl ch : only_our_state ch ch.
Proof. destruct ch. repeat split. Qed.

Lemma only_our_state_trans ch1 ch2 ch3 :
  only_our_state ch1 ch2 → only_our_state ch2 ch3 → only_our_state ch1 ch3.
Proof.
  intros (H1 & Hp1 & Hi1 & Hc1) (H2 & Hp2 & Hi2 & Hc2).
  split; [|split; [congruence|split; congruence]].
  rewrite H2 at 1. rewrite H1. reflexivity.
Qed.

Lemma only_our_state_setConditionals ch d :
  only_our_state ch (setConditionals ch d).
Proof. destruct ch. repeat split. Qed.

Lemma only_our_state_setSigned ch sg :
  ChannelID (State sg) = ChannelID (State (Signed (Our ch))) →
  CounterpartyData (State sg) = CounterpartyData (State (Signed (Our ch))) →
  only_our_state ch (setSigned ch sg).
Proof. destruct ch. intros Hi Hc. repeat split; assumption. Qed.

Lemma only_our_state_setSent ch v : only_our_state ch (setSent ch v).
Proof. apply only_our_state_setSigned; reflexivity. Qed.

Lemma only_our_state_fields ch ch' :
  only_our_state ch ch' →
  Their ch' = Their ch ∧ OurOnchain ch' = OurOnchain ch
  ∧ TheirOnchain ch' = TheirOnchain ch
  ∧ JettonAddress ch' = JettonAddress ch
  ∧ ExtraCurrencyID ch' = ExtraCurrencyID ch.
Proof.
  intros (Heq & _). repeat split.
  - apply (f_equal Their) in Heq. exact Heq.
  - apply (f_equal OurOnchain) in Heq. exact Heq.
  - apply (f_equal TheirOnchain) in Heq. exact Heq.
  - apply (f_equal JettonAddress) in Heq. exact Heq.
  - apply (f_equal ExtraCurrencyID) in Heq. exact Heq.
Qed.

(** The condition found for a key sits under the prefix of that key,
    so the check after its deletion never finds it. *)
Lemma Find_deleted conditionals chKey root idx vch root' :
  FindVirtualChannelWithProof conditionals chKey root = (Ok (idx, vch), root') →
  LittleEndian_Uint32 (payments.Key vch) = Some idx
  ∧ delete idx conditionals !! idx = None.
Proof.
  intros Hfind. destruct (Find_key _ _ _ _ _ _ Hfind) as (-> & Hidx & _).
  split; [exact Hidx | apply lookup_delete_eq].
Qed.

(** The switch changes neither the seqno, nor the conditionals hash,
    nor the signature, and never lowers [sent]. *)
Lemma applyAction_frame cc ch action details now root ch1 sw :
  applyAction cc ch action details now root = (ch1, sw) →
  only_our_state ch ch1
  ∧ Seqno (ourBody ch1) = Seqno (ourBody ch)
  ∧ ConditionalsHash (ourBody ch1) = ConditionalsHash (ourBody ch)
  ∧ Signature (Signed (Our ch1)) = Signature (Signed (Our ch))
  ∧ Sent (ourBody ch) <= Sent (ourBody ch1).
Proof.
  intros Happ.
  assert (Hsame : only_our_state ch ch ∧ Seqno (ourBody ch) = Seqno (ourBody ch)
    ∧ ConditionalsHash (ourBody ch) = ConditionalsHash (ourBody ch)
    ∧ Signature (Signed (Our ch)) = Signature (Signed (Our ch))
    ∧ Sent (ourBody ch) <= Sent (ourBody ch)).
  { split; [apply only_our_state_refl|]. repeat split. lia. }
  assert (Hcond : ∀ d,
    only_our_state ch (setConditionals ch d)
    ∧ Seqno (ourBody (setConditionals ch d)) = Seqno (ourBody ch)
    ∧ ConditionalsHash (ourBody (setConditionals ch d))
      = ConditionalsHash (ourBody ch)
    ∧ Signature (Signed (Our (setConditionals ch d)))
      = Signature (Signed (Our ch))
    ∧ Sent (ourBody ch) <= Sent (ourBody (setConditionals ch d))).
  { intros d. split; [apply only_our_state_setConditionals|].
    repeat split. unfold ourBody. simpl. lia. }
  assert (Hsent : ∀ d v, Sent (ourBody ch) <= v →
    only_our_state ch (setSent (setConditionals ch d) v)
    ∧ Seqno (ourBody (setSent (setConditionals ch d) v)) = Seqno (ourBody ch)
    ∧ ConditionalsHash (ourBody (setSent (setConditionals ch d) v))
      = ConditionalsHash (ourBody ch)
    ∧ Signature (Signed (Our (setSent (setConditionals ch d) v)))
      = Signature (Signed (Our ch))
    ∧ Sent (ourBody ch) <= Sent (ourBody (setSent (setConditionals ch d) v))).
  { intros d v Hv. split.
    - eapply only_our_state_trans;
        [apply only_our_state_setConditionals | apply only_our_state_setSent].
    - repeat split. exact Hv. }
  unfold applyAction in Happ.
  destruct action as [| |chKey prepayAmount|chKey|chKey chState|ty].
  - injection Happ as <- _. exact Hsame.
  - repeat case_match; simplify_eq/=; first [exact Hsame | apply Hcond].
  - destruct (FindVirtualChannelWithProof _ _ _) as [[[idx vch]| |] root'];
      [|injection Happ as <- _; exact Hsame..].
    destruct (Z.ltb_spec (SetBytes prepayAmount - Prepay vch) 0);
      [injection Happ as <- _; exact Hsame|].
    destruct (SetBytes prepayAmount - Prepay vch =? 0);
      [injection Happ as <- _; exact Hsame|].
    destruct (LittleEndian_Uint32 _);
      [|injection Happ as <- _; exact Hsame].
    injection Happ as <- _. apply Hsent.
    unfold MustFromNano, SentNano, ourBody. simpl. lia.
  - destruct (FindVirtualChannelWithProof _ _ _) as [[[idx vch]| |] root'].
    + repeat case_match; simplify_eq/=; apply Hcond.
    + case_match; injection Happ as <- _; exact Hsame.
    + injection Happ as <- _; exact Hsame.
  - destruct (VirtualChannelState_Load chState) as [vState|];
      [|injection Happ as <- _; exact Hsame].
    destruct (negb _); [injection Happ as <- _; exact Hsame|].
    destruct (FindVirtualChannelWithProof _ _ _) as [[[idx vch]| |] root'].
    + destruct (Deadline vch <? now); [injection Happ as <- _; exact Hsame|].
      destruct (LittleEndian_Uint32 _); [|injection Happ as <- _; apply Hcond].
      destruct (_ !! _); [injection Happ as <- _; apply Hcond|].
      destruct (Z.ltb_spec 0 (Amount vState - Prepay vch + Fee vch));
        injection Happ as <- _; [|apply Hcond].
      apply Hsent. unfold MustFromNano, SentNano, ourBody. simpl. lia.
    + case_match; injection Happ as <- _; exact Hsame.
    + injection Happ as <- _; exact Hsame.
  - injection Happ as <- _. exact Hsame.
Qed.

(** The part after the switch keeps the conditions and [sent]. *)
Lemma finish_frame s ch idem root cb :
  only_our_state ch (finish s ch idem root cb).1
  ∧ Conditionals (Our (finish s ch idem root cb).1) = Conditionals (Our ch)
  ∧ Sent (ourBody (finish s ch idem root cb).1) = Sent (ourBody ch).
Proof.
  unfold finish. destruct idem; simpl; case_bool_decide; simpl.
  1,2: split; [apply only_our_state_refl | split; reflexivity].
  all: split; [apply only_our_state_setSigned; reflexivity | split; reflexivity].
Qed.

Lemma update_frame s ch action details now :
  let ch' := (updateOurStateWithAction s ch action details now).1 in
  only_our_state ch ch' ∧ Sent (ourBody ch) <= Sent (ourBody ch').
Proof.
  unfold updateOurStateWithAction.
  destruct (ResolveCoinConfig s _ _ _) as [cc|]; simpl.
  2:{ split; [apply only_our_state_refl | lia]. }
  destruct (applyAction cc ch action details now [])
    as [ch1 sw] eqn:Happ.
  destruct (applyAction_frame _ _ _ _ _ _ _ _ Happ) as (Hf & _ & _ & _ & Hs).
  destruct sw as [err|msg|idem root cb]; simpl; [auto..|].
  destruct (finish_frame s ch1 idem root cb) as (Hf' & _ & Hs').
  split; [eapply only_our_state_trans; eassumption|].
  rewrite Hs'. exact Hs.
Qed.

(** X3.  Whatever the action and the outcome (success, error, panic),
    [updateOurStateWithAction] touches only the body and the signature
    of our signed state and our conditions: the counterparty's side,
    both on-chain states, the channel id, the counterparty data of our
    state, our pending withdraw, the status and every other field of
    the channel are as before. *)
Theorem updateOurState_frame (s : Service) (ch : Channel) (action : Action)
    (details : option VirtualChannel) (now : Z) :
  only_our_state ch (updateOurStateWithAction s ch action details now).1.
Proof. apply update_frame. Qed.

(** X4.  [sent] never decreases, whatever the action and the outcome: "we
    cannot decrease sent, even when we prepaid more than actual". *)
Theorem updateOurState_sent_monotone (s : Service) (ch : Channel)
    (action : Action) (details : option VirtualChannel) (now : Z) :
  Sent (ourBody ch)
  <= Sent (ourBody (updateOurStateWithAction s ch action details now).1).
Proof. apply update_frame. Qed.

(** X5.  An action that is rejected with an error leaves the channel as it
    was, with one exception: an [OpenVirtual] that is rejected by the
    balance check leaves the new condition in the conditions of the
    caller's channel (seqno, hash and signature are the old ones). *)
Theorem updateOurState_rejected (s : Service) (ch : Channel) (action : Action)
    (details : option VirtualChannel) (now : Z) (ch' : Channel) (e : error) :
  updateOurStateWithAction s ch action details now = (ch', Err e) →
  ch' = ch
  ∨ ∃ vch idx,
      action = OpenVirtualAction ∧ details = Some vch
      ∧ LittleEndian_Uint32 (payments.Key vch) = Some idx
      ∧ Conditionals (Our ch) !! idx = None
      ∧ target_balance_fails ch idx vch
      ∧ ch' = setConditionals ch
                (<[idx := VirtualChannel_Serialize vch]> (Conditionals (Our ch))).
Proof.
  unfold updateOurStateWithAction, target_balance_fails. intros Hupd.
  destruct (ResolveCoinConfig s _ _ _) as [cc|].
  2:{ injection Hupd as <- _. auto. }
  destruct (applyAction cc ch action details now [])
    as [ch1 [err|msg|idem root cb]] eqn:Happ; [|discriminate|].
  2:{ exfalso. unfold finish in Hupd. case_bool_decide; discriminate. }
  injection Hupd as <- <-.
  unfold applyAction in Happ.
  destruct action as [| |chKey prepayAmount|chKey|chKey chState|ty].
  - discriminate.
  - destruct details as [vch|]; [|discriminate].
    destruct (Capacity vch <=? 0); [injection Happ as <- _; auto|].
    destruct (Fee vch <? 0); [injection Happ as <- _; auto|].
    destruct (Prepay vch <? 0); [injection Happ as <- _; auto|].
    destruct (Deadline vch <? now); [injection Happ as <- _; auto|].
    destruct (LittleEndian_Uint32 _) as [idx|] eqn:Hidx; [|discriminate].
    destruct (Conditionals (Our ch) !! idx) as [sl|] eqn:Hsl.
    { destruct (String.eqb _ _); [discriminate|]. injection Happ as <- _; auto. }
    right. exists vch, idx.
    destruct (CalcBalance _ false) as [[b l]|] eqn:Hbal.
    + destruct (Z.ltb_spec b 0); [|discriminate].
      injection Happ as <- _. repeat split; auto.
    + injection Happ as <- _. repeat split; auto.
  - left.
    destruct (FindVirtualChannelWithProof _ _ _) as [[[idx vch]| |] root'];
      [|injection Happ as <- _; reflexivity|discriminate].
    repeat case_match; simplify_eq/=; reflexivity.
  - left.
    destruct (FindVirtualChannelWithProof _ _ _) as [[[idx vch]| |] root']
      eqn:Hfind.
    + destruct (Find_deleted _ _ _ _ _ _ Hfind) as [Hidx Hgone].
      rewrite Hidx in Happ. simpl in Happ. rewrite Hgone in Happ.
      discriminate.
    + case_match; [discriminate|]. injection Happ as <- _; reflexivity.
    + discriminate.
  - left.
    destruct (VirtualChannelState_Load chState) as [vState|];
      [|injection Happ as <- _; reflexivity].
    destruct (negb _); [injection Happ as <- _; reflexivity|].
    destruct (FindVirtualChannelWithProof _ _ _) as [[[idx vch]| |] root']
      eqn:Hfind.
    + destruct (Deadline vch <? now); [injection Happ as <- _; reflexivity|].
      destruct (Find_deleted _ _ _ _ _ _ Hfind) as [Hidx Hgone].
      rewrite Hidx in Happ. simpl in Happ. rewrite Hgone in Happ.
      discriminate.
    + case_match; [discriminate|]. injection Happ as <- _; reflexivity.
    + discriminate.
  - injection Happ as <- _. auto.
Qed.

End state_frame.

(** ** The state engine: the effect of an action on the balances *)
Section state_balance.
Import db payments tonpayments.
Context `{!TonLib}.

(** The total of the conditions does not depend on the order in which
    the dictionary is listed. *)
Lemma parse_all_perm l l' vs :
  l ≡ₚ l' → parse_all l = Some vs →
  ∃ vs', parse_all l' = Some vs' ∧ conds_total vs' = conds_total vs.
Proof.
  intros Hperm. revert vs.
  induction Hperm as [|[k c] l l' Hperm IH|[k1 c1] [k2 c2] l|l1 l2 l3 H12 IH1 H23 IH2];
    intros vs Hp.
  - eauto.
  - simpl in *. destruct (ParseVirtualChannelCond c) as [v|]; [|discriminate].
    destruct (parse_all l) as [vs0|]; [|discriminate].
    injection Hp as <-. destruct (IH vs0 eq_refl) as (vs' & -> & Ht).
    eexists. split; [reflexivity|]. simpl. lia.
  - simpl in *.
    destruct (ParseVirtualChannelCond c1) as [v1|];
      destruct (ParseVirtualChannelCond c2) as [v2|]; try discriminate.
    all: destruct (parse_all l) as [vs0|]; try discriminate.
    injection Hp as <-. eexists. split; [reflexivity|]. simpl. lia.
  - destruct (IH1 vs Hp) as (vs2 & Hp2 & Ht2).
    destruct (IH2 vs2 Hp2) as (vs3 & Hp3 & Ht3).
    exists vs3. split; [exact Hp3 | lia].
Qed.

(** The parsed conditions of a dictionary with one entry taken out. *)
Lemma parse_all_lookup (d : gmap Z Cell) k c vs :
  d !! k = Some c → parse_all (map_to_list d) = Some vs →
  ∃ v vs0, ParseVirtualChannelCond c = Success v
           ∧ parse_all (map_to_list (delete k d)) = Some vs0
           ∧ conds_total vs = cond_amount v + conds_total vs0.
Proof.
  intros Hk Hp.
  destruct (parse_all_perm _ ((k, c) :: map_to_list (delete k d)) vs
              (symmetry (map_to_list_delete d k c Hk)) Hp) as (vs' & Hp' & Ht).
  simpl in Hp'. destruct (ParseVirtualChannelCond c) as [v|]; [|discriminate].
  destruct (parse_all (map_to_list (delete k d))) as [vs0|]; [|discriminate].
  injection Hp' as <-. exists v, vs0. simpl in Ht. repeat split. lia.
Qed.

Lemma parse_all_insert (d : gmap Z Cell) k c v vs0 :
  ParseVirtualChannelCond c = Success v →
  parse_all (map_to_list (delete k d)) = Some vs0 →
  ∃ vs, parse_all (map_to_list (<[k := c]> d)) = Some vs
        ∧ conds_total vs = cond_amount v + conds_total vs0.
Proof.
  intros Hc Hp.
  apply (parse_all_perm ((k, c) :: map_to_list (delete k d)) _ (v :: vs0)).
  - rewrite <- (insert_delete_eq d). symmetry.
    apply map_to_list_insert, lookup_delete_eq.
  - simpl. rewrite Hc, Hp. reflexivity.
Qed.

(** The balance of our side on a channel that differs only in our
    state: it moves by what [sent] and the total of the conditions
    moved, the locked amount by the total of the conditions. *)
Lemma CalcBalance_our_moved ch ch' vs vs' b l :
  only_our_state ch ch' →
  parse_all (map_to_list (Conditionals (Our ch))) = Some vs →
  parse_all (map_to_list (Conditionals (Our ch'))) = Some vs' →
  CalcBalance ch false = Success (b, l) →
  CalcBalance ch' false =
  Success (b - (Sent (ourBody ch') - Sent (ourBody ch))
             - (conds_total vs' - conds_total vs),
           l + (conds_total vs' - conds_total vs)).
Proof.
  intros Hf Hp Hp' Hb.
  destruct (only_our_state_fields _ _ Hf) as (HT & HO & _).
  destruct Hf as (_ & Hpw & _).
  pose proof (CalcBalance_value ch false vs Hp) as Hv. simpl in Hv.
  pose proof (CalcBalance_value ch' false vs' Hp') as Hv'. simpl in Hv'.
  rewrite Hv in Hb. injection Hb as <- <-. rewrite Hv'.
  unfold spec_balance, code_locked, SentNano, ourBody. rewrite HT, HO, Hpw.
  f_equal. f_equal; lia.
Qed.

(** X6.  The balance of the counterparty gains exactly what we added to
    [sent], whatever the action and the outcome; its locked amount is
    as before. *)
Theorem updateOurState_their_balance (s : Service) (ch : Channel)
    (action : Action) (details : option VirtualChannel) (now : Z) (b l : Z) :
  CalcBalance ch true = Success (b, l) →
  let ch' := (updateOurStateWithAction s ch action details now).1 in
  CalcBalance ch' true =
  Success (b + (Sent (ourBody ch') - Sent (ourBody ch)), l).
Proof.
  intros Hb ch'.
  destruct (update_frame s ch action details now) as [Hf _]. fold ch' in Hf.
  destruct (only_our_state_fields _ _ Hf) as (HT & _ & HTO & _).
  apply CalcBalance_inv in Hb as (vs & Hp & -> & ->).
  unfold balance_side in Hp.
  pose proof (CalcBalance_value ch' true vs) as Hv. simpl in Hv.
  rewrite HT in Hv. rewrite (Hv Hp).
  unfold spec_balance, code_locked, SentNano, ourBody. rewrite ?HT, ?HTO.
  f_equal. f_equal; lia.
Qed.

(** X7.  An [OpenVirtual] that succeeds on a channel which does not hold a
    condition under the key prefix yet: the condition is stored, our
    balance goes down by capacity + fee - prepay, our locked amount
    goes up by the same, and the balance left is not negative. *)
Theorem OpenVirtual_balance (s : Service) (ch ch' : Channel)
    (vch : VirtualChannel) (now idx : Z) (r : OnSuccess * Cell * option Cell) :
  cond_roundtrip →
  LittleEndian_Uint32 (payments.Key vch) = Some idx →
  Conditionals (Our ch) !! idx = None →
  updateOurStateWithAction s ch OpenVirtualAction (Some vch) now = (ch', Ok r) →
  Conditionals (Our ch')
    = <[idx := VirtualChannel_Serialize vch]> (Conditionals (Our ch))
  ∧ ∃ b l,
      CalcBalance ch false = Success (b, l)
      ∧ CalcBalance ch' false
        = Success (b - cond_amount vch, l + cond_amount vch)
      ∧ 0 <= b - cond_amount vch.
Proof.
  intros Hrt Hidx Hnone Hupd.
  pose proof (update_frame s ch OpenVirtualAction (Some vch) now) as [Hf _].
  rewrite Hupd in Hf. simpl in Hf.
  assert (Hs : Sent (ourBody ch') = Sent (ourBody ch)
               ∧ Conditionals (Our ch')
                 = <[idx := VirtualChannel_Serialize vch]> (Conditionals (Our ch))
               ∧ ∃ b' l', CalcBalance
                            (setConditionals ch
                               (<[idx := VirtualChannel_Serialize vch]>
                                  (Conditionals (Our ch)))) false
                          = Success (b', l') ∧ 0 <= b').
  { unfold updateOurStateWithAction in Hupd.
    destruct (ResolveCoinConfig s _ _ _) as [cc|]; [|discriminate].
    unfold applyAction in Hupd. rewrite Hidx, Hnone in Hupd.
    destruct (Capacity vch <=? 0); [discriminate|].
    destruct (Fee vch <? 0); [discriminate|].
    destruct (Prepay vch <? 0); [discriminate|].
    destruct (Deadline vch <? now); [discriminate|].
    destruct (CalcBalance _ false) as [[b' l']|] eqn:Hbal; [|discriminate].
    destruct (Z.ltb_spec b' 0); [discriminate|].
    match type of Hupd with
    | finish s ?c false ?root ?cb = _ =>
        destruct (finish_frame s c false root cb) as (_ & Hc & Hsent);
        rewrite Hupd in Hc, Hsent
    end.
    simpl in Hc, Hsent. split; [exact Hsent|]. split; [exact Hc|].
    exists b', l'. split; [reflexivity | assumption]. }
  destruct Hs as (Hsent & Hc & b' & l' & Hbal & Hb').
  split; [exact Hc|].
  apply CalcBalance_inv in Hbal as (vs' & Hp' & Hb & Hl).
  unfold balance_side in Hp'. simpl in Hp', Hb, Hl.
  destruct (parse_all_lookup _ idx _ vs' (lookup_insert_eq _ _ _) Hp')
    as (v & vs & Hv & Hp & Ht).
  rewrite Hrt in Hv. injection Hv as <-.
  rewrite delete_insert_id in Hp by exact Hnone.
  pose proof (CalcBalance_value ch false vs Hp) as Hbal0. simpl in Hbal0.
  exists (spec_balance (Our ch) (OurOnchain ch) (Their ch) vs),
         (code_locked (Our ch) (OurOnchain ch) vs).
  split; [exact Hbal0|].
  rewrite <- Hc in Hp'.
  rewrite (CalcBalance_our_moved ch ch' vs vs' _ _ Hf Hp Hp' Hbal0).
  rewrite Hsent. split.
  - f_equal. f_equal; lia.
  - subst b'. unfold spec_balance, SentNano in *. simpl in Hb'. lia.
Qed.

(** X8.  A [CommitVirtual] that succeeds: the stored condition carries the
    new prepay, which is not below the old one, [sent] grows by the
    difference, our balance is as before and our locked amount goes
    down by the difference. *)
Theorem CommitVirtual_balance (s : Service) (ch ch' : Channel)
    (chKey prepayAmount : bytes) (details : option VirtualChannel) (now idx : Z)
    (vch : VirtualChannel) (root : list Z) (b l : Z)
    (r : OnSuccess * Cell * option Cell) :
  cond_roundtrip →
  FindVirtualChannelWithProof (Conditionals (Our ch)) chKey [] =
    (Ok (idx, vch), root) →
  CalcBalance ch false = Success (b, l) →
  updateOurStateWithAction s ch (CommitVirtualAction chKey prepayAmount)
    details now = (ch', Ok r) →
  let paid := SetBytes prepayAmount - Prepay vch in
  0 <= paid
  ∧ Sent (ourBody ch') = Sent (ourBody ch) + paid
  ∧ FindVirtualChannelWithProof (Conditionals (Our ch')) chKey [] =
      (Ok (idx, mkVirtualChannel (payments.Key vch) (Capacity vch) (Fee vch)
                  (SetBytes prepayAmount) (Deadline vch)), root)
  ∧ CalcBalance ch' false = Success (b, l - paid).
Proof.
  intros Hrt Hfind Hbal Hupd paid.
  pose proof (update_frame s ch (CommitVirtualAction chKey prepayAmount)
                details now) as [Hf _].
  rewrite Hupd in Hf. simpl in Hf.
  destruct (Find_key _ _ _ _ _ _ Hfind) as (Hkey & Hidx & sl & Hsl & Hparse).
  set (vch' := mkVirtualChannel (payments.Key vch) (Capacity vch) (Fee vch)
                 (SetBytes prepayAmount) (Deadline vch)).
  assert (Hs : 0 <= paid
    ∧ Sent (ourBody ch') = Sent (ourBody ch) + paid
    ∧ (paid = 0 ∧ Conditionals (Our ch') = Conditionals (Our ch)
       ∨ Conditionals (Our ch')
         = <[idx := VirtualChannel_Serialize vch']> (Conditionals (Our ch)))).
  { unfold updateOurStateWithAction in Hupd.
    destruct (ResolveCoinConfig s _ _ _) as [cc|]; [|discriminate].
    unfold applyAction in Hupd. rewrite Hfind in Hupd. fold paid in Hupd.
    destruct (Z.ltb_spec paid 0); [discriminate|].
    destruct (Z.eqb_spec paid 0) as [Hz|Hne].
    - destruct (finish_idempotent s ch root NoCallback) as [r' Hfin].
      rewrite Hfin in Hupd. injection Hupd as <- _.
      split; [lia|]. split; [lia|]. left. auto.
    - rewrite Hkey, Hidx in Hupd.
      match type of Hupd with
      | finish s ?c false ?root ?cb = _ =>
          destruct (finish_frame s c false root cb) as (_ & Hc & Hsent);
          rewrite Hupd in Hc, Hsent
      end.
      simpl in Hc, Hsent. split; [lia|]. split.
      + rewrite Hsent. unfold MustFromNano, SentNano, ourBody. reflexivity.
      + right. rewrite Hc. subst vch'. rewrite Hkey. reflexivity. }
  destruct Hs as (Hpaid & Hsent & Hc).
  split; [exact Hpaid|]. split; [exact Hsent|].
  apply CalcBalance_inv in Hbal as (vs & Hp & Hb & Hl).
  unfold balance_side in Hp. simpl in Hb, Hl.
  pose proof (CalcBalance_value ch false vs Hp) as Hbal0. simpl in Hbal0.
  destruct (parse_all_lookup _ idx _ vs Hsl Hp) as (v & vs0 & Hv & Hp0 & Ht).
  rewrite Hparse in Hv. injection Hv as <-.
  destruct Hc as [[Hz Hc]|Hc].
  - split.
    + rewrite Hc, Hfind. do 2 f_equal. f_equal. subst vch'.
      destruct vch as [k c f p dl]. simpl in *. f_equal. subst paid. simpl in Hz.
      lia.
    + assert (Hp' : parse_all (map_to_list (Conditionals (Our ch'))) = Some vs)
        by (rewrite Hc; exact Hp).
      rewrite (CalcBalance_our_moved ch ch' vs vs _ _ Hf Hp Hp' Hbal0).
      subst b l. rewrite Hsent. f_equal. f_equal; lia.
  - split.
    + unfold FindVirtualChannelWithProof in *. rewrite Hidx in *.
      rewrite Hc, lookup_insert_eq, Hrt. simpl. rewrite Hkey, String.eqb_refl.
      rewrite Hsl, Hparse, Hkey, String.eqb_refl in Hfind.
      injection Hfind as <-. reflexivity.
    + destruct (parse_all_insert (Conditionals (Our ch)) idx
                  (VirtualChannel_Serialize vch') vch' vs0 (Hrt vch') Hp0)
        as (vs' & Hp' & Ht').
      rewrite <- Hc in Hp'.
      rewrite (CalcBalance_our_moved ch ch' vs vs' _ _ Hf Hp Hp' Hbal0).
      subst b l. rewrite Hsent, Ht, Ht'. unfold cond_amount. subst vch' paid.
      simpl. f_equal. f_equal; lia.
Qed.

(** X9.  A [RemoveVirtual] or a [ConfirmClose] of a stored condition that
    succeeds: the condition is gone from our conditions, its amount
    (capacity + fee - prepay) leaves our locked amount, and our balance
    gets it back less what the close adds to [sent] (nothing for a
    removal, [max(0, amount - prepay + fee)] for a close). *)
Theorem release_balance (s : Service) (ch ch' : Channel) (action : Action)
    (chKey : bytes) (details : option VirtualChannel) (now idx : Z)
    (vch : VirtualChannel) (root : list Z) (b l : Z)
    (r : OnSuccess * Cell * option Cell) :
  (action = RemoveVirtualAction chKey
   ∨ ∃ chState, action = ConfirmCloseAction chKey chState) →
  FindVirtualChannelWithProof (Conditionals (Our ch)) chKey [] =
    (Ok (idx, vch), root) →
  CalcBalance ch false = Success (b, l) →
  updateOurStateWithAction s ch action details now = (ch', Ok r) →
  Conditionals (Our ch') = delete idx (Conditionals (Our ch))
  ∧ absent (Conditionals (Our ch')) chKey
  ∧ Sent (ourBody ch') = Sent (ourBody ch) + delta_sent ch action
  ∧ CalcBalance ch' false =
    Success (b + cond_amount vch - delta_sent ch action, l - cond_amount vch).
Proof.
  intros Hact Hfind Hbal Hupd.
  pose proof (update_frame s ch action details now) as [Hf _].
  rewrite Hupd in Hf. simpl in Hf.
  destruct (Find_key _ _ _ _ _ _ Hfind) as (Hkey & Hidx & sl & Hsl & Hparse).
  destruct (Find_deleted _ _ _ _ _ _ Hfind) as [Hidx' Hgone].
  assert (Hs : Conditionals (Our ch') = delete idx (Conditionals (Our ch))
               ∧ Sent (ourBody ch') = Sent (ourBody ch) + delta_sent ch action).
  { unfold updateOurStateWithAction in Hupd.
    destruct (ResolveCoinConfig s _ _ _) as [cc|]; [|discriminate].
    destruct (applyAction cc ch action details now [])
      as [ch1 [err|msg|idem root1 cb]] eqn:Happ; [discriminate..|].
    assert (idem = false ∧ Conditionals (Our ch1)
                            = delete idx (Conditionals (Our ch))) as [-> Hc1].
    { unfold applyAction in Happ.
      destruct Hact as [->|[chState ->]].
      - rewrite Hfind, Hidx' in Happ. simpl in Happ.
        rewrite Hgone in Happ. injection Happ as <- <- _ _. auto.
      - destruct (VirtualChannelState_Load chState); [|discriminate].
        destruct (negb _); [discriminate|].
        rewrite Hfind, Hidx' in Happ.
        destruct (Deadline vch <? now); [discriminate|].
        simpl in Happ. rewrite Hgone in Happ.
        injection Happ as <- <- _ _. split; [reflexivity|].
        destruct (0 <? _); reflexivity. }
    pose proof (applyAction_sent _ _ _ _ _ _ _ _ Happ) as Hd.
    destruct (finish_frame s ch1 false root1 cb) as (_ & Hc & Hsent).
    rewrite Hupd in Hc, Hsent. simpl in Hc, Hsent.
    split; congruence. }
  destruct Hs as [Hc Hsent].
  split; [exact Hc|]. split.
  { apply absent_lookup with (idx := idx); [exact Hidx|].
    rewrite Hc. apply lookup_delete_eq. }
  split; [exact Hsent|].
  apply CalcBalance_inv in Hbal as (vs & Hp & Hb & Hl).
  unfold balance_side in Hp. simpl in Hb, Hl.
  pose proof (CalcBalance_value ch false vs Hp) as Hbal0. simpl in Hbal0.
  destruct (parse_all_lookup _ idx _ vs Hsl Hp) as (v & vs0 & Hv & Hp0 & Ht).
  rewrite Hparse in Hv. injection Hv as <-.
  rewrite <- Hc in Hp0.
  rewrite (CalcBalance_our_moved ch ch' vs vs0 _ _ Hf Hp Hp0 Hbal0).
  subst b l. rewrite Hsent, Ht. f_equal. f_equal; lia.
Qed.

End state_balance.

(** ** The state engine: an increment of the states *)
Section increment.
Import db payments tonpayments.
Context `{!TonLib}.

Lemma CalcBalance_setSigned ch sg isTheir :
  Sent (payments.Data (State sg)) = SentNano (Our ch) →
  CalcBalance (setSigned ch sg) isTheir = CalcBalance ch isTheir.
Proof.
  intros Hsent. unfold CalcBalance, SentNano in *.
  destruct isTheir; simpl; rewrite Hsent; reflexivity.
Qed.

(** X10.  An [IncrementStates] never fails once the coin config of the
    channel resolves, whatever [details] and the time are; it leaves
    our conditions and [sent] as they were, so the balance and the
    locked amount of both sides are unchanged; only the seqno, the
    conditionals hash and the signature are renewed. *)
Theorem IncrementStates_effect (s : Service) (ch : Channel)
    (details : option VirtualChannel) (now : Z) (cc : CoinConfig) :
  ResolveCoinConfig s (JettonAddress ch) (ExtraCurrencyID ch) false
    = Success cc →
  ∃ ch' r,
    updateOurStateWithAction s ch IncrementStatesAction details now
      = (ch', Ok r)
    ∧ Conditionals (Our ch') = Conditionals (Our ch)
    ∧ Sent (ourBody ch') = Sent (ourBody ch)
    ∧ Seqno (ourBody ch') = uint64 (Seqno (ourBody ch) + 1)
    ∧ ∀ isTheir, CalcBalance ch' isTheir = CalcBalance ch isTheir.
Proof.
  intros Hcc. unfold updateOurStateWithAction. rewrite Hcc. simpl.
  unfold finish. simpl.
  case_bool_decide; eexists _, _; (split; [reflexivity|]); simpl.
  all: repeat split.
  all: intros isTheir; apply CalcBalance_setSigned; reflexivity.
Qed.

End increment.

(** ** The state engine: opening and removing a condition *)
Section open_remove.
Import db payments tonpayments.
Context `{!TonLib}.

(** [CalcBalance] reads, of our side, only [sent], the conditions and
    the pending withdraw. *)
Lemma CalcBalance_same ch ch' isTheir :
  only_our_state ch ch' →
  Conditionals (Our ch') = Conditionals (Our ch) →
  Sent (ourBody ch') = Sent (ourBody ch) →
  CalcBalance ch' isTheir = CalcBalance ch isTheir.
Proof.
  intros Hf Hc Hs.
  destruct (only_our_state_fields _ _ Hf) as (HT & HO & HTO & _).
  destruct Hf as (_ & Hpw & _).
  unfold CalcBalance, SentNano, ourBody in *.
  destruct isTheir; rewrite ?HT, ?HO, ?HTO, ?Hc, ?Hs, ?Hpw; reflexivity.
Qed.

(** The state after a successful application that is not idempotent:
    the part after the switch keeps the conditions and [sent] and
    increments the seqno. *)
Lemma update_applied s ch action details now ch' r cc ch1 root cb :
  ResolveCoinConfig s (JettonAddress ch) (ExtraCurrencyID ch) false
    = Success cc →
  applyAction cc ch action details now [] = (ch1, Break false root cb) →
  updateOurStateWithAction s ch action details now = (ch', Ok r) →
  only_our_state ch ch'
  ∧ Conditionals (Our ch') = Conditionals (Our ch1)
  ∧ Sent (ourBody ch') = Sent (ourBody ch1)
  ∧ Seqno (ourBody ch') = uint64 (Seqno (ourBody ch) + 1).
Proof.
  intros Hcc Happ Hupd.
  pose proof (update_frame s ch action details now) as [Hf _].
  rewrite Hupd in Hf. simpl in Hf.
  unfold updateOurStateWithAction in Hupd. rewrite Hcc, Happ in Hupd.
  destruct (finish_signed s ch1 root cb)
    as (r' & ch2 & Hfin & Hc & Hseq & Hsent & _).
  rewrite Hfin in Hupd. injection Hupd as <- _.
  destruct (applyAction_frame _ _ _ _ _ _ _ _ Happ) as (_ & Hseq1 & _).
  split; [exact Hf|]. split; [exact Hc|]. split; [exact Hsent|].
  rewrite Hseq, Hseq1. reflexivity.
Qed.

(** X11.  Opening a condition and removing it again restores our side: after
    a successful [OpenVirtual] under a key prefix that was free, a
    [RemoveVirtual] of the key succeeds, at any time, and leaves our
    conditions, [sent] and the balances of both sides as they were
    before the condition was opened; the seqno has advanced by two. *)
Theorem OpenVirtual_then_RemoveVirtual (s : Service) (ch ch1 : Channel)
    (vch : VirtualChannel) (details : option VirtualChannel) (now now' idx : Z)
    (r1 : OnSuccess * Cell * option Cell) :
  cond_roundtrip →
  LittleEndian_Uint32 (payments.Key vch) = Some idx →
  Conditionals (Our ch) !! idx = None →
  updateOurStateWithAction s ch OpenVirtualAction (Some vch) now
    = (ch1, Ok r1) →
  ∃ ch2 r2,
    updateOurStateWithAction s ch1 (RemoveVirtualAction (payments.Key vch))
      details now' = (ch2, Ok r2)
    ∧ Conditionals (Our ch2) = Conditionals (Our ch)
    ∧ Sent (ourBody ch2) = Sent (ourBody ch)
    ∧ Seqno (ourBody ch2) = uint64 (uint64 (Seqno (ourBody ch) + 1) + 1)
    ∧ ∀ isTheir, CalcBalance ch2 isTheir = CalcBalance ch isTheir.
Proof.
  intros Hrt Hidx Hnone Hupd1.
  (* the first application *)
  destruct (ResolveCoinConfig s (JettonAddress ch) (ExtraCurrencyID ch) false)
    as [cc|] eqn:Hcc.
  2:{ unfold updateOurStateWithAction in Hupd1. rewrite Hcc in Hupd1.
      discriminate. }
  assert (Happ1 : ∃ root,
    applyAction cc ch OpenVirtualAction (Some vch) now [] =
    (setConditionals ch
       (<[idx := VirtualChannel_Serialize vch]> (Conditionals (Our ch))),
     Break false root NoCallback)).
  { unfold updateOurStateWithAction in Hupd1. rewrite Hcc in Hupd1.
    unfold applyAction in *. rewrite Hidx, Hnone in *.
    destruct (Capacity vch <=? 0); [discriminate|].
    destruct (Fee vch <? 0); [discriminate|].
    destruct (Prepay vch <? 0); [discriminate|].
    destruct (Deadline vch <? now); [discriminate|].
    destruct (CalcBalance _ false) as [[b l]|]; [|discriminate].
    destruct (b <? 0); [discriminate|]. eauto. }
  destruct Happ1 as [root1 Happ1].
  destruct (update_applied s ch _ _ _ ch1 r1 cc _ _ _ Hcc Happ1 Hupd1)
    as (Hf1 & Hc1 & Hs1 & Hseq1).
  simpl in Hc1. rewrite ourBody_setConditionals in Hs1.
  destruct (only_our_state_fields _ _ Hf1) as (_ & _ & _ & Hj & He).
  (* the second application *)
  assert (Hcc1 : ResolveCoinConfig s (JettonAddress ch1) (ExtraCurrencyID ch1)
                   false = Success cc) by (rewrite Hj, He; exact Hcc).
  assert (Happ2 :
    applyAction cc ch1 (RemoveVirtualAction (payments.Key vch)) details now' [] =
    (setConditionals ch1 (delete idx (Conditionals (Our ch1))),
     Break false [idx] (Removed vch))).
  { unfold applyAction, FindVirtualChannelWithProof.
    rewrite Hidx, Hc1, lookup_insert_eq, Hrt, String.eqb_refl, Hidx.
    simpl. rewrite lookup_delete_eq. reflexivity. }
  destruct (updateOurStateWithAction s ch1
              (RemoveVirtualAction (payments.Key vch)) details now')
    as [ch2 o] eqn:Hupd2.
  assert (∃ r2, o = Ok r2) as [r2 ->].
  { unfold updateOurStateWithAction in Hupd2. rewrite Hcc1, Happ2 in Hupd2.
    destruct (finish_signed s
                (setConditionals ch1 (delete idx (Conditionals (Our ch1))))
                [idx] (Removed vch)) as (r' & c & Hfin & _).
    rewrite Hfin in Hupd2. injection Hupd2 as _ <-. eauto. }
  destruct (update_applied s ch1 _ _ _ ch2 r2 cc _ _ _ Hcc1 Happ2 Hupd2)
    as (Hf2 & Hc2 & Hs2 & Hseq2).
  simpl in Hc2. rewrite ourBody_setConditionals in Hs2.
  assert (Hc : Conditionals (Our ch2) = Conditionals (Our ch)).
  { rewrite Hc2, Hc1. apply delete_insert_id. exact Hnone. }
  assert (Hs : Sent (ourBody ch2) = Sent (ourBody ch)) by congruence.
  exists ch2, r2. split; [reflexivity|]. split; [exact Hc|].
  split; [exact Hs|]. split; [rewrite Hseq2, Hseq1; reflexivity|].
  intros isTheir. apply CalcBalance_same; [|exact Hc|exact Hs].
  eapply only_our_state_trans; eassumption.
Qed.

End open_remove.

Section state_balance_examples.
Import db payments tonpayments samples.

(** A condition for [K] that asks for more than our side holds. *)
Definition cond_too_large : VirtualChannel :=
  mkVirtualChannel K 2000000000 0 0 300.

Lemma updateOurState_rejected_witness :
  let res := updateOurStateWithAction sample_service open_channel
               OpenVirtualAction (Some cond_too_large) 100 in
  res.2 = Err (Errorf "not enough available balance with target")
  ∧ Conditionals (Our res.1) !! idxK
    = Some (VirtualChannel_Serialize cond_too_large)
  ∧ (res.1 = open_channel
     ∨ ∃ vch idx,
         OpenVirtualAction = OpenVirtualAction ∧ Some cond_too_large = Some vch
         ∧ LittleEndian_Uint32 (payments.Key vch) = Some idx
         ∧ Conditionals (Our open_channel) !! idx = None
         ∧ target_balance_fails open_channel idx vch
         ∧ res.1 = setConditionals open_channel
                     (<[idx := VirtualChannel_Serialize vch]>
                        (Conditionals (Our open_channel)))).
Proof.
  cbv zeta. split; [vm_compute; reflexivity|].
  split; [vm_compute; reflexivity|].
  eapply (updateOurState_rejected sample_service open_channel
            OpenVirtualAction (Some cond_too_large) 100).
  vm_compute. reflexivity.
Defined.

Lemma updateOurState_their_balance_witness :
  CalcBalance
    (updateOurStateWithAction sample_service channel_with_cond
       (ConfirmCloseAction K resolve80) None 100).1 true
  = Success (1000000000 + (80 - 0), 0).
Proof.
  pose proof (updateOurState_their_balance sample_service channel_with_cond
                (ConfirmCloseAction K resolve80) None 100 1000000000 0) as Hw.
  cbv zeta in Hw.
  replace (80 - 0) with
    (Sent (ourBody (updateOurStateWithAction sample_service channel_with_cond
                      (ConfirmCloseAction K resolve80) None 100).1)
     - Sent (ourBody channel_with_cond)) by (vm_compute; reflexivity).
  apply Hw. vm_compute. reflexivity.
Defined.

Lemma OpenVirtual_balance_witness :
  ∃ ch' r,
    updateOurStateWithAction sample_service open_channel OpenVirtualAction
      (Some cond100) 100 = (ch', Ok r)
    ∧ ∃ b l,
        CalcBalance open_channel false = Success (b, l)
        ∧ CalcBalance ch' false
          = Success (b - cond_amount cond100, l + cond_amount cond100)
        ∧ 0 <= b - cond_amount cond100.
Proof.
  eexists _, _. split; [vm_compute; reflexivity|].
  eapply (OpenVirtual_balance sample_service open_channel _ cond100 100 idxK).
  - exact sample_cond_roundtrip.
  - reflexivity.
  - reflexivity.
  - vm_compute. reflexivity.
Defined.

(** The prepay of 30, as the big-endian bytes of the action. *)
Definition prepay30 : bytes := String (Ascii.ascii_of_nat 30) EmptyString.

Lemma CommitVirtual_balance_witness :
  let res := updateOurStateWithAction sample_service channel_with_cond
               (CommitVirtualAction K prepay30) None 100 in
  is_Ok res.2 = true
  ∧ Sent (ourBody res.1) = 0 + (30 - 0)
  ∧ CalcBalance res.1 false = Success (999999900, 100 - (30 - 0)).
Proof.
  cbv zeta. split; [vm_compute; reflexivity|].
  destruct (updateOurStateWithAction sample_service channel_with_cond
              (CommitVirtualAction K prepay30) None 100)
    as [ch' [r|e|msg]] eqn:Hupd; [|vm_compute in Hupd; discriminate..].
  destruct (CommitVirtual_balance sample_service channel_with_cond ch' K
              prepay30 None 100 idxK cond100 [idxK] 999999900 100 r)
    as (_ & Hsent & _ & Hbal).
  - exact sample_cond_roundtrip.
  - vm_compute. reflexivity.
  - vm_compute. reflexivity.
  - exact Hupd.
  - split; [exact Hsent | exact Hbal].
Defined.

Lemma release_balance_witness :
  let res := updateOurStateWithAction sample_service channel_with_cond
               (RemoveVirtualAction K) None 100 in
  is_Ok res.2 = true
  ∧ absent (Conditionals (Our res.1)) K
  ∧ CalcBalance res.1 false = Success (999999900 + 100 - 0, 100 - 100).
Proof.
  cbv zeta. split; [vm_compute; reflexivity|].
  destruct (updateOurStateWithAction sample_service channel_with_cond
              (RemoveVirtualAction K) None 100)
    as [ch' [r|e|msg]] eqn:Hupd; [|vm_compute in Hupd; discriminate..].
  destruct (release_balance sample_service channel_with_cond ch'
              (RemoveVirtualAction K) K None 100 idxK cond100 [idxK]
              999999900 100 r) as (_ & Habs & _ & Hbal).
  - left. reflexivity.
  - vm_compute. reflexivity.
  - vm_compute. reflexivity.
  - exact Hupd.
  - split; [exact Habs | exact Hbal].
Defined.

Lemma IncrementStates_effect_witness :
  ∃ ch' r,
    updateOurStateWithAction sample_service channel_with_cond
      IncrementStatesAction None 100 = (ch', Ok r)
    ∧ Seqno (ourBody ch') = uint64 (1 + 1)
    ∧ CalcBalance ch' false = Success (999999900, 100).
Proof.
  destruct (IncrementStates_effect sample_service channel_with_cond None 100
              (mkCoinConfig 9) eq_refl)
    as (ch' & r & Hupd & _ & _ & Hseq & Hbal).
  exists ch', r. split; [exact Hupd|]. split; [exact Hseq|].
  rewrite Hbal. vm_compute. reflexivity.
Defined.

Lemma OpenVirtual_then_RemoveVirtual_witness :
  ∃ ch1 r1 ch2 r2,
    updateOurStateWithAction sample_service open_channel OpenVirtualAction
      (Some cond100) 100 = (ch1, Ok r1)
    ∧ updateOurStateWithAction sample_service ch1 (RemoveVirtualAction K)
        None 500 = (ch2, Ok r2)
    ∧ Conditionals (Our ch2) = Conditionals (Our open_channel)
    ∧ CalcBalance ch2 false = CalcBalance open_channel false.
Proof.
  destruct (updateOurStateWithAction sample_service open_channel
              OpenVirtualAction (Some cond100) 100)
    as [ch1 [r1|e|msg]] eqn:Hupd1; [|vm_compute in Hupd1; discriminate..].
  destruct (OpenVirtual_then_RemoveVirtual sample_service open_channel ch1
              cond100 None 100 500 idxK r1 sample_cond_roundtrip eq_refl
              eq_refl Hupd1)
    as (ch2 & r2 & Hupd2 & Hc & _ & _ & Hbal).
  exists ch1, r1, ch2, r2. split; [reflexivity|]. split; [exact Hupd2|].
  split; [exact Hc | apply Hbal].
Defined.

End state_balance_examples.

(** ** Known resolves: reading back *)
Section resolves_read.
Import payments db.
Context `{!TonLib}.

(** X12.  [GetKnownResolve] hands out only a state whose signature verifies
    against the key of the meta; it reads back the state that a
    successful [AddKnownResolve] stored (a stored state parses back to
    what was stored); and an [AddKnownResolve] that returns an error
    leaves the meta, and so the known resolve, as it was. *)
Theorem GetKnownResolve_stored (ch ch' : VirtualChannelMeta)
    (state : VirtualChannelState) (err : option error) :
  AddKnownResolve ch state = (ch', err) →
  (∀ st, GetKnownResolve ch' = Some st →
         VirtualChannelState_Verify st (MetaKey ch') = true)
  ∧ (state_roundtrip → err = None → GetKnownResolve ch' = Some state)
  ∧ (is_Some err → ch' = ch).
Proof.
  intros Hadd. split; [|split].
  - intros st. unfold GetKnownResolve.
    destruct (LastKnownResolve ch') as [boc|]; [|discriminate].
    destruct (cell_FromBOC boc) as [cl|]; [|discriminate].
    destruct (VirtualChannelState_Load cl) as [st'|]; [|discriminate].
    destruct (VirtualChannelState_Verify st' (MetaKey ch')) eqn:Hv;
      [|discriminate].
    intros [= <-]. exact Hv.
  - intros Hrt ->. unfold AddKnownResolve in Hadd.
    destruct (VirtualChannelState_Verify state (MetaKey ch)) eqn:Hv;
      [|discriminate].
    simpl in Hadd.
    assert (ch' = stores ch state) as ->.
    { destruct (LastKnownResolve ch) as [boc|];
        [|injection Hadd as <-; reflexivity].
      destruct (cell_FromBOC boc) as [cl|]; [|discriminate].
      destruct (VirtualChannelState_Load cl) as [old|]; [|discriminate].
      destruct (Amount state <? Amount old); [discriminate|].
      injection Hadd as <-. reflexivity. }
    destruct (Hrt state) as (cl & Hboc & Hload).
    unfold GetKnownResolve, stores. simpl. rewrite Hboc, Hload, Hv.
    reflexivity.
  - intros [e ->]. unfold AddKnownResolve in Hadd.
    destruct (negb _); [congruence|].
    destruct (LastKnownResolve ch) as [boc|]; [|discriminate].
    destruct (cell_FromBOC boc) as [cl|]; [|congruence].
    destruct (VirtualChannelState_Load cl) as [old|]; [|congruence].
    destruct (Amount state <? Amount old); [congruence|discriminate].
Qed.

End resolves_read.

Section resolves_read_examples.
Import payments db samples.

Lemma GetKnownResolve_stored_witness :
  GetKnownResolve (AddKnownResolve meta10 (mkVirtualChannelState 15 "K")).1
  = Some (mkVirtualChannelState 15 "K").
Proof.
  destruct (GetKnownResolve_stored meta10
              (AddKnownResolve meta10 (mkVirtualChannelState 15 "K")).1
              (mkVirtualChannelState 15 "K") None) as (_ & Hread & _).
  - vm_compute. reflexivity.
  - apply Hread; [exact sample_state_roundtrip | reflexivity].
Defined.

End resolves_read_examples.

(** ** The task queue: the life of a task *)
Section task_life.
Import leveldb db.
Context `{!Json}.

(** The task that [CreateTask] builds from its arguments. *)
Definition new_task (typ queue id : string) (bts : bytes)
    (executeAfter executeTill : option Time) (now now2 : Time) : Task :=
  mkTask id typ queue bts
    (match executeAfter with Some t => t | None => now end)
    executeTill None None None "" now2.

(** The task that [CompleteTask] leaves to its caller and writes. *)
Definition completed (task : Task) (now : Time) : Task :=
  mkTask (ID task) (Type_ task) (Queue task) (Data task) (ExecuteAfter task)
         (ExecuteTill task) None (ReExecuteAfter task) (Some now)
         (LastError task) (CreatedAt task).

(** Inside a transaction whose snapshot has no body under the task's
    [tv:] key, [createTask] adds the body and the index entry to the
    batch, whatever the batch already holds. *)
Lemma createTask_absent task poolName d snap b :
  snap !! ("tv:" +:+ ID task) = None →
  createTask task poolName (mkWorld d (Some (mkTx snap b))) =
  match json_Marshal task with
  | Success data =>
      (Ok tt,
       mkWorld d
         (Some (mkTx snap
                  (b ++ [BatchPut ("tv:" +:+ ID task) data;
                         BatchPut (getTaskIndexKey task poolName)
                           ("tv:" +:+ ID task)]))))
  | Failure e =>
      (Err (Wrapf "failed to encode json" e), mkWorld d (Some (mkTx snap b)))
  end.
Proof.
  intros Hnone. unfold createTask. rewrite db_Transaction_nested.
  unfold bind, wrap. rewrite Has_in_tx, Hnone.
  rewrite bool_decide_eq_false_2 by (intros [? ?]; discriminate).
  unfold lift. destruct (json_Marshal task) as [data|e]; [|reflexivity].
  rewrite !Put_in_tx, <- app_assoc. reflexivity.
Qed.

Lemma CreateTask_nested poolName typ queue id bts ea et now now2 d snap b :
  snap !! ("tv:" +:+ id) = None →
  let task := new_task typ queue id bts ea et now now2 in
  CreateTask poolName typ queue id (Encodable bts) ea et now now2
    (mkWorld d (Some (mkTx snap b))) =
  match json_Marshal task with
  | Success data =>
      (Ok tt,
       mkWorld d
         (Some (mkTx snap
                  (b ++ [BatchPut ("tv:" +:+ id) data;
                         BatchPut (getTaskIndexKey task poolName)
                           ("tv:" +:+ id)]))))
  | Failure e =>
      (if errors_Is e ErrAlreadyExists then Ok tt
       else Err (Wrapf "failed to create task"
                   (Wrapf "failed to encode json" e)),
       mkWorld d (Some (mkTx snap b)))
  end.
Proof.
  intros Hnone task. unfold CreateTask. simpl.
  rewrite db_Transaction_nested. fold (new_task typ queue id bts ea et now now2).
  fold task. rewrite (createTask_absent task poolName d snap b Hnone).
  destruct (json_Marshal task) as [data|e]; [reflexivity|].
  simpl. destruct (errors_Is e ErrAlreadyExists); reflexivity.
Qed.

(** [CreateTask] outside a transaction, with an id that has no body
    in the store. *)
Lemma CreateTask_top poolName typ queue id bts ea et now now2 d :
  _db d !! ("tv:" +:+ id) = None →
  let task := new_task typ queue id bts ea et now now2 in
  CreateTask poolName typ queue id (Encodable bts) ea et now now2
    (mkWorld d None) =
  match json_Marshal task with
  | Success data =>
      (Ok tt,
       mkWorld (mkLevelDB (<[getTaskIndexKey task poolName := "tv:" +:+ id]>
                             (<["tv:" +:+ id := data]> (_db d)))) None)
  | Failure e =>
      (if errors_Is e ErrAlreadyExists then Ok tt
       else Err (Wrapf "failed to create task"
                   (Wrapf "failed to encode json" e)),
       mkWorld d None)
  end.
Proof.
  intros Hnone task.
  pose proof (CreateTask_nested poolName typ queue id bts ea et now now2 d
                (_db d) [] Hnone) as Hrun.
  cbv zeta in Hrun. fold task in Hrun.
  unfold CreateTask in *. simpl in *.
  rewrite db_Transaction_nested in Hrun.
  destruct (json_Marshal task) as [data|e].
  - rewrite (db_Transaction_top _ d (Ok tt) _ Hrun). reflexivity.
  - destruct (errors_Is e ErrAlreadyExists).
    + rewrite (db_Transaction_top _ d (Ok tt) _ Hrun). simpl.
      rewrite LevelDB_eta. reflexivity.
    + rewrite (db_Transaction_top _ d (Err _) _ Hrun). reflexivity.
Qed.

(** X13.  [CreateTask] with an id that has no body in the store and a
    payload that encodes: the body is written under [tv:<id>], the
    index entry of the pool, which carries the ready-at time and the
    queue, points to it, and nothing else changes.  When the task does
    not encode, nothing is written and the error is returned. *)
Theorem CreateTask_new (poolName typ queue id : string) (bts : bytes)
    (ea et : option Time) (now now2 : Time) (d : LevelDB) :
  _db d !! ("tv:" +:+ id) = None →
  let task := new_task typ queue id bts ea et now now2 in
  let key := "tv:" +:+ id in
  let r := CreateTask poolName typ queue id (Encodable bts) ea et now now2
             (mkWorld d None) in
  (∀ data, json_Marshal task = Success data →
     r = (Ok tt,
          mkWorld (mkLevelDB (<[getTaskIndexKey task poolName := key]>
                                (<[key := data]> (_db d)))) None))
  ∧ (∀ e, json_Marshal task = Failure e →
       r.2 = mkWorld d None
       ∧ (errors_Is e ErrAlreadyExists = false →
          r.1 = Err (Wrapf "failed to create task"
                       (Wrapf "failed to encode json" e)))).
Proof.
  intros Hnone task key r. subst r.
  rewrite (CreateTask_top poolName typ queue id bts ea et now now2 d Hnone).
  fold task key. split.
  - intros data ->. reflexivity.
  - intros e ->. simpl. split; [reflexivity|]. intros ->. reflexivity.
Qed.

(** X14.  Two [CreateTask] calls with the same new id inside one transaction
    both succeed: the existence check reads the snapshot taken when the
    transaction began, which does not hold the first body yet.  The
    second body replaces the first, and the index entries of both
    calls are written. *)
Theorem CreateTask_twice_in_transaction (poolName id : string)
    (typ1 queue1 typ2 queue2 : string) (bts1 bts2 : bytes)
    (ea1 et1 ea2 et2 : option Time) (now1 now1' now2 now2' : Time)
    (d : LevelDB) (data1 data2 : bytes) :
  _db d !! ("tv:" +:+ id) = None →
  let task1 := new_task typ1 queue1 id bts1 ea1 et1 now1 now1' in
  let task2 := new_task typ2 queue2 id bts2 ea2 et2 now2 now2' in
  let key := "tv:" +:+ id in
  json_Marshal task1 = Success data1 →
  json_Marshal task2 = Success data2 →
  db.Transaction
    (_ <- CreateTask poolName typ1 queue1 id (Encodable bts1) ea1 et1
            now1 now1' ;;
     CreateTask poolName typ2 queue2 id (Encodable bts2) ea2 et2 now2 now2')
    (mkWorld d None) =
  (Ok tt,
   mkWorld (mkLevelDB
              (<[getTaskIndexKey task2 poolName := key]>
                 (<[key := data2]>
                    (<[getTaskIndexKey task1 poolName := key]>
                       (<[key := data1]> (_db d)))))) None).
Proof.
  intros Hnone task1 task2 key Hm1 Hm2.
  erewrite db_Transaction_top.
  2:{ unfold bind.
      rewrite (CreateTask_nested poolName typ1 queue1 id bts1 ea1 et1 now1 now1'
                 d (_db d) [] Hnone).
      fold task1. rewrite Hm1.
      rewrite (CreateTask_nested poolName typ2 queue2 id bts2 ea2 et2 now2 now2'
                 d (_db d) _ Hnone).
      fold task2. rewrite Hm2. reflexivity. }
  reflexivity.
Qed.

(** [CompleteTask] on a task that is not completed, outside a
    transaction. *)
Lemma CompleteTask_run poolName task now d :
  CompletedAt task = None →
  (CompleteTask poolName task now).1 = completed task now
  ∧ (CompleteTask poolName task now).2 (mkWorld d None) =
    match _db d !! ("tv:" +:+ ID task) with
    | None => (Err ErrNotFound, mkWorld d None)
    | Some _ =>
        match json_Marshal (completed task now) with
        | Success data =>
            (Ok tt,
             mkWorld (mkLevelDB
                        (delete (getTaskIndexKey task poolName)
                           (<["tv:" +:+ ID task := data]> (_db d)))) None)
        | Failure e => (Err (Wrapf "failed to encode json" e), mkWorld d None)
        end
    end.
Proof.
  intros Hc. unfold CompleteTask.
  rewrite bool_decide_eq_false_2 by (rewrite Hc; intros [? ?]; discriminate).
  cbn [fst snd]. fold (completed task now).
  change (ID (completed task now)) with (ID task).
  change (getTaskIndexKey (completed task now) poolName)
    with (getTaskIndexKey task poolName).
  split; [reflexivity|].
  destruct (_db d !! ("tv:" +:+ ID task)) as [v|] eqn:Hv.
  - destruct (json_Marshal (completed task now)) as [data|e] eqn:Hm.
    + erewrite db_Transaction_top.
      2:{ unfold bind, wrap. rewrite Has_in_tx, Hv.
          rewrite bool_decide_eq_true_2 by eauto.
          unfold lift. rewrite Put_in_tx, Delete_in_tx.
          reflexivity. }
      reflexivity.
    + erewrite db_Transaction_top.
      2:{ unfold bind, wrap. rewrite Has_in_tx, Hv.
          rewrite bool_decide_eq_true_2 by eauto.
          unfold lift. reflexivity. }
      reflexivity.
  - erewrite db_Transaction_top.
    2:{ unfold bind, wrap. rewrite Has_in_tx, Hv.
        rewrite bool_decide_eq_false_2 by (intros [? ?]; discriminate).
        reflexivity. }
    reflexivity.
Qed.

(** [RetryTask] on a locked task that is not completed, outside a
    transaction. *)
Lemma RetryTask_run task reason retryAt d :
  CompletedAt task = None → is_Some (LockedTill task) →
  (RetryTask task reason retryAt).2 (mkWorld d None) =
  match _db d !! ("tv:" +:+ ID task) with
  | None => (Err ErrNotFound, mkWorld d None)
  | Some _ =>
      match json_Marshal (retried task reason retryAt) with
      | Success data =>
          (Ok tt, mkWorld (mkLevelDB (<["tv:" +:+ ID task := data]> (_db d))) None)
      | Failure e => (Err (Wrapf "failed to encode json" e), mkWorld d None)
      end
  end.
Proof.
  intros Hc [l Hl]. unfold RetryTask.
  rewrite bool_decide_eq_false_2 by (rewrite Hc; intros [? ?]; discriminate).
  rewrite bool_decide_eq_false_2 by congruence.
  cbn [orb fst snd]. fold (retried task reason retryAt).
  change (ID (retried task reason retryAt)) with (ID task).
  destruct (_db d !! ("tv:" +:+ ID task)) as [v|] eqn:Hv.
  - destruct (json_Marshal (retried task reason retryAt)) as [data|e] eqn:Hm.
    + erewrite db_Transaction_top.
      2:{ unfold bind, wrap. rewrite Has_in_tx, Hv.
          rewrite bool_decide_eq_true_2 by eauto.
          unfold lift. rewrite Put_in_tx. reflexivity. }
      reflexivity.
    + erewrite db_Transaction_top.
      2:{ unfold bind, wrap. rewrite Has_in_tx, Hv.
          rewrite bool_decide_eq_true_2 by eauto.
          unfold lift. reflexivity. }
      reflexivity.
  - erewrite db_Transaction_top.
    2:{ unfold bind, wrap. rewrite Has_in_tx, Hv.
        rewrite bool_decide_eq_false_2 by (intros [? ?]; discriminate).
        reflexivity. }
    reflexivity.
Qed.

(** X15.  [CompleteTask] on a task that is completed already returns nil and
    changes neither the task nor the store.  Otherwise the caller's
    task gets its completion time and loses its lock, and
    - when the body is stored and the task encodes, the body is
      replaced by the encoding of that task and the index entry of the
      task is deleted, and nothing else changes;
    - when no body is stored, [ErrNotFound] is returned and the store
      is unchanged. *)
Theorem CompleteTask_effect (poolName : string) (task : Task) (now : Time)
    (d : LevelDB) :
  let key := "tv:" +:+ ID task in
  let r := (CompleteTask poolName task now).2 (mkWorld d None) in
  (is_Some (CompletedAt task) →
     (CompleteTask poolName task now).1 = task ∧ r = (Ok tt, mkWorld d None))
  ∧ (CompletedAt task = None →
     (CompleteTask poolName task now).1 = completed task now
     ∧ (∀ data, is_Some (_db d !! key) →
          json_Marshal (completed task now) = Success data →
          r = (Ok tt,
               mkWorld (mkLevelDB
                          (delete (getTaskIndexKey task poolName)
                             (<[key := data]> (_db d)))) None))
     ∧ (_db d !! key = None → r = (Err ErrNotFound, mkWorld d None))).
Proof.
  intros key r. subst r. split.
  - intros Hc. unfold CompleteTask.
    rewrite (bool_decide_eq_true_2 _ Hc). split; reflexivity.
  - intros Hc. destruct (CompleteTask_run poolName task now d Hc) as [-> ->].
    fold key. split; [reflexivity|]. split.
    + intros data [v ->] ->. reflexivity.
    + intros ->. reflexivity.
Qed.

End task_life.

(** ** The task queue: a task from its creation to its completion *)
Section task_order.
Import leveldb db.
Context `{!Json}.

(** A body key is never an index key of a pool. *)
Lemma body_key_not_index poolName x :
  String.prefix (keyIndexOf poolName) ("tv:" +:+ x) = false.
Proof. reflexivity. Qed.

Lemma index_key_not_body task poolName x :
  getTaskIndexKey task poolName ≠ "tv:" +:+ x.
Proof.
  intros Heq. pose proof (prefix_getTaskIndexKey task poolName) as Hp.
  rewrite Heq, body_key_not_index in Hp. discriminate.
Qed.

(** The iterator over a prefix that one key of the store carries. *)
Lemma range_entries_single p (m : gmap string string) k v :
  m !! k = Some v → String.prefix p k = true →
  (∀ k' v', m !! k' = Some v' → String.prefix p k' = true → k' = k) →
  range_entries p m = [(k, v)].
Proof.
  intros Hk Hp Honly.
  assert (Hnodup : NoDup (range_entries p m)).
  { unfold range_entries. rewrite merge_sort_Permutation.
    apply NoDup_ListNoDup, List.NoDup_filter, NoDup_ListNoDup.
    apply NoDup_map_to_list. }
  assert (Hall : ∀ x, x ∈ range_entries p m → x = (k, v)).
  { intros [k' v'] Hin. apply elem_of_range_entries in Hin as [Hk' Hp'].
    pose proof (Honly k' v' Hk' Hp') as ->. congruence. }
  assert (Hin : (k, v) ∈ range_entries p m).
  { apply elem_of_range_entries. auto. }
  destruct (range_entries p m) as [|x [|y l]].
  - apply elem_of_nil in Hin as [].
  - rewrite (Hall x) by (apply elem_of_cons; auto). reflexivity.
  - exfalso. apply NoDup_cons in Hnodup as [Hx _]. apply Hx.
    rewrite (Hall x), <- (Hall y).
    + apply elem_of_cons. auto.
    + apply elem_of_cons. right. apply elem_of_cons. auto.
    + apply elem_of_cons. auto.
Qed.

(** [AcquireTask] on a pool whose first index entry is ready and
    points to a task that can run: that task is taken. *)
Lemma AcquireTask_head poolName now now2 d key dataKey rest a data t0 data' :
  range_entries (keyIndexOf poolName) (_db d) = (key, dataKey) :: rest →
  at_of (keyIndexOf poolName) key = Some a → a <= uint64 now →
  _db d !! dataKey = Some data → json_Unmarshal data = Success t0 →
  runnable now t0 →
  json_Marshal (setLockedTill t0 (Some (now2 + 5 * Minute))) = Success data' →
  AcquireTask poolName now now2 (mkWorld d None) =
  (Ok (Some (setLockedTill t0 (Some (now2 + 5 * Minute)))),
   mkWorld (mkLevelDB (<[dataKey := data']> (_db d))) None).
Proof.
  intros Hentries Hat Hready Hdata Hjson (Hc & Hl & Hw & He) Hm.
  unfold AcquireTask. erewrite db_Transaction_top.
  2:{ unfold bind at 1. unfold NewIterator at 1, view. simpl.
      rewrite Hentries. cbn [acquire_loop].
      unfold at_of in Hat. rewrite Hat.
      destruct (Z.ltb_spec (uint64 now) a); [lia|]. simpl.
      unfold bind at 1. unfold wrap at 1. rewrite Get_in_tx, Hdata.
      unfold bind at 1. unfold lift at 1. rewrite Hjson.
      rewrite bool_decide_eq_false_2
        by (rewrite Hc; intros [? ?]; discriminate).
      unfold locked in Hl. unfold waiting in Hw. unfold expired in He.
      rewrite Hl, Hw, He.
      unfold bind at 1. unfold lift at 1. rewrite Hm.
      unfold bind at 1. unfold wrap at 1. rewrite Put_in_tx.
      reflexivity. }
  reflexivity.
Qed.

(** [AcquireTask] on a pool whose first index entry is not ready yet:
    no task is taken and nothing is written. *)
Lemma AcquireTask_early poolName now now2 d key dataKey rest a :
  range_entries (keyIndexOf poolName) (_db d) = (key, dataKey) :: rest →
  at_of (keyIndexOf poolName) key = Some a → uint64 now < a →
  AcquireTask poolName now now2 (mkWorld d None) = (Ok None, mkWorld d None).
Proof.
  intros Hentries Hat Hearly.
  unfold AcquireTask. erewrite db_Transaction_top.
  2:{ unfold bind at 1. unfold NewIterator at 1, view. simpl.
      rewrite Hentries. cbn [acquire_loop].
      unfold at_of in Hat. rewrite Hat.
      destruct (Z.ltb_spec (uint64 now) a); [|lia]. reflexivity. }
  simpl. rewrite LevelDB_eta. reflexivity.
Qed.

(** X16.  From creation to the first run.  On a store without a body for
    the id and without index entries for the pool, [CreateTask]
    followed by [AcquireTask] hands out exactly the created task, with
    its lock set, once its execute-after time has come (and its
    execute-till time has not passed); before that time [AcquireTask]
    returns no task and leaves the store as [CreateTask] left it.
    The times are compared as [uint64] nanoseconds. *)
Theorem CreateTask_then_AcquireTask (poolName typ queue id : string)
    (bts : bytes) (ea et : option Time) (now0 now0' now now2 : Time)
    (d : LevelDB) (data : bytes) :
  _db d !! ("tv:" +:+ id) = None →
  (∀ k v, _db d !! k = Some v →
          String.prefix (keyIndexOf poolName) k = false) →
  let task := new_task typ queue id bts ea et now0 now0' in
  let taken := setLockedTill task (Some (now2 + 5 * Minute)) in
  json_Marshal task = Success data →
  json_Unmarshal data = Success task →
  ∃ w1,
    CreateTask poolName typ queue id (Encodable bts) ea et now0 now0'
      (mkWorld d None) = (Ok tt, w1)
    ∧ (uint64 now < uint64 (ExecuteAfter task) →
       AcquireTask poolName now now2 w1 = (Ok None, w1))
    ∧ (∀ data',
         uint64 (ExecuteAfter task) <= uint64 now →
         (∀ e, et = Some e → now <= e) →
         json_Marshal taken = Success data' →
         AcquireTask poolName now now2 w1 =
         (Ok (Some taken),
          mkWorld (mkLevelDB (<["tv:" +:+ id := data']> (_db (storage w1))))
            None)).
Proof.
  intros Hnone Hempty task taken Hm Hu.
  pose proof (CreateTask_top poolName typ queue id bts ea et now0 now0' d Hnone)
    as Hnew.
  cbv zeta in Hnew. fold task in Hnew. rewrite Hm in Hnew.
  eexists. split; [exact Hnew|].
  set (key := "tv:" +:+ id) in *.
  set (ik := getTaskIndexKey task poolName) in *.
  set (m1 := <[ik := key]> (<[key := data]> (_db d))).
  assert (Hik : ik ≠ key) by apply index_key_not_body.
  assert (Hentries : range_entries (keyIndexOf poolName) m1 = [(ik, key)]).
  { apply range_entries_single.
    - apply lookup_insert_eq.
    - apply prefix_getTaskIndexKey.
    - intros k' v' Hk' Hp'. subst m1.
      destruct (decide (k' = ik)) as [|Hne]; [assumption|exfalso].
      rewrite lookup_insert_ne in Hk' by congruence.
      destruct (decide (k' = key)) as [->|Hne'].
      + subst key. rewrite body_key_not_index in Hp'. discriminate.
      + rewrite lookup_insert_ne in Hk' by congruence.
        rewrite (Hempty _ _ Hk') in Hp'. discriminate. }
  assert (Hat : at_of (keyIndexOf poolName) ik = Some (uint64 (ExecuteAfter task)))
    by apply at_of_getTaskIndexKey.
  split.
  - intros Hearly.
    exact (AcquireTask_early poolName now now2 (mkLevelDB m1) ik key [] _
             Hentries Hat Hearly).
  - intros data' Hready Htill Hm'.
    apply (AcquireTask_head poolName now now2 (mkLevelDB m1) ik key [] _ data
             task data' Hentries Hat Hready).
    + simpl. subst m1. rewrite lookup_insert_ne by congruence.
      apply lookup_insert_eq.
    + exact Hu.
    + unfold runnable, locked, waiting, expired. subst task. simpl.
      repeat split. destruct et as [e|]; [|reflexivity].
      unfold Before. apply Z.ltb_ge. apply Htill. reflexivity.
    + exact Hm'.
Qed.

(** The bodies of the tasks of a pool are stored under their ids: an
    index entry of the pool whose body decodes points to [tv:<id>] of
    that body. *)
Definition bodies_by_id (poolName : string) (m : gmap string string) : Prop :=
  ∀ k dataKey t,
    m !! k = Some dataKey → String.prefix (keyIndexOf poolName) k = true →
    task_at m dataKey = Some t → dataKey = "tv:" +:+ ID t.

(** After a change of the store that adds nothing but the body of
    [id], and leaves there a body that cannot run, [AcquireTask] does
    not hand out the task [id]. *)
Lemma AcquireTask_not_id poolName now now2 (m m' : gmap string string) id t w :
  bodies_by_id poolName m →
  (∀ k v, k ≠ "tv:" +:+ id → m' !! k = Some v → m !! k = Some v) →
  (∀ tb, task_at m' ("tv:" +:+ id) = Some tb → ¬ runnable now tb) →
  AcquireTask poolName now now2 (mkWorld (mkLevelDB m') None) = (Ok (Some t), w) →
  ID t ≠ id.
Proof.
  intros Hby Hsub Hblocked Hrun Hid.
  destruct (AcquireTask_run poolName now now2 (mkLevelDB m') _ _ Hrun)
    as (pre & rest & sk' & dels & b & Hentries & _ & Hstop & _).
  simpl in Hentries, Hstop.
  destruct Hstop as (key & dataKey & rest' & a & t0 & data' & -> & _ & _ & _
                     & Ht0 & Hrunnable & -> & _).
  simpl in Hid.
  assert (Hin : (key, dataKey) ∈ range_entries (keyIndexOf poolName) m').
  { rewrite Hentries. apply elem_of_app. right. apply elem_of_cons. auto. }
  apply elem_of_range_entries in Hin as [Hkey Hp].
  assert (Hkey0 : m !! key = Some dataKey).
  { apply Hsub; [|exact Hkey]. intros ->.
    rewrite body_key_not_index in Hp. discriminate. }
  destruct (decide (dataKey = "tv:" +:+ id)) as [->|Hne].
  - exact (Hblocked t0 Ht0 Hrunnable).
  - apply Hne. rewrite <- Hid. apply (Hby key dataKey t0 Hkey0 Hp).
    unfold task_at in *.
    destruct (m' !! dataKey) as [data|] eqn:Hd; [|discriminate].
    rewrite (Hsub dataKey data Hne Hd). exact Ht0.
Qed.

Lemma apply_deletes_lookup dels (m : gmap string string) k v :
  Forall (λ o, ∃ k, o = BatchDelete k) dels →
  apply_batch dels m !! k = Some v → m !! k = Some v.
Proof.
  revert m. induction dels as [|o dels IH]; intros m Hall Hk; [exact Hk|].
  apply Forall_cons in Hall as [[k' ->] Hall].
  change (apply_batch (BatchDelete k' :: dels) m)
    with (apply_batch dels (delete k' m)) in Hk.
  apply IH in Hk; [|exact Hall].
  apply lookup_delete_Some in Hk as [_ Hk]. exact Hk.
Qed.

(** X17.  The lock of [AcquireTask] holds: once a task has been handed out,
    a second [AcquireTask] on the same pool, at a time before the five
    minutes of the lock are over, does not hand out that task again
    (the bodies are stored under their ids, and the body that was
    written decodes to the task that was handed out). *)
Theorem AcquireTask_lock_holds (poolName : string) (now now2 now' now2' : Time)
    (d : LevelDB) (t t' : Task) (w1 w2 : World) :
  bodies_by_id poolName (_db d) →
  (∀ data, json_Marshal t = Success data → json_Unmarshal data = Success t) →
  AcquireTask poolName now now2 (mkWorld d None) = (Ok (Some t), w1) →
  now' < now2 + 5 * Minute →
  AcquireTask poolName now' now2' w1 = (Ok (Some t'), w2) →
  ID t' ≠ ID t.
Proof.
  intros Hby Hrt Hrun1 Hlease Hrun2.
  destruct (AcquireTask_run poolName now now2 d _ _ Hrun1)
    as (pre & rest & sk' & dels & b & Hentries & Hscan & Hstop & ->).
  destruct Hstop as (key & dataKey & rest' & a & t0 & data' & -> & _ & _ & _
                     & Ht0 & _ & Ht & Hm & [= ->]).
  assert (Hin : (key, dataKey) ∈ range_entries (keyIndexOf poolName) (_db d)).
  { rewrite Hentries. apply elem_of_app. right. apply elem_of_cons. auto. }
  apply elem_of_range_entries in Hin as [Hkey Hp].
  pose proof (Hby key dataKey t0 Hkey Hp Ht0) as HdataKey.
  assert (Hid : ID t = ID t0) by (rewrite Ht; reflexivity).
  rewrite <- Hid in HdataKey. subst dataKey.
  pose proof (scan_deletes _ _ _ _ _ _ _ Hscan) as Hdels.
  eapply (AcquireTask_not_id poolName now' now2' (_db d) _ (ID t) t' w2 Hby);
    only 3: exact Hrun2.
  - intros k v Hne Hk. simpl in Hk. rewrite apply_batch_app in Hk.
    simpl in Hk. rewrite lookup_insert_ne in Hk by congruence.
    exact (apply_deletes_lookup _ _ _ _ Hdels Hk).
  - intros tb Htb (_ & Hl & _). unfold task_at in Htb.
    rewrite apply_batch_put, (Hrt _ Hm) in Htb. injection Htb as <-.
    rewrite Ht in Hl. unfold locked, After in Hl. simpl in Hl.
    apply Z.ltb_ge in Hl. lia.
Qed.

(** X18.  The retry time holds: after [RetryTask] has written a retry time
    for a locked task, [AcquireTask] at a time before the retry time
    does not hand out that task. *)
Theorem RetryTask_then_AcquireTask (poolName : string) (task : Task)
    (reason : string) (retryAt now now2 : Time) (d : LevelDB) (t : Task)
    (w1 w2 : World) :
  bodies_by_id poolName (_db d) →
  CompletedAt task = None → is_Some (LockedTill task) →
  (∀ data, json_Marshal (retried task reason retryAt) = Success data →
           json_Unmarshal data = Success (retried task reason retryAt)) →
  (RetryTask task reason retryAt).2 (mkWorld d None) = (Ok tt, w1) →
  now < retryAt →
  AcquireTask poolName now now2 w1 = (Ok (Some t), w2) →
  ID t ≠ ID task.
Proof.
  intros Hby Hc Hl Hrt Hretry Hbefore Hrun.
  rewrite (RetryTask_run task reason retryAt d Hc Hl) in Hretry.
  destruct (_db d !! ("tv:" +:+ ID task)) as [v|] eqn:Hv; [|discriminate].
  destruct (json_Marshal (retried task reason retryAt)) as [data|e] eqn:Hm;
    [|discriminate].
  injection Hretry as <-.
  eapply (AcquireTask_not_id poolName now now2 (_db d) _ (ID task) t w2 Hby);
    only 3: exact Hrun.
  - intros k v' Hne Hk. simpl in Hk.
    rewrite lookup_insert_ne in Hk by congruence. exact Hk.
  - intros tb Htb (_ & _ & Hw & _). unfold task_at in Htb. simpl in Htb.
    rewrite lookup_insert_eq, (Hrt _ eq_refl) in Htb. injection Htb as <-.
    unfold waiting, After in Hw. simpl in Hw. apply Z.ltb_ge in Hw. lia.
Qed.

(** X19.  A completed task does not run again: after [CompleteTask] has
    written the completion, no later [AcquireTask] hands out that
    task. *)
Theorem CompleteTask_then_AcquireTask (poolName : string) (task : Task)
    (done now now2 : Time) (d : LevelDB) (t : Task) (w1 w2 : World) :
  bodies_by_id poolName (_db d) →
  CompletedAt task = None →
  (∀ data, json_Marshal (completed task done) = Success data →
           json_Unmarshal data = Success (completed task done)) →
  (CompleteTask poolName task done).2 (mkWorld d None) = (Ok tt, w1) →
  AcquireTask poolName now now2 w1 = (Ok (Some t), w2) →
  ID t ≠ ID task.
Proof.
  intros Hby Hc Hrt Hdone Hrun.
  destruct (CompleteTask_run poolName task done d Hc) as [_ Heff].
  rewrite Heff in Hdone. clear Heff.
  destruct (_db d !! ("tv:" +:+ ID task)) as [v|] eqn:Hv; [|discriminate].
  destruct (json_Marshal (completed task done)) as [data|e] eqn:Hm;
    [|discriminate].
  injection Hdone as <-.
  eapply (AcquireTask_not_id poolName now now2 (_db d) _ (ID task) t w2 Hby);
    only 3: exact Hrun.
  - intros k v' Hne Hk. simpl in Hk.
    apply lookup_delete_Some in Hk as [_ Hk].
    rewrite lookup_insert_ne in Hk by congruence. exact Hk.
  - intros tb Htb (Hc' & _). unfold task_at in Htb. simpl in Htb.
    rewrite lookup_delete_ne, lookup_insert_eq, (Hrt _ eq_refl) in Htb
      by apply index_key_not_body.
    injection Htb as <-. discriminate.
Qed.

End task_order.

(** ** The task queue: tasks that share an index key *)
Section index_collision.
Import leveldb db.
Context `{!Json}.

Lemma body_key_inj x y : "tv:" +:+ x = "tv:" +:+ y → x = y.
Proof. intros Heq. injection Heq as Heq. exact Heq. Qed.

(** X20.  The index key of a task is made of the pool, the execute-after
    time and the queue, not of the id.  Two tasks of one queue with
    different ids and the same execute-after time (as [uint64]
    nanoseconds) share it: the second [CreateTask] overwrites the index
    entry of the first, whose body stays in the store while no index
    entry of the pool points to it any more. *)
Theorem CreateTask_index_collision (poolName queue : string)
    (typ1 id1 typ2 id2 : string) (bts1 bts2 : bytes)
    (ea1 et1 ea2 et2 : option Time) (now1 now1' now2 now2' : Time)
    (d : LevelDB) (data1 data2 : bytes) :
  id1 ≠ id2 →
  _db d !! ("tv:" +:+ id1) = None → _db d !! ("tv:" +:+ id2) = None →
  let task1 := new_task typ1 queue id1 bts1 ea1 et1 now1 now1' in
  let task2 := new_task typ2 queue id2 bts2 ea2 et2 now2 now2' in
  uint64 (ExecuteAfter task1) = uint64 (ExecuteAfter task2) →
  json_Marshal task1 = Success data1 →
  json_Marshal task2 = Success data2 →
  ∃ w1 w2,
    CreateTask poolName typ1 queue id1 (Encodable bts1) ea1 et1 now1 now1'
      (mkWorld d None) = (Ok tt, w1)
    ∧ CreateTask poolName typ2 queue id2 (Encodable bts2) ea2 et2 now2 now2'
        w1 = (Ok tt, w2)
    ∧ getTaskIndexKey task1 poolName = getTaskIndexKey task2 poolName
    ∧ _db (storage w2) !! ("tv:" +:+ id1) = Some data1
    ∧ _db (storage w2) !! getTaskIndexKey task1 poolName
      = Some ("tv:" +:+ id2)
    ∧ (∀ k, String.prefix (keyIndexOf poolName) k = true →
            _db (storage w2) !! k = Some ("tv:" +:+ id1) →
            _db d !! k = Some ("tv:" +:+ id1)).
Proof.
  intros Hne Hn1 Hn2 task1 task2 Hat Hm1 Hm2.
  assert (Hik : getTaskIndexKey task1 poolName = getTaskIndexKey task2 poolName).
  { unfold getTaskIndexKey. rewrite Hat. reflexivity. }
  assert (Hkeys : "tv:" +:+ id1 ≠ "tv:" +:+ id2).
  { intros Heq. apply Hne, body_key_inj, Heq. }
  pose proof (CreateTask_top poolName typ1 queue id1 bts1 ea1 et1 now1 now1' d
                Hn1) as Hc1.
  cbv zeta in Hc1. fold task1 in Hc1. rewrite Hm1 in Hc1.
  eexists _, _. split; [exact Hc1|].
  set (m1 := <[getTaskIndexKey task1 poolName := "tv:" +:+ id1]>
               (<["tv:" +:+ id1 := data1]> (_db d))).
  assert (Hn2' : _db (mkLevelDB m1) !! ("tv:" +:+ id2) = None).
  { simpl. subst m1.
    rewrite lookup_insert_ne by apply index_key_not_body.
    rewrite lookup_insert_ne by exact Hkeys. exact Hn2. }
  pose proof (CreateTask_top poolName typ2 queue id2 bts2 ea2 et2 now2 now2'
                (mkLevelDB m1) Hn2') as Hc2.
  cbv zeta in Hc2. fold task2 in Hc2. rewrite Hm2 in Hc2.
  split; [exact Hc2|]. split; [exact Hik|]. simpl. subst m1. rewrite <- Hik.
  split; [|split].
  - rewrite lookup_insert_ne by apply index_key_not_body.
    rewrite lookup_insert_ne by congruence.
    rewrite lookup_insert_ne by apply index_key_not_body.
    apply lookup_insert_eq.
  - apply lookup_insert_eq.
  - intros k Hp Hk.
    apply lookup_insert_Some in Hk as [[_ Heq]|[Hk1 Hk]]; [congruence|].
    apply lookup_insert_Some in Hk as [[<- _]|[_ Hk]].
    { rewrite body_key_not_index in Hp. discriminate. }
    apply lookup_insert_Some in Hk as [[Heq _]|[_ Hk]]; [congruence|].
    apply lookup_insert_Some in Hk as [[<- _]|[_ Hk]]; [|exact Hk].
    rewrite body_key_not_index in Hp. discriminate.
Qed.

End index_collision.

(** ** The task queue: what the calls leave alone *)
Section task_frame.
Import leveldb db.
Context `{!Json}.

(** [CreateTask] inside a transaction works on the batch only, and
    does not panic. *)
Lemma CreateTask_in_transaction poolName typ queue id bts ea et now now2 d tx :
  ∃ o tx',
    CreateTask poolName typ queue id (Encodable bts) ea et now now2
      (mkWorld d (Some tx)) = (o, mkWorld d (Some tx'))
    ∧ Snapshot tx' = Snapshot tx
    ∧ ∀ msg, o ≠ Panic msg.
Proof.
  destruct tx as [snap b].
  destruct (snap !! ("tv:" +:+ id)) as [v|] eqn:Hv.
  - exists (Ok tt), (mkTx snap b). split; [|split; [reflexivity|discriminate]].
    unfold CreateTask. simpl. rewrite db_Transaction_nested.
    rewrite createTask_exists with (v := v) by exact Hv. reflexivity.
  - pose proof (CreateTask_nested poolName typ queue id bts ea et now now2 d
                  snap b Hv) as Hrun.
    cbv zeta in Hrun. rewrite Hrun.
    destruct (json_Marshal _) as [data|e].
    + eexists _, _. split; [reflexivity|]. split; [reflexivity|discriminate].
    + eexists _, _. split; [reflexivity|]. split; [reflexivity|].
      destruct (errors_Is e ErrAlreadyExists); discriminate.
Qed.

(** X21.  A task created inside a transaction that fails afterwards leaves no
    trace: when [CreateTask] is followed, in one transaction, by a step
    that returns an error (and does not write to the store behind the
    transaction), the transaction returns an error and the store is as
    it was before, body and index entry included. *)
Theorem CreateTask_rolled_back {A} (poolName typ queue id : string)
    (bts : bytes) (ea et : option Time) (now now2 : Time) (d : LevelDB)
    (rest : M A) :
  (∀ w, ∃ e w', rest w = (Err e, w') ∧ storage w' = storage w) →
  ∃ e,
    db.Transaction
      (_ <- CreateTask poolName typ queue id (Encodable bts) ea et now now2 ;;
       rest)
      (mkWorld d None) = (Err e, mkWorld d None).
Proof.
  intros Hrest. unfold db.Transaction. simpl. unfold bind.
  destruct (CreateTask_in_transaction poolName typ queue id bts ea et now now2 d
              (mkTx (_db d) [])) as (o & tx' & -> & _ & Hnopanic).
  destruct o as [[]|e|msg].
  - destruct (Hrest (mkWorld d (Some tx'))) as (e & w' & -> & Hst).
    simpl in Hst. exists e. rewrite Hst. reflexivity.
  - exists e. reflexivity.
  - destruct (Hnopanic msg eq_refl).
Qed.

(** An index entry that [AcquireTask] may delete: its task is not
    completed and its execute-till time has passed. *)
Definition prunable (poolName : string) (now : Time) (m : gmap string string)
    (k : string) : Prop :=
  String.prefix (keyIndexOf poolName) k = true
  ∧ ∃ dataKey t,
      m !! k = Some dataKey ∧ task_at m dataKey = Some t
      ∧ CompletedAt t = None ∧ expired now t = true.

Lemma scan_deleted_expired keyIndex now snap pre sk sk' dels k :
  scan keyIndex now snap pre sk sk' dels → BatchDelete k ∈ dels →
  ∃ dataKey t,
    (k, dataKey) ∈ pre ∧ task_at snap dataKey = Some t
    ∧ CompletedAt t = None ∧ expired now t = true.
Proof.
  induction 1 as [sk|key dataKey rest sk sk' dels a ? ? ? ? IH
                 |key dataKey rest sk sk' dels a t ? ? ? ? ? ? IH
                 |key dataKey rest sk sk' dels a t ? ? ? ? ? ? IH
                 |key dataKey rest sk sk' dels a t ? ? ? ? ? ? ? ? ? IH];
    intros Hin.
  - apply elem_of_nil in Hin as [].
  - destruct (IH Hin) as (dk & t' & Hpre & ?). exists dk, t'.
    split; [apply elem_of_cons; auto | assumption].
  - destruct (IH Hin) as (dk & t' & Hpre & ?). exists dk, t'.
    split; [apply elem_of_cons; auto | assumption].
  - destruct (IH Hin) as (dk & t' & Hpre & ?). exists dk, t'.
    split; [apply elem_of_cons; auto | assumption].
  - apply elem_of_cons in Hin as [[= ->]|Hin].
    + exists dataKey, t. split; [apply elem_of_cons; auto | auto].
    + destruct (IH Hin) as (dk & t' & Hpre & ?). exists dk, t'.
      split; [apply elem_of_cons; auto | assumption].
Qed.

Lemma apply_deletes_cases dels (m : gmap string string) k :
  Forall (λ o, ∃ k, o = BatchDelete k) dels →
  apply_batch dels m !! k = m !! k
  ∨ (BatchDelete k ∈ dels ∧ apply_batch dels m !! k = None).
Proof.
  revert m. induction dels as [|o dels IH]; intros m Hall; [left; reflexivity|].
  apply Forall_cons in Hall as [[k' ->] Hall].
  change (apply_batch (BatchDelete k' :: dels) m)
    with (apply_batch dels (delete k' m)).
  destruct (IH (delete k' m) Hall) as [Heq|[Hin Hnone]].
  - rewrite Heq. destruct (decide (k = k')) as [->|Hne].
    + right. split; [apply elem_of_cons; auto | apply lookup_delete_eq].
    + left. apply lookup_delete_ne. congruence.
  - right. split; [apply elem_of_cons; auto | exact Hnone].
Qed.

(** X22.  [AcquireTask] changes nothing but the body of the task it hands
    out and the index entries of expired tasks, which it deletes: when
    it returns without error, every other key of the store has its old
    value; it adds no index entry and touches no other body, and when
    it hands out no task, no body at all. *)
Theorem AcquireTask_frame (poolName : string) (now now2 : Time) (d : LevelDB)
    (res : option Task) (w' : World) :
  AcquireTask poolName now now2 (mkWorld d None) = (Ok res, w') →
  let kept k :=
    _db (storage w') !! k = _db d !! k
    ∨ (_db (storage w') !! k = None ∧ prunable poolName now (_db d) k) in
  (res = None → ∀ k, kept k)
  ∧ (∀ t, res = Some t →
       ∃ key dataKey t0,
         index poolName d key dataKey ∧ task_at (_db d) dataKey = Some t0
         ∧ t = setLockedTill t0 (Some (now2 + 5 * Minute))
         ∧ ∀ k, k ≠ dataKey → kept k).
Proof.
  intros Hrun kept.
  destruct (AcquireTask_run poolName now now2 d res w' Hrun)
    as (pre & rest & sk' & dels & b & Hentries & Hscan & Hstop & ->).
  pose proof (scan_deletes _ _ _ _ _ _ _ Hscan) as Hdels.
  assert (Hkept : ∀ k, apply_batch dels (_db d) !! k = _db d !! k
                       ∨ (apply_batch dels (_db d) !! k = None
                          ∧ prunable poolName now (_db d) k)).
  { intros k. destruct (apply_deletes_cases dels (_db d) k Hdels)
      as [Heq|[Hin Hnone]]; [left; exact Heq|right].
    split; [exact Hnone|].
    destruct (scan_deleted_expired _ _ _ _ _ _ _ _ Hscan Hin)
      as (dk & t & Hpre & Ht & Hc & He).
    assert ((k, dk) ∈ range_entries (keyIndexOf poolName) (_db d)) as Hk.
    { rewrite Hentries. apply elem_of_app. auto. }
    apply elem_of_range_entries in Hk as [Hk Hp].
    split; [exact Hp|]. exists dk, t. auto. }
  split.
  - intros ->. destruct Hstop as [[= ->] _]. intros k. subst kept. simpl.
    apply Hkept.
  - intros t ->.
    destruct Hstop as (key & dataKey & rest' & a & t0 & data' & -> & _ & _ & _
                       & Ht0 & _ & Ht & _ & [= ->]).
    exists key, dataKey, t0.
    assert ((key, dataKey) ∈ range_entries (keyIndexOf poolName) (_db d)) as Hk.
    { rewrite Hentries. apply elem_of_app. right. apply elem_of_cons. auto. }
    apply elem_of_range_entries in Hk.
    split; [exact Hk|]. split; [exact Ht0|]. split; [exact Ht|].
    intros k Hne. subst kept. simpl. rewrite apply_batch_app. simpl.
    rewrite lookup_insert_ne by congruence. apply Hkept.
Qed.

End task_frame.

(** ** The task queue: when no task is handed out *)
Section acquire_none.
Import leveldb db.
Context `{!Json}.

(** X23.  [AcquireTask] does not pass over work: when it returns no task
    (and no error), every index entry of the pool whose ready-at time
    has come and whose task could run (not completed, not locked, not
    waiting for a retry, not expired) is held back by an earlier entry
    of the index whose task, of the queue of this key, is locked or
    waits for its retry time. *)
Theorem AcquireTask_none (poolName : string) (now now2 : Time) (d : LevelDB)
    (w' : World) (k dataKey : string) (a : Z) (t : Task) :
  AcquireTask poolName now now2 (mkWorld d None) = (Ok None, w') →
  index poolName d k dataKey →
  at_of (keyIndexOf poolName) k = Some a → a <= uint64 now →
  task_at (_db d) dataKey = Some t → runnable now t →
  held poolName now d k.
Proof.
  intros Hrun Hk Hat Hready Ht Hrunnable.
  destruct (AcquireTask_run poolName now now2 d None w' Hrun)
    as (pre & rest & sk' & dels & b & Hentries & Hscan & Hstop & _).
  pose proof (range_entries_sorted (keyIndexOf poolName) (_db d)) as Hsorted.
  rewrite Hentries in Hsorted.
  assert (Hentry : (k, dataKey) ∈ pre ++ rest).
  { rewrite <- Hentries. apply elem_of_range_entries. exact Hk. }
  destruct Hstop as [_ Hrest].
  assert (Hin : (k, dataKey) ∈ pre).
  { destruct Hrest as [->|(kb & dkb & rest' & ab & -> & Hatb & Hlate)].
    - rewrite app_nil_r in Hentry. exact Hentry.
    - apply (sorted_before _ _ _ _ _ _ Hsorted Hentry).
      apply (index_order (keyIndexOf poolName) k kb a ab);
        [apply Hk| |assumption..|lia].
      assert ((kb, dkb) ∈ range_entries (keyIndexOf poolName) (_db d)) as Hb.
      { rewrite Hentries. apply elem_of_app. right. apply elem_of_cons. auto. }
      apply elem_of_range_entries in Hb. apply Hb. }
  apply list_elem_of_split in Hin as (l1 & l2 & ->).
  destruct (scan_app_inv _ _ _ _ _ _ _ _ Hscan)
    as (skm & d1 & d2 & H1 & H2 & ->).
  destruct (scan_cons_inv _ _ _ _ _ _ _ _ _ H2)
    as (a' & _ & _ & [[Hs _]|[_ (t' & Ht' & Hcase)]]).
  - destruct (scan_skip_origin _ _ _ _ _ _ _ _ H1 Hs)
      as [Hnil|(kb & dkb & tb & Hinb & Htb & Hh & Hq)]; [discriminate|].
    exists kb, dkb, tb.
    assert (index poolName d kb dkb) as Hkb.
    { apply (elem_of_range_entries (keyIndexOf poolName) (_db d)).
      rewrite Hentries. apply elem_of_app. left. apply elem_of_app. auto. }
    split; [exact Hkb|]. split; [|auto].
    apply le_ne_precedes.
    + apply StronglySorted_app_1_l in Hsorted.
      exact (sorted_le _ _ _ _ _ _ Hsorted Hinb).
    + intros ->. destruct Hkb as [Hb _], Hk as [Hk _].
      rewrite Hb in Hk. injection Hk as ->.
      rewrite Ht in Htb. injection Htb as <-.
      exact (holds_back_not_runnable now t Hh Hrunnable).
  - exfalso. rewrite Ht in Ht'. injection Ht' as <-.
    destruct Hrunnable as (Hc & Hl & Hw & He).
    destruct Hcase as [[[? Hc'] _]|[[Hh _]|(_ & _ & _ & He' & _)]].
    + congruence.
    + destruct Hh as [_ [?|?]]; congruence.
    + congruence.
Qed.

End acquire_none.

Section task_life_examples.
Import leveldb db.

(** A JSON codec for examples that keeps every field of a task: a
    string is written as its length followed by its bytes, an optional
    time as ["-"] or ["+"] followed by the time. *)
Fixpoint take_bytes (n : nat) (b : bytes) : bytes :=
  match n, b with
  | S n', String c b' => String c (take_bytes n' b')
  | _, _ => EmptyString
  end.

Definition encode_str (s : string) : string :=
  samples.encode_Z (Z.of_nat (String.length s)) +:+ s.

Definition decode_str (s : string) : option (string * string) :=
  match samples.decode_Z s with
  | Some (n, r) => Some (take_bytes (Z.to_nat n) r, drop_bytes (Z.to_nat n) r)
  | None => None
  end.

Definition encode_time (o : option Time) : string :=
  match o with
  | None => "-"
  | Some z => String "+"%char (samples.encode_Z z)
  end.

Definition decode_time (s : string) : option (option Time * string) :=
  match s with
  | EmptyString => None
  | String c r =>
      if Ascii.eqb c "-"%char then Some (None, r)
      else if Ascii.eqb c "+"%char then
        match samples.decode_Z r with
        | Some (z, r') => Some (Some z, r')
        | None => None
        end
      else None
  end.

Definition encode_task (t : Task) : string :=
  encode_str (ID t) +:+ encode_str (Type_ t) +:+ encode_str (Queue t)
  +:+ encode_str (Data t) +:+ samples.encode_Z (ExecuteAfter t)
  +:+ encode_time (ExecuteTill t) +:+ encode_time (LockedTill t)
  +:+ encode_time (ReExecuteAfter t) +:+ encode_time (CompletedAt t)
  +:+ encode_str (LastError t) +:+ samples.encode_Z (CreatedAt t).

Definition decode_task (s : string) : option Task :=
  '(id, s) ← decode_str s;
  '(typ, s) ← decode_str s;
  '(queue, s) ← decode_str s;
  '(data, s) ← decode_str s;
  '(after, s) ← samples.decode_Z s;
  '(till, s) ← decode_time s;
  '(locked_till, s) ← decode_time s;
  '(retry, s) ← decode_time s;
  '(done, s) ← decode_time s;
  '(last_error, s) ← decode_str s;
  '(created, _) ← samples.decode_Z s;
  Some (mkTask id typ queue data after till locked_till retry done
          last_error created).

#[local] Instance full_json : Json := {|
  json_Marshal t := Success (encode_task t);
  json_Unmarshal b :=
    match decode_task b with
    | Some t => Success t
    | None => Failure (ErrExternal "invalid character")
    end
|}.

(** The task ["a"] of queue ["q1"] and the task ["b"] of queue ["q2"],
    ready at 5 and at 6. *)
Definition task_a : Task := new_task "job" "q1" "a" "{}" (Some 5) None 1 2.
Definition task_b : Task := new_task "job" "q2" "b" "{}" (Some 6) None 1 2.

(** The store that [CreateTask] leaves for them in pool ["p"]. *)
Definition two_tasks : LevelDB :=
  mkLevelDB (<[getTaskIndexKey task_b "p" := "tv:b"]>
              (<["tv:b" := encode_task task_b]>
                (<[getTaskIndexKey task_a "p" := "tv:a"]>
                  (<["tv:a" := encode_task task_a]> ∅)))).

Lemma two_tasks_by_id : bodies_by_id "p" (_db two_tasks).
Proof.
  intros k dataKey t Hk Hp Ht. unfold two_tasks in *. simpl in Hk.
  apply lookup_insert_Some in Hk as [[<- <-]|[_ Hk]].
  { vm_compute in Ht. injection Ht as <-. reflexivity. }
  apply lookup_insert_Some in Hk as [[<- <-]|[_ Hk]].
  { vm_compute in Hp. discriminate. }
  apply lookup_insert_Some in Hk as [[<- <-]|[_ Hk]].
  { vm_compute in Ht. injection Ht as <-. reflexivity. }
  apply lookup_insert_Some in Hk as [[<- <-]|[_ Hk]].
  { vm_compute in Hp. discriminate. }
  rewrite lookup_empty in Hk. discriminate.
Qed.

Lemma CreateTask_new_witness :
  CreateTask "p" "job" "q1" "a" (Encodable "{}") (Some 5) None 1 2
    (mkWorld (mkLevelDB ∅) None) =
  (Ok tt,
   mkWorld (mkLevelDB (<[getTaskIndexKey task_a "p" := "tv:a"]>
                         (<["tv:a" := encode_task task_a]> ∅))) None).
Proof.
  apply (CreateTask_new "p" "job" "q1" "a" "{}" (Some 5) None 1 2
           (mkLevelDB ∅)).
  - reflexivity.
  - reflexivity.
Defined.

Lemma CreateTask_twice_in_transaction_witness :
  db.Transaction
    (_ <- CreateTask "p" "job" "q1" "a" (Encodable "{}") (Some 5) None 1 2 ;;
     CreateTask "p" "other" "q2" "a" (Encodable "[]") (Some 9) None 3 4)
    (mkWorld (mkLevelDB ∅) None) =
  (Ok tt,
   mkWorld (mkLevelDB
              (<[getTaskIndexKey
                   (new_task "other" "q2" "a" "[]" (Some 9) None 3 4) "p"
                 := "tv:a"]>
                 (<["tv:a" := encode_task
                                (new_task "other" "q2" "a" "[]" (Some 9) None 3 4)]>
                    (<[getTaskIndexKey task_a "p" := "tv:a"]>
                       (<["tv:a" := encode_task task_a]> ∅))))) None).
Proof.
  apply (CreateTask_twice_in_transaction "p" "a" "job" "q1" "other" "q2"
           "{}" "[]" (Some 5) None (Some 9) None 1 2 3 4 (mkLevelDB ∅)).
  - reflexivity.
  - reflexivity.
  - reflexivity.
Defined.

Lemma CompleteTask_effect_witness :
  (CompleteTask "p" task_a 50).2 (mkWorld two_tasks None) =
  (Ok tt,
   mkWorld (mkLevelDB
              (delete (getTaskIndexKey task_a "p")
                 (<["tv:a" := encode_task (completed task_a 50)]>
                    (_db two_tasks)))) None).
Proof.
  destruct (CompleteTask_effect "p" task_a 50 two_tasks) as [_ Heff].
  destruct (Heff eq_refl) as (_ & Hstored & _).
  apply Hstored.
  - vm_compute. eauto.
  - reflexivity.
Defined.

Lemma CreateTask_then_AcquireTask_witness :
  ∃ w1,
    CreateTask "p" "job" "q1" "a" (Encodable "{}") (Some 5) None 1 2
      (mkWorld (mkLevelDB ∅) None) = (Ok tt, w1)
    ∧ AcquireTask "p" 4 4 w1 = (Ok None, w1)
    ∧ AcquireTask "p" 10 11 w1 =
      (Ok (Some (setLockedTill task_a (Some (11 + 5 * Minute)))),
       mkWorld (mkLevelDB
                  (<["tv:a" := encode_task
                                 (setLockedTill task_a (Some (11 + 5 * Minute)))]>
                     (_db (storage w1)))) None).
Proof.
  destruct (CreateTask_then_AcquireTask "p" "job" "q1" "a" "{}" (Some 5) None
              1 2 4 4 (mkLevelDB ∅) (encode_task task_a))
    as (w1 & Hcreate & Hearly & _).
  { reflexivity. }
  { intros k v Hk. simpl in Hk. rewrite lookup_empty in Hk. discriminate. }
  { reflexivity. }
  { vm_compute. reflexivity. }
  destruct (CreateTask_then_AcquireTask "p" "job" "q1" "a" "{}" (Some 5) None
              1 2 10 11 (mkLevelDB ∅) (encode_task task_a))
    as (w1' & Hcreate' & _ & Htake).
  { reflexivity. }
  { intros k v Hk. simpl in Hk. rewrite lookup_empty in Hk. discriminate. }
  { reflexivity. }
  { vm_compute. reflexivity. }
  rewrite Hcreate in Hcreate'. injection Hcreate' as <-.
  exists w1. split; [exact Hcreate|]. split.
  - apply Hearly. vm_compute. reflexivity.
  - apply Htake.
    + vm_compute. discriminate.
    + intros e He. discriminate.
    + reflexivity.
Defined.

Lemma AcquireTask_lock_holds_witness :
  ∃ t t' w1 w2,
    AcquireTask "p" 10 11 (mkWorld two_tasks None) = (Ok (Some t), w1)
    ∧ AcquireTask "p" 20 21 w1 = (Ok (Some t'), w2)
    ∧ ID t = "a" ∧ ID t' = "b" ∧ ID t' ≠ ID t.
Proof.
  eexists _, _, _, _.
  split; [vm_compute; reflexivity|]. split; [vm_compute; reflexivity|].
  split; [reflexivity|]. split; [reflexivity|].
  eapply (AcquireTask_lock_holds "p" 10 11 20 21 two_tasks).
  - exact two_tasks_by_id.
  - intros data [= <-]. vm_compute. reflexivity.
  - vm_compute. reflexivity.
  - vm_compute. reflexivity.
  - vm_compute. reflexivity.
Defined.

(** [task_a] as [AcquireTask] hands it out at 11. *)
Definition taken_a : Task := setLockedTill task_a (Some (11 + 5 * Minute)).

Lemma RetryTask_then_AcquireTask_witness :
  ∃ w1 t w2,
    (RetryTask taken_a "timeout" 100).2 (mkWorld two_tasks None) = (Ok tt, w1)
    ∧ AcquireTask "p" 20 21 w1 = (Ok (Some t), w2)
    ∧ ID t = "b" ∧ ID t ≠ ID taken_a.
Proof.
  eexists _, _, _.
  split; [vm_compute; reflexivity|]. split; [vm_compute; reflexivity|].
  split; [reflexivity|].
  eapply (RetryTask_then_AcquireTask "p" taken_a "timeout" 100 20 21 two_tasks).
  - exact two_tasks_by_id.
  - reflexivity.
  - vm_compute. eauto.
  - intros data [= <-]. vm_compute. reflexivity.
  - vm_compute. reflexivity.
  - lia.
  - vm_compute. reflexivity.
Defined.

Lemma CompleteTask_then_AcquireTask_witness :
  ∃ w1 t w2,
    (CompleteTask "p" taken_a 50).2 (mkWorld two_tasks None) = (Ok tt, w1)
    ∧ AcquireTask "p" 1000 1001 w1 = (Ok (Some t), w2)
    ∧ ID t = "b" ∧ ID t ≠ ID taken_a.
Proof.
  eexists _, _, _.
  split; [vm_compute; reflexivity|]. split; [vm_compute; reflexivity|].
  split; [reflexivity|].
  eapply (CompleteTask_then_AcquireTask "p" taken_a 50 1000 1001 two_tasks).
  - exact two_tasks_by_id.
  - reflexivity.
  - intros data [= <-]. vm_compute. reflexivity.
  - vm_compute. reflexivity.
  - vm_compute. reflexivity.
Defined.

Lemma CreateTask_index_collision_witness :
  ∃ w1 w2,
    CreateTask "p" "job" "q1" "a" (Encodable "{}") (Some 5) None 1 2
      (mkWorld (mkLevelDB ∅) None) = (Ok tt, w1)
    ∧ CreateTask "p" "job" "q1" "c" (Encodable "{}") (Some 5) None 3 4 w1
      = (Ok tt, w2)
    ∧ _db (storage w2) !! "tv:a" = Some (encode_task task_a)
    ∧ _db (storage w2) !! getTaskIndexKey task_a "p" = Some "tv:c".
Proof.
  destruct (CreateTask_index_collision "p" "q1" "job" "a" "job" "c" "{}" "{}"
              (Some 5) None (Some 5) None 1 2 3 4 (mkLevelDB ∅)
              (encode_task task_a)
              (encode_task (new_task "job" "q1" "c" "{}" (Some 5) None 3 4)))
    as (w1 & w2 & H1 & H2 & _ & Hbody & Hindex & _).
  - discriminate.
  - reflexivity.
  - reflexivity.
  - reflexivity.
  - reflexivity.
  - reflexivity.
  - exists w1, w2. auto.
Defined.

Lemma CreateTask_rolled_back_witness :
  ∃ e,
    db.Transaction
      (_ <- CreateTask "p" "job" "q1" "a" (Encodable "{}") (Some 5) None 1 2 ;;
       @fail unit (Errorf "no funds"))
      (mkWorld (mkLevelDB ∅) None) = (Err e, mkWorld (mkLevelDB ∅) None).
Proof.
  apply (CreateTask_rolled_back "p" "job" "q1" "a" "{}" (Some 5) None 1 2
           (mkLevelDB ∅) (fail (Errorf "no funds"))).
  intros w. exists (Errorf "no funds"), w. split; reflexivity.
Defined.

Lemma AcquireTask_frame_witness :
  ∃ t w',
    AcquireTask "p" 10 11 (mkWorld two_tasks None) = (Ok (Some t), w')
    ∧ ID t = "a"
    ∧ (_db (storage w') !! "tv:b" = _db two_tasks !! "tv:b"
       ∨ (_db (storage w') !! "tv:b" = None
          ∧ prunable "p" 10 (_db two_tasks) "tv:b")).
Proof.
  destruct (AcquireTask "p" 10 11 (mkWorld two_tasks None))
    as [[[t|]|e|msg] w'] eqn:Hrun; try (vm_compute in Hrun; discriminate).
  exists t, w'. split; [reflexivity|].
  destruct (AcquireTask_frame "p" 10 11 two_tasks (Some t) w' Hrun) as [_ Hsome].
  destruct (Hsome t eq_refl) as (key & dataKey & t0 & Hindex & Ht0 & Ht & Hkept).
  assert (Hid : ID t = "a").
  { vm_compute in Hrun. injection Hrun as <- _. reflexivity. }
  split; [exact Hid|].
  apply Hkept. intros <-.
  pose proof (two_tasks_by_id _ _ _ (proj1 Hindex) (proj2 Hindex) Ht0) as Hb.
  rewrite Ht in Hid. simpl in Hid. rewrite Hid in Hb. discriminate.
Defined.

(** Queue ["q1"] with [task_a], handed out at 11 and so locked, at its
    head, and behind it the task ["c"], ready at 6. *)
Definition task_c : Task := new_task "job" "q1" "c" "{}" (Some 6) None 1 2.

Definition blocked_queue : LevelDB :=
  mkLevelDB (<[getTaskIndexKey task_c "p" := "tv:c"]>
              (<["tv:c" := encode_task task_c]>
                (<[getTaskIndexKey task_a "p" := "tv:a"]>
                  (<["tv:a" := encode_task taken_a]> ∅)))).

Lemma AcquireTask_none_witness :
  ∃ w',
    AcquireTask "p" 20 21 (mkWorld blocked_queue None) = (Ok None, w')
    ∧ held "p" 20 blocked_queue (getTaskIndexKey task_c "p").
Proof.
  eexists. split; [vm_compute; reflexivity|].
  eapply (AcquireTask_none "p" 20 21 blocked_queue _ _ "tv:c" 6 task_c).
  - vm_compute. reflexivity.
  - split; vm_compute; reflexivity.
  - vm_compute. reflexivity.
  - vm_compute. discriminate.
  - vm_compute. reflexivity.
  - unfold runnable. repeat split.
Defined.

End task_life_examples.
